(** * optees: verification of the utility layer

    A shallow embedding of
    - [src/optees/utility/knapsack_utils.py]  (0/1 knapsack by dynamic programming),
    - [src/optees/utility/milp_utils.py]      (normalisation, routing, result packaging),
    - [src/optees/utility/data_adapters/lpnetlib_adapter.py] (row-bound partitioning, objective offset),
    - [src/optees/utility/data_adapters/miplib_solu.py]      (solution-archive parser),
    - [src/optees/utility/data_adapters/knapsack_burkardt_adapter.py] (knapsack instance loader),
    followed by the properties proved about it.

    Conventions of the embedding.
    - A Python [int] is a [Z].  A Python [float] is a [pyfloat]: a rational
      for a finite value, or one of the two infinities, or NaN.  Sums,
      differences and products of floats, and [float(x)], round to the
      nearest double ([round_double]).
    - A function that may raise returns a [result]; [Raise e] is the
      exception leaving the function.
    - A Python list indexed by an [int] follows Python: a negative index
      counts from the end, an index out of range raises [IndexError]. *)

From Stdlib Require Import ZArith QArith Qround Qabs Lia Lqa DecimalString.
From Stdlib Require Import String Ascii List Sorted DecimalNat.
From stdpp Require Import base option list strings gmap.

(* ===================================================================== *)
(** * Python values shared by the four source files                      *)
(* ===================================================================== *)

Module Py.

(** Exceptions that can leave the modelled functions. *)
Inductive exn : Type :=
| ValueError (msg : string)
| IndexError
| KeyError (key : string)
| TypeError
| OverflowError.

Inductive result (A : Type) : Type :=
| Ok (a : A)
| Raise (e : exn).
Arguments Ok {A} a.
Arguments Raise {A} e.

Definition bind {A B : Type} (m : result A) (k : A → result B) : result B :=
  match m with
  | Ok a => k a
  | Raise e => Raise e
  end.

Definition raises {A : Type} (m : result A) : Prop :=
  match m with
  | Ok _ => False
  | Raise _ => True
  end.

(** A loop [for x in l: s = body(s, x)] whose body may raise. *)
Fixpoint for_each {S A : Type} (body : S → A → result S) (l : list A) (s : S)
  : result S :=
  match l with
  | [] => Ok s
  | x :: l' => bind (body s x) (for_each body l')
  end.

(** [range(lo, hi)] for integers. *)
Definition range (lo hi : Z) : list Z :=
  map (fun k : nat => (lo + Z.of_nat k)%Z) (seq 0 (Z.to_nat (hi - lo))).

(** [l[i]] *)
Definition getitem {A : Type} (l : list A) (i : Z) : result A :=
  let len := Z.of_nat (length l) in
  let j := if (i <? 0)%Z then (i + len)%Z else i in
  if ((j <? 0) || (len <=? j))%Z then Raise IndexError
  else match l !! Z.to_nat j with
       | Some x => Ok x
       | None => Raise IndexError
       end.

(** [l[i] = x] *)
Definition setitem {A : Type} (l : list A) (i : Z) (x : A) : result (list A) :=
  let len := Z.of_nat (length l) in
  let j := if (i <? 0)%Z then (i + len)%Z else i in
  if ((j <? 0) || (len <=? j))%Z then Raise IndexError
  else Ok (<[Z.to_nat j := x]> l).

(** Floats. *)
Inductive pyfloat : Type :=
| Fin (q : Q)
| PosInf
| NegInf
| NaN.

Definition isfinite (x : pyfloat) : bool :=
  match x with Fin _ => true | _ => false end.

(** [x.is_integer()] *)
Definition is_integer (x : pyfloat) : bool :=
  match x with
  | Fin q => (Qnum q mod Zpos (Qden q) =? 0)%Z
  | _ => false
  end.

(** [int(x)] for a finite float: truncation towards zero. *)
Definition int_of_Q (q : Q) : Z := (Qnum q ÷ Zpos (Qden q))%Z.

(** [x < 0] and [x == 0] on floats: every comparison with NaN is false. *)
Definition float_ltb0 (x : pyfloat) : bool :=
  match x with
  | Fin q => negb (Qle_bool 0 q)
  | NegInf => true
  | PosInf | NaN => false
  end.

Definition float_eqb0 (x : pyfloat) : bool :=
  match x with
  | Fin q => Qeq_bool q 0
  | _ => false
  end.

(** The numbers a caller can pass where the code expects an [int]:
    an [int], a [float], or another numeric type ([fractions.Fraction]),
    which compares with [0] but is neither [int] nor [float]. *)
Inductive pynum : Type :=
| PyInt (z : Z)
| PyFloat (f : pyfloat)
| PyFraction (q : Q).

Definition num_ltb0 (x : pynum) : bool :=
  match x with
  | PyInt z => (z <? 0)%Z
  | PyFloat f => float_ltb0 f
  | PyFraction q => negb (Qle_bool 0 q)
  end.

Definition num_eqb0 (x : pynum) : bool :=
  match x with
  | PyInt z => (z =? 0)%Z
  | PyFloat f => float_eqb0 f
  | PyFraction q => Qeq_bool q 0
  end.

(** Negation, absolute value and comparison of floats. *)
Definition fneg (x : pyfloat) : pyfloat :=
  match x with
  | Fin q => Fin (- q)
  | PosInf => NegInf
  | NegInf => PosInf
  | NaN => NaN
  end.

Definition fabs (x : pyfloat) : pyfloat :=
  match x with
  | Fin q => Fin (Qabs q)
  | PosInf | NegInf => PosInf
  | NaN => NaN
  end.

(** [x <= y] *)
Definition fle (x y : pyfloat) : bool :=
  match x, y with
  | NaN, _ | _, NaN => false
  | Fin a, Fin b => Qle_bool a b
  | NegInf, _ | _, PosInf => true
  | PosInf, _ | _, NegInf => false
  end.

(** [round(x)] to an [int]: nearest integer, ties to the even one. *)
Definition py_round (x : Q) : Z :=
  let f := Qfloor x in
  let r := (x - inject_Z f)%Q in
  if Qle_bool r (1 # 2) then
    if Qle_bool (1 # 2) r then (if Z.even f then f else (f + 1)%Z) else f
  else (f + 1)%Z.

(** ** Double precision *)

(** [2^e] as a rational. *)
Definition pow2 (e : Z) : Q :=
  if (0 <=? e)%Z then inject_Z (2 ^ e) else 1 # Z.to_pos (2 ^ (- e)).

(** The double nearest to a rational (IEEE 754 binary64, round to nearest,
    ties to the even significand): 53 significant bits, the last place no
    finer than [2^-1074]; a magnitude that rounds to [2^1024] or more
    becomes an infinity.  The two zeros are not told apart. *)
Definition round_double (q : Q) : pyfloat :=
  let a := Qabs q in
  if Qeq_bool a 0 then Fin 0
  else
    let e0 := (Z.log2 (Z.abs (Qnum q)) - Z.log2 (Zpos (Qden q)) - 52)%Z in
    let e1 := if Qle_bool (inject_Z (2 ^ 52)) (a / pow2 e0) then e0
              else (e0 - 1)%Z in
    let e := Z.max e1 (-1074) in
    let m := py_round (a / pow2 e) in
    let v := (inject_Z m * pow2 e)%Q in
    if Qle_bool (inject_Z (2 ^ 1024)) v
    then (if Qle_bool 0 q then PosInf else NegInf)
    else Fin (Qred (if Qle_bool 0 q then v else - v)).

(** [x + y] on floats. *)
Definition fadd (x y : pyfloat) : pyfloat :=
  match x, y with
  | NaN, _ | _, NaN => NaN
  | Fin a, Fin b => round_double (a + b)
  | PosInf, NegInf | NegInf, PosInf => NaN
  | PosInf, _ | _, PosInf => PosInf
  | NegInf, _ | _, NegInf => NegInf
  end.

(** [x - y] on floats: [x + (-y)]. *)
Definition fsub (x y : pyfloat) : pyfloat := fadd x (fneg y).

(** [x * y] on floats. *)
Definition fmul (x y : pyfloat) : pyfloat :=
  match x, y with
  | NaN, _ | _, NaN => NaN
  | Fin a, Fin b => round_double (a * b)
  | Fin a, PosInf | PosInf, Fin a =>
      if Qeq_bool a 0 then NaN else if Qle_bool 0 a then PosInf else NegInf
  | Fin a, NegInf | NegInf, Fin a =>
      if Qeq_bool a 0 then NaN else if Qle_bool 0 a then NegInf else PosInf
  | PosInf, PosInf | NegInf, NegInf => PosInf
  | PosInf, NegInf | NegInf, PosInf => NegInf
  end.

(** [x > y] and [x != y]: a comparison with NaN is false, but NaN differs
    from everything. *)
Definition fgt (x y : pyfloat) : bool :=
  match x, y with
  | NaN, _ | _, NaN => false
  | Fin a, Fin b => negb (Qle_bool a b)
  | PosInf, PosInf | NegInf, NegInf => false
  | PosInf, _ | _, NegInf => true
  | NegInf, _ | _, PosInf => false
  end.

Definition fne (x y : pyfloat) : bool :=
  match x, y with
  | NaN, _ | _, NaN => true
  | Fin a, Fin b => negb (Qeq_bool a b)
  | PosInf, PosInf | NegInf, NegInf => false
  | _, _ => true
  end.

(** [min(x, y)]: [y] when [y < x], else [x]. *)
Definition fmin (x y : pyfloat) : pyfloat := if fgt x y then y else x.

(** [float(z)] for an [int]: the nearest double, [OverflowError] beyond the
    range of the doubles. *)
Definition float_of_int (z : Z) : result pyfloat :=
  match round_double (inject_Z z) with
  | Fin q => Ok (Fin q)
  | _ => Raise OverflowError
  end.

(** [float(x)] for a number. *)
Definition to_float (x : pynum) : result pyfloat :=
  match x with
  | PyInt z => float_of_int z
  | PyFloat f => Ok f
  | PyFraction q => match round_double q with
                    | Fin r => Ok (Fin r)
                    | _ => Raise OverflowError
                    end
  end.

(** [round(x)] for a float. *)
Definition round_float (x : pyfloat) : result Z :=
  match x with
  | Fin q => Ok (py_round q)
  | PosInf | NegInf => Raise OverflowError
  | NaN => Raise (ValueError "cannot convert float NaN to integer")
  end.

(** [int(x)] for a float. *)
Definition int_of_float (x : pyfloat) : result Z :=
  match x with
  | Fin q => Ok (int_of_Q q)
  | PosInf | NegInf => Raise OverflowError
  | NaN => Raise (ValueError "cannot convert float NaN to integer")
  end.

(** [for x in l] collecting [f(x)], where [f] may raise. *)
Fixpoint traverse {A B : Type} (f : A → result B) (l : list A)
  : result (list B) :=
  match l with
  | [] => Ok []
  | x :: l' => bind (f x) (fun y => bind (traverse f l') (fun ys => Ok (y :: ys)))
  end.

(** [enumerate(l)] *)
Definition enumerate {A : Type} (l : list A) : list (nat * A) :=
  zip (seq 0 (length l)) l.

(** [str(n)] for a natural number. *)
Definition str_of_nat (n : nat) : string :=
  NilEmpty.string_of_uint (Nat.to_uint n).

(** [s.lower()] on code points below 256: the letters A-Z and the
    Latin-1 capitals (all of 192-222 but the multiplication sign 215). *)
Definition lower_ascii (a : ascii) : ascii :=
  let n := nat_of_ascii a in
  if ((65 <=? n) && (n <=? 90))%nat then ascii_of_nat (n + 32)
  else if ((192 <=? n) && (n <=? 222) && negb (n =? 215))%nat
       then ascii_of_nat (n + 32)
  else a.

Fixpoint lower (s : string) : string :=
  match s with
  | EmptyString => EmptyString
  | String a s' => String (lower_ascii a) (lower s')
  end.

End Py.

Notation "x ←! m ; k" := (Py.bind m (fun x => k))
  (at level 100, m at next level, right associativity,
   format "'[v' x  ←!  m ; '/' k ']'").

(* ===================================================================== *)
(** * knapsack_utils.py                                                   *)
(* ===================================================================== *)

Module knapsack_utils.
Import Py.

(** State of the reconstruction loop: the selected indices (in the order
    of [append]) and the remaining capacity [w]. *)
Record recon_state := { selected : list nat; rem_w : Z }.

(** Body of the inner loop, lines 91-99: one cell [dp[i][w]].  The table
    holds floats; [cand] is a float sum and [cand > best] a float
    comparison. *)
Definition fill_cell (i : nat) (v_i : pyfloat) (w_i : Z)
    (dp : list (list pyfloat)) (w : Z) : result (list (list pyfloat)) :=
  prev ←! getitem dp (Z.of_nat i - 1);
  best ←! getitem prev w;
  best' ←! (if (w_i <=? w)%Z then
              prevc ←! getitem prev (w - w_i);
              let cand := fadd prevc v_i in
              Ok (if fgt cand best then cand else best)
            else Ok best);
  row ←! getitem dp (Z.of_nat i);
  row' ←! setitem row w best';
  setitem dp (Z.of_nat i) row'.

(** Body of the outer loop, lines 88-99: row [i]; line 89 converts the
    value to a float. *)
Definition fill_row (values : list pynum) (w_ints : list Z) (capacity : Z)
    (dp : list (list pyfloat)) (i : nat) : result (list (list pyfloat)) :=
  x ←! getitem values (Z.of_nat i - 1);
  v_i ←! to_float x;
  w_i ←! getitem w_ints (Z.of_nat i - 1);
  for_each (fill_cell i v_i w_i) (range 0 (capacity + 1)) dp.

(** Lines 86-99: allocation of the table and the two nested loops. *)
Definition fill_table (values : list pynum) (w_ints : list Z) (capacity : Z)
  : result (list (list pyfloat)) :=
  let n := length values in
  let dp := replicate (n + 1) (replicate (Z.to_nat (capacity + 1)) (Fin 0)) in
  for_each (fill_row values w_ints capacity) (seq 1 n) dp.

(** Body of the reconstruction loop, lines 106-110. *)
Definition recon_step (w_ints : list Z) (dp : list (list pyfloat))
    (st : recon_state) (i : nat) : result recon_state :=
  row ←! getitem dp (Z.of_nat i);
  a ←! getitem row (rem_w st);
  prev ←! getitem dp (Z.of_nat i - 1);
  b ←! getitem prev (rem_w st);
  if fne a b then
    w_i ←! getitem w_ints (Z.of_nat i - 1);
    Ok {| selected := selected st ++ [(i - 1)%nat];
          rem_w := (rem_w st - w_i)%Z |}
  else Ok st.

(** Lines 74-83: float weights that are integers become ints. *)
Definition normalize_weight (w : pynum) : result Z :=
  match w with
  | PyFloat f =>
      if negb (is_integer f) then Raise (ValueError "weights must be integers.")
      else match f with
           | Fin q => Ok (int_of_Q q)
           | _ => Raise (ValueError "weights must be integers.")
           end
  | PyInt z => Ok z
  | PyFraction _ => Raise (ValueError "weights must be integers.")
  end.

Fixpoint normalize_weights (weights : list pynum) : result (list Z) :=
  match weights with
  | [] => Ok []
  | w :: ws =>
      z ←! normalize_weight w;
      zs ←! normalize_weights ws;
      Ok (z :: zs)
  end.

(** Lines 67-72. *)
Definition normalize_capacity (capacity : pynum) : result Z :=
  match capacity with
  | PyInt z => Ok z
  | PyFloat (Fin q) =>
      if is_integer (Fin q) then Ok (int_of_Q q)
      else Raise (ValueError "capacity must be an integer.")
  | _ => Raise (ValueError "capacity must be an integer.")
  end.

(** Lines 85-113: everything after validation. *)
Definition dp_and_reconstruct (values : list pynum) (w_ints : list Z)
    (capacity : Z) : result (pyfloat * list nat) :=
  let n := length values in
  dp ←! fill_table values w_ints capacity;
  last ←! getitem dp (Z.of_nat n);
  best_value ←! getitem last capacity;
  st ←! for_each (recon_step w_ints dp) (rev (seq 1 n))
          {| selected := []; rem_w := capacity |};
  Ok (best_value, rev (selected st)).

Definition solve_knapsack_01 (values : list pynum) (weights : list pynum)
    (capacity : pynum) : result (pyfloat * list nat) :=
  if negb (length values =? length weights)%nat then
    Raise (ValueError "values and weights must have the same length.")
  else if num_ltb0 capacity then
    Raise (ValueError "capacity must be >= 0.")
  else
    let n := length values in
    if (n =? 0)%nat || num_eqb0 capacity then Ok (Fin 0, [])
    else if existsb num_ltb0 weights then
      Raise (ValueError "weights must be non-negative.")
    else
      capacity' ←! normalize_capacity capacity;
      w_ints ←! normalize_weights weights;
      dp_and_reconstruct values w_ints capacity'.

End knapsack_utils.

(* ===================================================================== *)
(** * milp_utils.py                                                       *)
(* ===================================================================== *)

Module milp_utils.
Import Py.

(** The numbers of a problem are Python numbers: [int]s, floats (the
    infinities and NaN among them) or fractions. *)
Definition matrix : Type := list (list pynum).

(** A key of the raw mapping whose explicit [None] the code does not
    treat like a missing key. *)
Inductive entry (A : Type) : Type :=
| Absent
| IsNone
| Given (a : A).
Arguments Absent {A}.
Arguments IsNone {A}.
Arguments Given {A} a.

(** The raw problem mapping.  An [option] field is [None] when the key is
    absent or maps to [None]; ["c"] is required. *)
Record raw_problem := {
  raw_sense : option string;
  raw_c : list pynum;
  raw_integrality : entry (list (option string));
  raw_bounds : option (list (option pynum * option pynum));
  raw_var_names : option (list string);
  raw_A_eq : option matrix;
  raw_b_eq : option (list pynum);
  raw_A_ub : option matrix;
  raw_b_ub : option (list pynum);
  raw_obj_offset : entry pynum;
}.

(** The dict returned by [_normalize]. *)
Record CanonicalProblem := {
  sense : string;
  c : list pynum;
  n : nat;
  integrality : list (option string);
  bounds : list (option pynum * option pynum);
  var_names : list string;
  A_eq : option matrix;
  b_eq : option (list pynum);
  A_ub : option matrix;
  b_ub : option (list pynum);
  obj_offset : pyfloat;
}.

(** ** The two backends (OR-Tools), as far as the code observes them *)

(** [cp_model.OPTIMAL], [cp_model.INFEASIBLE] *)
Definition cp_OPTIMAL : Z := 4.
Definition cp_INFEASIBLE : Z := 3.
(** [pywraplp.Solver.OPTIMAL], [.INFEASIBLE], [.UNBOUNDED] *)
Definition lp_OPTIMAL : Z := 0.
Definition lp_INFEASIBLE : Z := 2.
Definition lp_UNBOUNDED : Z := 3.

Inductive relation := EQ | LE.

(** CP-SAT works on 64-bit integers. *)
Definition in_int64 (z : Z) : bool :=
  ((- 2 ^ 63 <=? z) && (z <? 2 ^ 63))%Z.

Definition int64 : Type := { z : Z | in_int64 z = true }.

(** A variable handle is its position in [xs]. *)
Inductive cp_var :=
| NewBoolVar (name : string)
| NewIntVar (lo hi : Z) (name : string).

Record cp_constraint := {
  cp_terms : list (Z * nat);
  cp_rel : relation;
  cp_rhs : Z;
}.

Record CpModel := {
  cp_vars : list cp_var;
  cp_constraints : list cp_constraint;
  cp_minimize : bool;
  cp_objective : list (Z * nat);
}.

Record CpParameters := {
  max_time_in_seconds : option pyfloat;
  num_search_workers : Z;
}.

(** What a [CpSolver] answers after [Solve]. *)
Record CpSolver := {
  cp_status_code : Z;
  cp_Value : nat → int64;
  cp_ObjectiveValue : pyfloat;
  cp_BestObjectiveBound : option pyfloat;
  cp_StatusName : string;
  cp_WallTime : pyfloat;
  cp_NumConflicts : Z;
  cp_NumBranches : Z;
}.

Inductive lp_var :=
| IntVar (lb ub : pyfloat) (name : string)
| NumVar (lb ub : pyfloat) (name : string).

Record lp_constraint := {
  lp_terms : list (pyfloat * nat);
  lp_rel : relation;
  lp_rhs : pyfloat;
}.

Record LpModel := {
  lp_time_limit_ms : option Z;
  lp_vars : list lp_var;
  lp_constraints : list lp_constraint;
  lp_minimize : bool;
  lp_objective : list (pyfloat * nat);
}.

(** What the CBC solver answers after [Solve]. *)
Record LpSolver := {
  lp_result_status : Z;
  lp_objective_value : pyfloat;
  lp_solution_value : nat → pyfloat;
  lp_wall_time : Z;
}.

(** The environment of a call: [CreateSolver("CBC")] gives a solver or
    [None]; CP-SAT is always there. *)
Record backends := {
  cbc : option (LpModel → LpSolver);
  cp_sat : CpModel → CpParameters → CpSolver;
}.

Inductive event :=
| CreateSolver_CBC
| New_CpModel
| New_CpSolver.

(** ** Results *)

Inductive extras_dict :=
| CpExtras (status_code : Z) (status_str : string) (best_bound : option pyfloat)
           (wall_time : pyfloat) (conflicts branches : Z)
| LpExtras (result_status : Z) (wall_time_ms : Z)
| ErrorExtras (error : string).

Record milp_result := {
  status : string;
  objective : option pyfloat;
  assignment : gmap string pyfloat;
  extras : extras_dict;
}.

(** ** _normalize *)

Definition normalize_token (t : option string) : result (option string) :=
  match t with
  | None => Ok None
  | Some s =>
      if (String.eqb s "B" || String.eqb s "I")%bool then Ok (Some s)
      else if String.eqb s "C" then Ok None
      else Raise (ValueError ("Unknown integrality token: '" ++ s ++ "'"))
  end.

Definition default_names (n : nat) : list string :=
  map (fun i => ("x" ++ str_of_nat i)%string) (seq 0 n).

Definition is_None {A : Type} (o : option A) : bool :=
  match o with None => true | Some _ => false end.

Definition _normalize (problem : raw_problem) : result CanonicalProblem :=
  let sense :=
    lower (match raw_sense problem with
           | None | Some EmptyString => "min"
           | Some s => s
           end) in
  if negb (String.eqb sense "min" || String.eqb sense "max") then
    Raise (ValueError "problem['sense'] must be 'min' or 'max'.")
  else
    let c := raw_c problem in
    let n := length c in
    (* line 105: [len(None)] is a [TypeError] *)
    integ_in ←! match raw_integrality problem with
                | Absent => Ok (replicate n None)
                | IsNone => Raise TypeError
                | Given l => Ok l
                end;
    if negb (length integ_in =? n)%nat then
      Raise (ValueError "len(integrality) must match len(c).")
    else
      integrality ←! traverse normalize_token integ_in;
      bounds ←! match raw_bounds problem with
                | None => Ok (replicate n (Some (PyInt 0), None))
                | Some bounds_in =>
                    if negb (length bounds_in =? n)%nat then
                      Raise (ValueError "len(bounds) must match len(c).")
                    else Ok bounds_in
                end;
      let names := match raw_var_names problem with
                   | None | Some [] => default_names n
                   | Some names => names
                   end in
      if negb (length names =? n)%nat then
        Raise (ValueError "len(var_names) must match len(c).")
      else if xorb (is_None (raw_A_eq problem)) (is_None (raw_b_eq problem)) then
        Raise (ValueError "A_eq and b_eq must be both present or both absent.")
      else if xorb (is_None (raw_A_ub problem)) (is_None (raw_b_ub problem)) then
        Raise (ValueError "A_ub and b_ub must be both present or both absent.")
      else
        (* line 142: [float(None)] is a [TypeError] *)
        offset ←! match raw_obj_offset problem with
                  | Absent => Ok (Fin 0)
                  | IsNone => Raise TypeError
                  | Given z => to_float z
                  end;
        Ok {| sense := sense; c := c; n := n;
              integrality := integrality;
              bounds := bounds;
              var_names := names;
              A_eq := raw_A_eq problem; b_eq := raw_b_eq problem;
              A_ub := raw_A_ub problem; b_ub := raw_b_ub problem;
              obj_offset := offset |}.

(** ** Routing *)

(** [1e-9]: the double nearest to it. *)
Definition tol : Q := 4835703278458517 # 4835703278458516698824704.

(** Lines 246-248.  [float(x)] and [round] may raise; the difference of a
    double and the integer nearest to it is a double, so the subtraction
    does not round. *)
Definition _is_int_like (x : pynum) : result bool :=
  xf ←! to_float x;
  r ←! round_float xf;
  Ok (match xf with
      | Fin q => Qle_bool (Qabs (q - inject_Z r)) tol
      | _ => false
      end).

(** [all(_is_int_like(v) for v in l)]: the first value that fails ends
    the scan. *)
Fixpoint all_int_like (l : list pynum) : result bool :=
  match l with
  | [] => Ok true
  | x :: l' => b ←! _is_int_like x; if b then all_int_like l' else Ok false
  end.

(** [all(all(_is_int_like(a) for a in row) for row in A)] *)
Fixpoint all_rows_int_like (rows : matrix) : result bool :=
  match rows with
  | [] => Ok true
  | row :: rows' =>
      b ←! all_int_like row; if b then all_rows_int_like rows' else Ok false
  end.

(** Lines 255-257: the loop over the bounds; [None] is not checked. *)
Fixpoint bounds_int_like (bs : list (option pynum * option pynum))
  : result bool :=
  match bs with
  | [] => Ok true
  | (lb, ub) :: bs' =>
      okl ←! match lb with Some l => _is_int_like l | None => Ok true end;
      if negb okl then Ok false
      else
        oku ←! match ub with Some u => _is_int_like u | None => Ok true end;
        if negb oku then Ok false else bounds_int_like bs'
  end.

(** The check of one (matrix, rhs) pair; iterating over a missing rhs
    raises. *)
Definition pair_int_like (A : option matrix) (b : option (list pynum))
  : result bool :=
  match A with
  | None => Ok true
  | Some rows =>
      okA ←! all_rows_int_like rows;
      if negb okA then Ok false
      else match b with
           | None => Raise TypeError
           | Some rhs => all_int_like rhs
           end
  end.

Definition _all_data_integer (P : CanonicalProblem) : result bool :=
  okc ←! all_int_like (c P);
  if negb okc then Ok false
  else
    okb ←! bounds_int_like (bounds P);
    if negb okb then Ok false
    else
      eq_ok ←! pair_int_like (A_eq P) (b_eq P);
      if negb eq_ok then Ok false
      else
        ub_ok ←! pair_int_like (A_ub P) (b_ub P);
        if negb ub_ok then Ok false else Ok true.

Definition is_B_or_I (t : option string) : bool :=
  match t with
  | Some s => (String.eqb s "B" || String.eqb s "I")%bool
  | None => false
  end.

Definition _needs_cbc (P : CanonicalProblem) : result bool :=
  let has_continuous := existsb (fun t => negb (is_B_or_I t)) (integrality P) in
  if has_continuous then Ok true
  else
    all_int ←! _all_data_integer P;
    if negb all_int then Ok true else Ok false.

(** ** The integer-only route (CP-SAT) *)

(** Lines 146-150; the message leaves out the printed value. *)
Definition _as_int (x : pynum) (name : string) : result Z :=
  xf ←! to_float x;
  r ←! round_float xf;
  if match xf with
     | Fin q => negb (Qle_bool (Qabs (q - inject_Z r)) tol)
     | _ => false
     end then
    Raise (ValueError (name ++ " must be integer-like for CP-SAT"))
  else Ok r.

Definition idx_name (prefix : string) (i : nat) : string :=
  (prefix ++ "[" ++ str_of_nat i ++ "]")%string.

Definition idx2_name (prefix : string) (r j : nat) : string :=
  (prefix ++ "[" ++ str_of_nat r ++ "," ++ str_of_nat j ++ "]")%string.

(** Lines 158-171: one variable.  [NewIntVar] takes 64-bit bounds and
    raises [TypeError] on others. *)
Definition build_var (P : CanonicalProblem) (xs : list cp_var) (i : nat)
  : result (list cp_var) :=
  kind ←! getitem (integrality P) (Z.of_nat i);
  name ←! getitem (var_names P) (Z.of_nat i);
  b ←! getitem (bounds P) (Z.of_nat i);
  let '(lb, ub) := b in
  if match kind with Some k => String.eqb k "B" | None => false end then
    Ok (xs ++ [NewBoolVar name])
  else
    lo ←! _as_int (match lb with None => PyInt 0 | Some l => l end)
            (idx_name "lb" i);
    hi ←! match ub with
          | None => Ok (10 ^ 9)%Z
          | Some u => _as_int u (idx_name "ub" i)
          end;
    if (hi <? lo)%Z then Raise (ValueError ("Invalid bounds for " ++ name))
    else if negb (in_int64 lo && in_int64 hi) then Raise TypeError
    else Ok (xs ++ [NewIntVar lo hi name]).

(** [sum(coeffs[j] * xs[j] for j in range(n))] *)
Definition linear_sum {C : Type} (coeffs : list C) (xs : list cp_var) (n : nat)
  : result (list (C * nat)) :=
  for_each (fun acc j =>
              cj ←! getitem coeffs (Z.of_nat j);
              _ ←! getitem xs (Z.of_nat j);
              Ok (acc ++ [(cj, j)]))
           (seq 0 n) [].

(** Lines 177-181 and 187-191: one row of a constraint block. *)
Definition build_row (P : CanonicalProblem) (xs : list cp_var)
    (what_A what_b : string) (rel : relation)
    (cons : list cp_constraint) (entry : nat * (list pynum * pynum))
  : result (list cp_constraint) :=
  let '(r, (row, rhs)) := entry in
  if negb (length row =? n P)%nat then
    Raise (ValueError (what_A ++ " row length must match n."))
  else
    coeffs ←! traverse (fun ja => _as_int (snd ja) (idx2_name what_A r (fst ja)))
                (enumerate row);
    terms ←! linear_sum coeffs xs (n P);
    rhs' ←! _as_int rhs (idx_name what_b r);
    Ok (cons ++ [{| cp_terms := terms; cp_rel := rel; cp_rhs := rhs' |}]).

(** Lines 174-181 and 184-191: one constraint block. *)
Definition build_block (P : CanonicalProblem) (xs : list cp_var)
    (A : option matrix) (b : option (list pynum))
    (what_A what_b : string) (rel : relation) (cons : list cp_constraint)
  : result (list cp_constraint) :=
  match A with
  | None => Ok cons
  | Some rows =>
      match b with
      | None => Raise TypeError
      | Some rhs =>
          if negb (length rows =? length rhs)%nat then
            Raise (ValueError ("len(" ++ what_A ++ ") must match len(" ++ what_b ++ ")."))
          else
            for_each (build_row P xs what_A what_b rel)
              (enumerate (zip rows rhs)) cons
      end
  end.

Definition _build_model (P : CanonicalProblem)
  : result (CpModel * list cp_var) :=
  xs ←! for_each (build_var P) (seq 0 (n P)) [];
  cons ←! build_block P xs (A_eq P) (b_eq P) "A_eq" "b_eq" EQ [];
  cons ←! build_block P xs (A_ub P) (b_ub P) "A_ub" "b_ub" LE cons;
  coefs ←! traverse (fun ic => _as_int (snd ic) (idx_name "c" (fst ic)))
             (enumerate (c P));
  lin ←! linear_sum coefs xs (n P);
  Ok ({| cp_vars := xs; cp_constraints := cons;
         cp_minimize := String.eqb (sense P) "min";
         cp_objective := lin |}, xs).

(** [bool(x)] and [x > 0] for a number. *)
Definition truthy (x : pynum) : bool := negb (num_eqb0 x).

Definition num_gtb0 (x : pynum) : bool :=
  match x with
  | PyInt z => (0 <? z)%Z
  | PyFloat f => fgt f (Fin 0)
  | PyFraction q => negb (Qle_bool q 0)
  end.

(** Lines 203-208: the solver is created, then the time limit is
    converted. *)
Definition _solve_model (solve : CpModel → CpParameters → CpSolver)
    (model : CpModel) (time_limit : option pynum) : result (CpSolver * Z) :=
  limit ←! match time_limit with
           | Some t => if truthy t && num_gtb0 t
                       then (f ←! to_float t; Ok (Some f))
                       else Ok None
           | None => Ok None
           end;
  let params := {| max_time_in_seconds := limit; num_search_workers := 8 |} in
  let solver := solve model params in
  Ok (solver, cp_status_code solver).

(** Lines 214-219. *)
Definition cp_status (status_code : Z) : string :=
  if (status_code =? cp_OPTIMAL)%Z then "Optimal"
  else if (status_code =? cp_INFEASIBLE)%Z then "Infeasible"
  else "NotSolved".

(** [float(solver.Value(v))]: a 64-bit integer always converts. *)
Definition float_of_int64 (v : int64) : pyfloat :=
  round_double (inject_Z (proj1_sig v)).

Definition _pack_result (solver : CpSolver) (status_code : Z)
    (xs : list cp_var) (P : CanonicalProblem) : result milp_result :=
  let status := cp_status status_code in
  xo ←! (if String.eqb status "Optimal" then
           x_dict ←! for_each (fun (x_dict : gmap string pyfloat) iv =>
                                 name ←! getitem (var_names P) (Z.of_nat (fst iv));
                                 Ok (<[name := float_of_int64 (cp_Value solver (fst iv))]>
                                       x_dict))
                       (enumerate xs) ∅;
           Ok (x_dict, Some (fadd (cp_ObjectiveValue solver) (obj_offset P)))
         else Ok (∅, None));
  Ok {| status := status;
        objective := snd xo;
        assignment := fst xo;
        extras := CpExtras status_code (cp_StatusName solver)
                    (cp_BestObjectiveBound solver) (cp_WallTime solver)
                    (cp_NumConflicts solver) (cp_NumBranches solver) |}.

(** ** The continuous-capable route (CBC) *)

Definition lp_status (res : Z) : string :=
  if (res =? lp_OPTIMAL)%Z then "Optimal"
  else if (res =? lp_INFEASIBLE)%Z then "Infeasible"
  else if (res =? lp_UNBOUNDED)%Z then "Unbounded"
  else "NotSolved".

(** Lines 42-53: one variable; the bounds are converted to floats. *)
Definition lp_build_var (P : CanonicalProblem) (xs : list lp_var)
    (entry : nat * (option pynum * option pynum)) : result (list lp_var) :=
  let '(i, (lb, ub)) := entry in
  lb ←! match lb with None => Ok (Fin 0) | Some l => to_float l end;
  ubv ←! match ub with None => Ok PosInf | Some u => to_float u end;
  integ ←! getitem (integrality P) (Z.of_nat i);
  name ←! getitem (var_names P) (Z.of_nat i);
  if is_B_or_I integ then
    let ubv := if match integ with Some k => String.eqb k "B" | None => false end
               then fmin ubv (Fin 1)
               else ubv in
    Ok (xs ++ [IntVar lb ubv name])
  else Ok (xs ++ [NumVar lb ubv name]).

(** [sum(float(a) * x for a, x in zip(row, xs))]: the coefficients that
    meet a variable are converted, in order. *)
Definition lp_linear_sum (coeffs : list pynum) (xs : list lp_var)
  : result (list (pyfloat * nat)) :=
  fs ←! traverse to_float (take (length xs) coeffs);
  Ok (zip fs (seq 0 (length xs))).

Definition lp_row (xs : list lp_var) (rel : relation)
    (rr : list pynum * pynum) : result lp_constraint :=
  terms ←! lp_linear_sum (fst rr) xs;
  rhs ←! to_float (snd rr);
  Ok {| lp_terms := terms; lp_rel := rel; lp_rhs := rhs |}.

Definition lp_block (xs : list lp_var) (A : option matrix)
    (b : option (list pynum)) (rel : relation) : result (list lp_constraint) :=
  match A, b with
  | Some rows, Some rhs => traverse (lp_row xs rel) (zip rows rhs)
  | _, _ => Ok []
  end.

(** Lines 31-32: [int(time_limit * 1000)] when the limit is truthy;
    [SetTimeLimit] takes a 64-bit integer. *)
Definition time_limit_ms (time_limit : option pynum) : result (option Z) :=
  match time_limit with
  | None => Ok None
  | Some t =>
      if negb (truthy t) then Ok None
      else
        ms ←! match t with
              | PyInt z => Ok (z * 1000)%Z
              | PyFloat f => int_of_float (fmul f (Fin 1000))
              | PyFraction q => Ok (int_of_Q (q * 1000))
              end;
        if negb (in_int64 ms) then Raise OverflowError else Ok (Some ms)
  end.

Definition _solve_mip_cbc_mixed (create : option (LpModel → LpSolver))
    (P : CanonicalProblem) (time_limit : option pynum) : result milp_result :=
  match create with
  | None =>
      Ok {| status := "NotSolved"; objective := None; assignment := ∅;
            extras := ErrorExtras "CBC solver not available" |}
  | Some solve =>
      limit ←! time_limit_ms time_limit;
      let sense := lower (sense P) in
      xs ←! for_each (lp_build_var P) (enumerate (bounds P)) [];
      eqs ←! lp_block xs (A_eq P) (b_eq P) EQ;
      ubs ←! lp_block xs (A_ub P) (b_ub P) LE;
      obj ←! lp_linear_sum (c P) xs;
      let solver := solve {| lp_time_limit_ms := limit; lp_vars := xs;
                             lp_constraints := eqs ++ ubs;
                             lp_minimize := String.eqb sense "min";
                             lp_objective := obj |} in
      let res := lp_result_status solver in
      let status := lp_status res in
      ox ←! (if String.eqb status "Optimal" then
               xdict ←! for_each (fun (xdict : gmap string pyfloat) (inm : nat * string) =>
                                    _ ←! getitem xs (Z.of_nat (fst inm));
                                    Ok (<[snd inm := lp_solution_value solver (fst inm)]> xdict))
                          (enumerate (var_names P)) ∅;
               Ok (Some (lp_objective_value solver), xdict)
             else Ok (None, ∅));
      Ok {| status := status; objective := fst ox; assignment := snd ox;
            extras := LpExtras res (lp_wall_time solver) |}
  end.

(** ** solve_milp *)

(** The result, with the backend objects constructed on the way. *)
Definition solve_milp (env : backends) (problem : raw_problem)
    (time_limit : option pynum) : list event * result milp_result :=
  match _normalize problem with
  | Raise e => ([], Raise e)
  | Ok P =>
      match _needs_cbc P with
      | Raise e => ([], Raise e)
      | Ok true =>
          ([CreateSolver_CBC], _solve_mip_cbc_mixed (cbc env) P time_limit)
      | Ok false =>
          match _build_model P with
          | Raise e => ([New_CpModel], Raise e)
          | Ok (model, xs) =>
              match _solve_model (cp_sat env) model time_limit with
              | Raise e => ([New_CpModel; New_CpSolver], Raise e)
              | Ok (solver, status_code) =>
                  ([New_CpModel; New_CpSolver],
                   _pack_result solver status_code xs P)
              end
          end
      end
  end.

End milp_utils.

(* ===================================================================== *)
(** * data_adapters/lpnetlib_adapter.py                                   *)
(* ===================================================================== *)

Module lpnetlib_adapter.
Import Py.

(** What [loadmat] can hand over: a scalar, a 1-d array, a matrix (sparse
    or dense, with its number of columns), a string, a struct, or another
    Python object. *)
#[warnings="-register-all"]
Inductive matval : Type :=
| MNum (x : pyfloat)
| MVec (xs : list pyfloat)
| MMatrix (is_sparse : bool) (ncols : nat) (rows : list (list pyfloat))
| MStr (s : string)
| MStruct (fields : list (string * matval))
| MOther.

(** The canonical problem dict; an optional key is [None] when absent. *)
Record problem_dict := {
  sense : string;
  c : list pyfloat;
  bounds : list (option pyfloat * option pyfloat);
  var_names : list string;
  metadata : string * string;
  A_eq : option (list (list pyfloat));
  b_eq : option (list pyfloat);
  A_ub : option (list (list pyfloat));
  b_ub : option (list pyfloat);
  obj_offset : option pyfloat;
}.

Fixpoint assoc (d : list (string * matval)) (key : string) : option matval :=
  match d with
  | [] => None
  | (k, v) :: d' => if String.eqb k key then Some v else assoc d' key
  end.

(** [getattr(v, n)] when [hasattr(v, n)]: a field of a struct; a string
    has the methods [lower] and [upper]; nothing else answers to the
    names the adapter asks for. *)
Definition attribute (v : matval) (name : string) : option matval :=
  match v with
  | MStruct fields => assoc fields name
  | MStr _ => if (String.eqb name "lower" || String.eqb name "upper")%bool
              then Some MOther else None
  | _ => None
  end.

(** The container is the top-level dict of [loadmat] or a value in it. *)
Inductive container_t : Type :=
| Dict (d : list (string * matval))
| Obj (v : matval).

Fixpoint first_some {A B : Type} (f : A → option B) (l : list A) : option B :=
  match l with
  | [] => None
  | x :: l' => match f x with
               | Some y => Some y
               | None => first_some f l'
               end
  end.

Definition _fetch_field (container : container_t) (names : list string)
  : option matval :=
  match container with
  | Obj v => first_some (attribute v) names
  | Dict d => first_some (assoc d) names
  end.

Definition _fetch_primary_then_aux (primary : container_t)
    (aux : option matval) (names : list string) : option matval :=
  match _fetch_field primary names with
  | Some v => Some v
  | None => match aux with
            | Some a => _fetch_field (Obj a) names
            | None => None
            end
  end.

Section WithFloat.

(** [float(s)] on a string: Python's parser, taken as given. *)
Variable float_of_str : string → option pyfloat.

(** [np.atleast_1d(np.asarray(arr, dtype=float)).ravel()] *)
Definition _ensure_1d_float (arr : matval) : result (list pyfloat) :=
  match arr with
  | MNum x => Ok [x]
  | MVec xs => Ok xs
  | MMatrix false _ rows => Ok (concat rows)
  | MStr s => match float_of_str s with
              | Some x => Ok [x]
              | None => Raise (ValueError "could not convert string to float")
              end
  | MMatrix true _ _ | MStruct _ | MOther => Raise TypeError
  end.

(** [_to_csr(A)] followed by [A.shape]: the rows and the number of columns. *)
Definition _to_csr (A : matval) : result (list (list pyfloat) * nat) :=
  match A with
  | MMatrix _ ncols rows => Ok (rows, ncols)
  | MVec xs => Ok ([xs], length xs)
  | MNum x => Ok ([[x]], 1%nat)
  | MStr _ | MStruct _ | MOther => Raise TypeError
  end.

Definition is_spmatrix (v : matval) : bool :=
  match v with MMatrix true _ _ => true | _ => false end.

(** [np.where(mask)[0]] *)
Definition np_where (mask : list bool) : list nat :=
  map fst (filter (fun ib => snd ib = true) (enumerate mask)).

(** [A[idx, :]] and [v[idx]] *)
Definition take_idx {A : Type} (l : list A) (idx : list nat) : result (list A) :=
  traverse (fun i => getitem l (Z.of_nat i)) idx.

(** The row constraints of a problem: [A_eq], [b_eq] and the blocks of
    [A_ub], [b_ub]. *)
Record row_constraints := {
  rc_A_eq : option (list (list pyfloat));
  rc_b_eq : option (list pyfloat);
  rc_A_ub_blocks : list (list (list pyfloat));
  rc_b_ub_blocks : list (list pyfloat);
}.

(** Line 176. *)
Definition is_eq_mask (rl_vec ru_vec : list pyfloat) (eq_tol : Q) : list bool :=
  zip_with (fun l u => isfinite l && isfinite u
                       && fle (fabs (fsub l u)) (Fin eq_tol))
           rl_vec ru_vec.

(** Lines 175-192: the three index sets and what they select. *)
Definition partition_rows (A : list (list pyfloat)) (rl_vec ru_vec : list pyfloat)
    (eq_tol : Q) : result row_constraints :=
  let is_eq := is_eq_mask rl_vec ru_vec eq_tol in
  let eq_idx := np_where is_eq in
  eqs ←! (if negb (length eq_idx =? 0)%nat then
            A_eq ←! take_idx A eq_idx;
            b_eq ←! take_idx ru_vec eq_idx;
            Ok (Some A_eq, Some b_eq)
          else Ok (None, None));
  let le_idx := np_where (zip_with (fun u e => isfinite u && negb e) ru_vec is_eq) in
  les ←! (if negb (length le_idx =? 0)%nat then
            A_le ←! take_idx A le_idx;
            b_le ←! take_idx ru_vec le_idx;
            Ok ([A_le], [b_le])
          else Ok ([], []));
  let ge_idx := np_where (zip_with (fun l e => isfinite l && negb e) rl_vec is_eq) in
  ges ←! (if negb (length ge_idx =? 0)%nat then
            A_ge ←! take_idx A ge_idx;
            b_ge ←! take_idx rl_vec ge_idx;
            Ok ([map (map fneg) A_ge], [map fneg b_ge])
          else Ok ([], []));
  Ok {| rc_A_eq := fst eqs; rc_b_eq := snd eqs;
        rc_A_ub_blocks := fst les ++ fst ges;
        rc_b_ub_blocks := snd les ++ snd ges |}.

(** Lines 163-200. *)
Definition build_rows (A : list (list pyfloat)) (rl ru b : option matval)
    (eq_tol : Q) : result row_constraints :=
  let m := length A in
  match rl, ru with
  | None, None =>
      match b with
      | Some b =>
          b ←! _ensure_1d_float b;
          if negb (length b =? m)%nat then
            Raise (ValueError "Inconsistent sizes: len(b) != m (rows of A).")
          else Ok {| rc_A_eq := Some A; rc_b_eq := Some b;
                     rc_A_ub_blocks := []; rc_b_ub_blocks := [] |}
      | None => Ok {| rc_A_eq := None; rc_b_eq := None;
                      rc_A_ub_blocks := []; rc_b_ub_blocks := [] |}
      end
  | _, _ =>
      rl_vec ←! match rl with
                | Some v => _ensure_1d_float v
                | None => Ok (replicate m NegInf)
                end;
      ru_vec ←! match ru with
                | Some v => _ensure_1d_float v
                | None => Ok (replicate m PosInf)
                end;
      if negb (length rl_vec =? m)%nat || negb (length ru_vec =? m)%nat then
        Raise (ValueError "Inconsistent row bounds: len(rl/ru) != m (rows of A).")
      else partition_rows A rl_vec ru_vec eq_tol
  end.

(** Line 225: [float(np.asarray(z0).ravel()[0])] *)
Definition z0_to_float (z0 : matval) : result pyfloat :=
  match z0 with
  | MNum x => Ok x
  | MVec xs => getitem xs 0
  | MMatrix false _ rows => getitem (concat rows) 0
  | MStr s => match float_of_str s with
              | Some x => Ok x
              | None => Raise (ValueError "could not convert string to float")
              end
  | MMatrix true _ _ | MStruct _ | MOther => Raise TypeError
  end.

(** Lines 223-228: the assignment under [try], every exception passed over. *)
Definition store_obj_offset (problem : problem_dict) (z0 : option matval)
  : problem_dict :=
  match z0 with
  | None => problem
  | Some v =>
      match z0_to_float v with
      | Ok x => {| sense := sense problem; c := c problem;
                   bounds := bounds problem; var_names := var_names problem;
                   metadata := metadata problem;
                   A_eq := A_eq problem; b_eq := b_eq problem;
                   A_ub := A_ub problem; b_ub := b_ub problem;
                   obj_offset := Some x |}
      | Raise _ => problem
      end
  end.

Definition finite_or_None (x : pyfloat) : option pyfloat :=
  if negb (isfinite x) then None else Some x.

(** Lines 104-125: the container, [aux] and the fields by their aliases. *)
Definition container_of (mat : list (string * matval)) : container_t :=
  match first_some (assoc mat) ["Problem"; "problem"; "PROBLEM"]%string with
  | Some prob => Obj prob
  | None => Dict mat
  end.

Definition aux_of (mat : list (string * matval)) : option matval :=
  _fetch_field (container_of mat) ["aux"; "Aux"; "AUX"]%string.

Definition fetch (mat : list (string * matval)) (names : list string)
  : option matval :=
  _fetch_primary_then_aux (container_of mat) (aux_of mat) names.

Definition z0_names : list string := ["z0"; "objconst"; "offset"]%string.

(** Lines 102-222: the problem before the objective offset.  [mat] is what
    [loadmat(path)] returned. *)
Definition build_problem (path : string) (mat : list (string * matval))
    (eq_tol : Q) : result problem_dict :=
  let A := fetch mat ["A"; "a"; "M"; "mat"]%string in
  let c := fetch mat ["c"; "f"; "cost"; "obj"; "objective"]%string in
  let b := fetch mat ["b"; "rhs"; "beq"]%string in
  let rl := fetch mat ["rl"; "r_l"; "rowl"; "bl"; "lower_row"; "row_lower"]%string in
  let ru := fetch mat ["ru"; "r_u"; "rowu"; "bu"; "upper_row"; "row_upper"]%string in
  let lo := fetch mat ["lo"; "l"; "lb"; "lower"; "xl"; "xlow"]%string in
  let hi := fetch mat ["hi"; "u"; "ub"; "upper"; "xu"; "xupp"]%string in
  let A := match A with
           | Some A => Some A
           | None => first_some (fun kv => if is_spmatrix (snd kv)
                                           then Some (snd kv) else None) mat
           end in
  match A, c with
  | Some A, Some c =>
      An ←! _to_csr A;
      let '(A, n) := An in
      c ←! _ensure_1d_float c;
      if negb (length c =? n)%nat then
        Raise (ValueError "Inconsistent sizes: len(c) != n (columns of A).")
      else
        lo ←! match lo with
              | None => Ok (replicate n (Fin 0))
              | Some lo => _ensure_1d_float lo
              end;
        hi ←! match hi with
              | None => Ok (replicate n PosInf)
              | Some hi => _ensure_1d_float hi
              end;
        if negb (length lo =? n)%nat || negb (length hi =? n)%nat then
          Raise (ValueError "Inconsistent variable bounds: len(lo/hi) != n.")
        else
          let bounds := zip_with (fun L U => (finite_or_None L, finite_or_None U))
                          lo hi in
          rc ←! build_rows A rl ru b eq_tol;
          let A_ub := match rc_A_ub_blocks rc with
                      | [] => None
                      | blocks => Some (concat blocks)
                      end in
          let b_ub := match rc_A_ub_blocks rc with
                      | [] => None
                      | _ => Some (concat (rc_b_ub_blocks rc))
                      end in
          let var_names := map (fun i => ("x" ++ str_of_nat i)%string) (seq 0 n) in
          Ok {| sense := "min"; c := c; bounds := bounds;
                var_names := var_names;
                metadata := ("LPnetlib"%string, path);
                A_eq := rc_A_eq rc;
                b_eq := match rc_A_eq rc with
                        | Some _ => rc_b_eq rc
                        | None => None
                        end;
                A_ub := A_ub; b_ub := b_ub;
                obj_offset := None |}
  | _, _ =>
      Raise (ValueError "Invalid .mat: missing A or c (unrecognized structure).")
  end.

Definition load_lpnetlib_mat (path : string) (mat : list (string * matval))
    (eq_tol : Q) : result problem_dict :=
  problem ←! build_problem path mat eq_tol;
  Ok (store_obj_offset problem (fetch mat z0_names)).

End WithFloat.

End lpnetlib_adapter.

(* ===================================================================== *)
(** * data_adapters/miplib_solu.py                                        *)
(* ===================================================================== *)

Module miplib_solu.
Import Py.

Definition _STATUS_KEYS : list string :=
  ["optimal"; "infeasible"; "unbounded"; "best"; "feasible"; "limit"; "unknown"]%string.

Definition _V31_MAP : list (string * string) :=
  [("opt", "optimal"); ("best", "best"); ("inf", "infeasible");
   ("unbd", "unbounded"); ("unkn", "unknown")]%string.

(** ** Strings: characters are code points below 256 *)

Definition code_in (lo hi : nat) (a : ascii) : bool :=
  ((lo <=? nat_of_ascii a) && (nat_of_ascii a <=? hi))%nat.

(** Whitespace for [strip], [split] and the pattern's [\s]. *)
Definition is_space (a : ascii) : bool :=
  code_in 9 13 a || code_in 28 32 a || code_in 133 133 a || code_in 160 160 a.

(** [[a-zA-Z]] and [\d] *)
Definition is_letter (a : ascii) : bool := code_in 65 90 a || code_in 97 122 a.
Definition is_digit (a : ascii) : bool := code_in 48 57 a.
Definition is_sign (a : ascii) : bool := Ascii.eqb a "+" || Ascii.eqb a "-".

Fixpoint lstrip (l : list ascii) : list ascii :=
  match l with
  | a :: l' => if is_space a then lstrip l' else l
  | [] => []
  end.

(** [s.strip()] *)
Definition strip (l : list ascii) : list ascii :=
  rev (lstrip (rev (lstrip l))).

Definition token (cur : list ascii) : string := string_of_list_ascii (rev cur).

(** [s.split()]: [cur] is the token being read, last character first. *)
Fixpoint split_go (cur : list ascii) (l : list ascii) : list string :=
  match l with
  | [] => match cur with
          | [] => []
          | _ => [token cur]
          end
  | a :: l' =>
      if is_space a then
        match cur with
        | [] => split_go [] l'
        | _ => token cur :: split_go [] l'
        end
      else split_go (a :: cur) l'
  end.

Definition split (l : list ascii) : list string := split_go [] l.

(** The longest prefix of characters satisfying [p], and the rest: a
    greedy [p+] or [p*] that nothing later makes give characters back. *)
Fixpoint span (p : ascii → bool) (l : list ascii) : list ascii * list ascii :=
  match l with
  | a :: l' => if p a then let '(pre, rest) := span p l' in (a :: pre, rest)
               else ([], l)
  | [] => ([], [])
  end.

Definition nonempty {A : Type} (l : list A) : bool :=
  match l with [] => false | _ => true end.

(** ** The tagged grammar, line 22 *)

(** [[+-]?\d+(?:\.\d+)?(?:[eE][+-]?\d+)?] at the start of [l]: the text
    matched. *)
Definition match_number (l : list ascii) : option (list ascii) :=
  let '(sign, l1) := match l with
                     | a :: l' => if is_sign a then ([a], l') else ([], l)
                     | [] => ([], [])
                     end in
  let '(digits, l2) := span is_digit l1 in
  if negb (nonempty digits) then None
  else
    let '(frac, l3) :=
      match l2 with
      | a :: l' =>
          if Ascii.eqb a "." then
            let '(fd, rest) := span is_digit l' in
            if nonempty fd then (a :: fd, rest) else ([], l2)
          else ([], l2)
      | [] => ([], l2)
      end in
    let expo :=
      match l3 with
      | e :: l' =>
          if Ascii.eqb e "e" || Ascii.eqb e "E" then
            let '(es, l'') := match l' with
                              | a :: r => if is_sign a then ([a], r) else ([], l')
                              | [] => ([], [])
                              end in
            let '(ed, _) := span is_digit l'' in
            if nonempty ed then e :: es ++ ed else []
          else []
      | [] => []
      end in
    Some (sign ++ digits ++ frac ++ expo).

(** [re.match(r"^=([a-zA-Z]+)=\s+(\S+)(?:\s+(number))?", line)]: the three
    groups. *)
Definition match_v31 (line : list ascii)
  : option (string * string * option string) :=
  match line with
  | a :: l1 =>
      if negb (Ascii.eqb a "=") then None
      else
        let '(key, l2) := span is_letter l1 in
        if negb (nonempty key) then None
        else
          match l2 with
          | b :: l3 =>
              if negb (Ascii.eqb b "=") then None
              else
                let '(ws, l4) := span is_space l3 in
                if negb (nonempty ws) then None
                else
                  let '(name, l5) := span (fun x => negb (is_space x)) l4 in
                  if negb (nonempty name) then None
                  else
                    let '(ws2, l6) := span is_space l5 in
                    let obj := if nonempty ws2
                               then option_map string_of_list_ascii (match_number l6)
                               else None in
                    Some (string_of_list_ascii key, string_of_list_ascii name, obj)
          | [] => None
          end
  | [] => None
  end.

(** ** The fallback, lines 30-54 *)

(** [tok.lower() in _STATUS_KEYS] *)
Definition is_status (tok : string) : bool :=
  existsb (String.eqb (lower tok)) _STATUS_KEYS.

(** Lines 32-36: the index of the first status token. *)
Fixpoint find_status (i : nat) (parts : list string) : option nat :=
  match parts with
  | [] => None
  | tok :: parts' => if is_status tok then Some i else find_status (S i) parts'
  end.

Fixpoint lookup_v31 (m : list (string * string)) (key : string) : string :=
  match m with
  | [] => key
  | (k, v) :: m' => if String.eqb k key then v else lookup_v31 m' key
  end.

Section WithFloat.

(** [float(s)] on a string: Python's parser, taken as given; [None] is
    [ValueError]. *)
Variable float_of_str : string → option pyfloat.

Fixpoint first_float (l : list string) : option pyfloat :=
  match l with
  | [] => None
  | tok :: l' => match float_of_str tok with
                 | Some v => Some v
                 | None => first_float l'
                 end
  end.

(** Lines 47-53: the first token, from the end, that [float] accepts. *)
Definition last_float (parts : list string) : option pyfloat :=
  first_float (rev parts).

(** The body of the loop over the lines, lines 17-54.  [out] is the dict
    being filled. *)
Definition parse_line (out : gmap string (string * option pyfloat))
    (raw : string) : result (gmap string (string * option pyfloat)) :=
  let line := strip (list_ascii_of_string raw) in
  if negb (nonempty line)
     || match line with a :: _ => Ascii.eqb a "#" | [] => false end
  then Ok out
  else
    match match_v31 line with
    | Some (key, name, obj) =>
        let status := lookup_v31 _V31_MAP (lower key) in
        val ←! match obj with
               | Some o => match float_of_str o with
                           | Some v => Ok (Some v)
                           | None => Raise (ValueError "could not convert string to float")
                           end
               | None => Ok None
               end;
        Ok (<[name := (status, val)]> out)
    | None =>
        let parts := split line in
        match find_status 0 parts with
        | None => Ok out
        | Some status_idx =>
            tok ←! getitem parts (Z.of_nat status_idx);
            let status := lower tok in
            name ←! (if (0 <? status_idx)%nat then
                       nm ←! getitem parts (Z.of_nat status_idx - 1);
                       Ok (Some nm)
                     else if (status_idx + 1 <? length parts)%nat then
                       nm ←! getitem parts (Z.of_nat status_idx + 1);
                       Ok (Some nm)
                     else Ok None);
            match name with
            | None | Some EmptyString => Ok out
            | Some name => Ok (<[name := (status, last_float parts)]> out)
            end
        end
    end.

Definition parse_miplib_solu (lines : list string)
  : result (gmap string (string * option pyfloat)) :=
  for_each parse_line lines ∅.

End WithFloat.
End miplib_solu.

(* ===================================================================== *)
(** * data_adapters/knapsack_burkardt_adapter.py                          *)
(* ===================================================================== *)

Module knapsack_burkardt_adapter.
Import Py.

(** The exceptions of this file: those of [Py.exn], the [OverflowError] of
    [round] on an infinity, and the [FileNotFoundError] of [open]. *)
Inductive io_exn : Type :=
| Builtin (e : exn)
| OverflowError
| FileNotFoundError (path : string).

Inductive outcome (A : Type) : Type :=
| Return (a : A)
| Throw (e : io_exn).
Arguments Return {A} a.
Arguments Throw {A} e.

Definition obind {A B : Type} (m : outcome A) (k : A → outcome B) : outcome B :=
  match m with
  | Return a => k a
  | Throw e => Throw e
  end.

Notation "x ←? m ; k" := (obind m (fun x => k))
  (at level 100, m at next level, right associativity).

Fixpoint otraverse {A B : Type} (f : A → outcome B) (l : list A)
  : outcome (list B) :=
  match l with
  | [] => Return []
  | x :: l' => y ←? f x; ys ←? otraverse f l'; Return (y :: ys)
  end.

(** [1e-9]: the double nearest to it. *)
Definition tol : Q := 4835703278458517 # 4835703278458516698824704.

(** [round(v)] on a float. *)
Definition round_float (v : pyfloat) : outcome Z :=
  match v with
  | Fin q => Return (py_round q)
  | PosInf | NegInf => Throw OverflowError
  | NaN => Throw (Builtin (ValueError "cannot convert float NaN to integer"))
  end.

(** [abs(v - round(v)) > 1e-9].  The difference of a double and the
    integer nearest to it is a double, so the subtraction does not
    round. *)
Definition far_from_int (v : pyfloat) : outcome bool :=
  r ←? round_float v;
  Return (match v with
          | Fin q => negb (Qle_bool (Qabs (q - inject_Z r)) tol)
          | _ => false
          end).

(** [os.path.join(a, b)] on a POSIX system. *)
Definition starts_with_sep (s : string) : bool :=
  match s with
  | String a _ => Ascii.eqb a "/"
  | EmptyString => false
  end.

Definition ends_with_sep (s : string) : bool :=
  match rev (list_ascii_of_string s) with
  | a :: _ => Ascii.eqb a "/"
  | [] => false
  end.

Definition path_join (a b : string) : string :=
  if starts_with_sep b then b
  else if (String.eqb a "" || ends_with_sep a)%bool then (a ++ b)%string
  else (a ++ "/" ++ b)%string.

(** [line.strip()] *)
Definition strip_line (line : string) : string :=
  string_of_list_ascii (miplib_solu.strip (list_ascii_of_string line)).

Definition is_blank (line : string) : bool :=
  match strip_line line with
  | EmptyString => true
  | _ => false
  end.

(** The dict returned by the loader. *)
Record knapsack_data := {
  values : list pyfloat;
  weights : list Z;
  capacity : Z;
  opt_selection : option (list Z);
  metadata : string * string;
}.

Section WithFiles.

(** [float(s)] on a string: Python's parser, taken as given. *)
Variable float_of_str : string → option pyfloat.

(** The regular files: a path is mapped to the lines of its file. *)
Variable fs : gmap string (list string).

Definition read_number (line : string) : outcome pyfloat :=
  match float_of_str (strip_line line) with
  | Some v => Return v
  | None => Throw (Builtin (ValueError "could not convert string to float"))
  end.

Definition _read_numbers (path : string) : outcome (list pyfloat) :=
  match fs !! path with
  | None => Throw (FileNotFoundError path)
  | Some lines =>
      otraverse read_number (List.filter (fun line => negb (is_blank line)) lines)
  end.

Definition _read_single_int (path : string) : outcome Z :=
  vals ←? _read_numbers path;
  match vals with
  | [v] =>
      far ←? far_from_int v;
      if far then
        Throw (Builtin (ValueError ("Capacity must be an integer in " ++ path)))
      else round_float v
  | _ => Throw (Builtin (ValueError ("Expected a single number in " ++ path)))
  end.

(** Lines 46-49: one weight. *)
Definition cast_weight (w : pyfloat) : outcome Z :=
  if float_ltb0 w then
    Throw (Builtin (ValueError "weights must be non-negative integers"))
  else
    far ←? far_from_int w;
    if far then
      Throw (Builtin (ValueError "weights must be non-negative integers"))
    else round_float w.

Definition load_knapsack_burkardt (dir_path instance : string)
  : outcome knapsack_data :=
  let inst := lower instance in
  let c_file := path_join dir_path (inst ++ "_c.txt") in
  let w_file := path_join dir_path (inst ++ "_w.txt") in
  let p_file := path_join dir_path (inst ++ "_p.txt") in
  let s_file := path_join dir_path (inst ++ "_s.txt") in
  capacity ←? _read_single_int c_file;
  weights_f ←? _read_numbers w_file;
  values_f ←? _read_numbers p_file;
  if negb (length weights_f =? length values_f)%nat then
    Throw (Builtin (ValueError "weights and values length mismatch"))
  else
    weights ←? otraverse cast_weight weights_f;
    opt_selection ←?
      match fs !! s_file with
      | Some _ =>
          s ←? _read_numbers s_file;
          if negb (length s =? length values_f)%nat then
            Throw (Builtin (ValueError "selection length mismatch"))
          else
            sel ←? otraverse round_float s;
            Return (Some sel)
      | None => Return None
      end;
    Return {| values := values_f; weights := weights; capacity := capacity;
              opt_selection := opt_selection;
              metadata := ("burkardt"%string, inst) |}.

End WithFiles.

End knapsack_burkardt_adapter.

(* ===================================================================== *)
(** * Reference definitions for the knapsack properties                   *)
(* ===================================================================== *)

Module knapsack_ref.
Import Py.

(** An item is a (value, weight) pair. *)
Definition item : Type := Q * Z.

(** All sub-selections of a list of items, each item kept or dropped. *)
Fixpoint subsets {A : Type} (l : list A) : list (list A) :=
  match l with
  | [] => [[]]
  | x :: l' => subsets l' ++ map (cons x) (subsets l')
  end.

Definition total_value (s : list item) : Q :=
  fold_right (fun it acc => (fst it + acc)%Q) 0%Q s.

Definition total_weight (s : list item) : Z :=
  fold_right (fun it acc => (snd it + acc)%Z) 0%Z s.

Definition feasible (capacity : Z) (s : list item) : bool :=
  (total_weight s <=? capacity)%Z.

Definition Qmax (a b : Q) : Q := if Qle_bool a b then b else a.

(** Maximum of a list of rationals; [None] for the empty list. *)
Fixpoint max_list (l : list Q) : option Q :=
  match l with
  | [] => None
  | x :: l' => match max_list l' with
               | None => Some x
               | Some m => Some (Qmax x m)
               end
  end.

(** Brute-force enumeration: the best total value among the selections
    whose total weight is at most [capacity]. *)
Definition brute_force (items : list item) (capacity : Z) : option Q :=
  max_list (map total_value (filter (fun s => feasible capacity s = true) (subsets items))).

(** The integer a number stands for, when the solver accepts it as one. *)
Definition int_value (x : pynum) : option Z :=
  match x with
  | PyInt z => Some z
  | PyFloat (Fin q) => if is_integer (Fin q) then Some (int_of_Q q) else None
  | _ => None
  end.

(** A value the solver can use: [float] converts it. *)
Definition convertible (v : pynum) : Prop := ∃ f, to_float v = Ok f.

(** A valid instance: as many weights as values, every value a number
    that [float] converts, every weight and the capacity a non-negative
    integer ([w_ints] and [cap] name them). *)
Definition valid_instance (values weights : list pynum)
    (capacity : pynum) (w_ints : list Z) (cap : Z) : Prop :=
  length values = length weights ∧
  Forall convertible values ∧
  Forall2 (fun w z => int_value w = Some z ∧ (0 <= z)%Z) weights w_ints ∧
  int_value capacity = Some cap ∧ (0 <= cap)%Z.

(** Total weight and value of the items at the given indices. *)
Definition weight_of (w_ints : list Z) (sel : list nat) : Z :=
  fold_right (fun i acc => (nth i w_ints 0 + acc)%Z) 0%Z sel.

Definition value_of (values : list Q) (sel : list nat) : Q :=
  fold_right (fun i acc => (nth i values 0 + acc)%Q) 0%Q sel.

(** ** The table of floats, row by row, without the in-place updates *)

(** An item after line 89: its value as a float, and its weight. *)
Definition fitem : Type := pyfloat * Z.

Definition convert_items (l : list (pynum * Z)) : result (list fitem) :=
  traverse (fun p => f ←! to_float (fst p); Ok (f, snd p)) l.

Definition cell (prev : list pyfloat) (v_i : pyfloat) (w_i : Z) (w : Z)
  : pyfloat :=
  let best := nth (Z.to_nat w) prev (Fin 0) in
  if (w_i <=? w)%Z then
    let cand := fadd (nth (Z.to_nat (w - w_i)) prev (Fin 0)) v_i in
    if fgt cand best then cand else best
  else best.

Definition next_row (capacity : Z) (prev : list pyfloat) (it : fitem)
  : list pyfloat :=
  map (cell prev (fst it) (snd it)) (range 0 (capacity + 1)).

Fixpoint rows_from (capacity : Z) (prev : list pyfloat) (items : list fitem)
  : list (list pyfloat) :=
  match items with
  | [] => [prev]
  | it :: items' => prev :: rows_from capacity (next_row capacity prev it) items'
  end.

Definition zero_row (capacity : Z) : list pyfloat :=
  replicate (Z.to_nat (capacity + 1)) (Fin 0).

(** The row reached from [prev] after the given items. *)
Definition row_after (capacity : Z) (prev : list pyfloat) (items : list fitem)
  : list pyfloat :=
  fold_left (next_row capacity) items prev.

(** Row [k] of the table: the first [k] items. *)
Definition table_row (items : list fitem) (capacity : Z) (k : nat)
  : list pyfloat :=
  row_after capacity (zero_row capacity) (take k items).

(** No cell is NaN. *)
Definition no_nan (row : list pyfloat) : Prop := Forall (fun x => x ≠ NaN) row.

(** Invariant of the reconstruction loop when rows [k+1 .. n] have been
    visited. *)
Definition recon_inv (n : nat) (w_ints : list Z) (capacity : Z)
    (k : nat) (st : knapsack_utils.recon_state) : Prop :=
  let w := knapsack_utils.rem_w st in
  let sel := knapsack_utils.selected st in
  (0 <= w <= capacity)%Z ∧
  Forall (fun j => k ≤ j < n) sel ∧
  StronglySorted lt (rev sel) ∧
  (weight_of w_ints sel + w = capacity)%Z.

(** ** Integer values: the table without rounding *)

(** The value [v] is the integer [z], given as an [int] or as a float. *)
Definition int_valued (v : pynum) (z : Z) : Prop :=
  v = PyInt z ∨ v = PyFloat (Fin (inject_Z z)).

Definition abs_sum (zs : list Z) : Z :=
  fold_right (fun z acc => (Z.abs z + acc)%Z) 0%Z zs.

(** Integer values whose absolute values sum to at most [2^53]: every sum
    the table forms is a double. *)
Definition exact_values (values : list pynum) (vals : list Z) : Prop :=
  Forall2 int_valued values vals ∧ (abs_sum vals <= 2 ^ 53)%Z.

(** The items with their exact values, for the brute-force reference. *)
Definition exact_items (vals w_ints : list Z) : list item :=
  zip (map inject_Z vals) w_ints.

Definition float_of_Z (z : Z) : pyfloat := Fin (inject_Z z).

Definition cellZ (prev : list Z) (v_i w_i w : Z) : Z :=
  let best := nth (Z.to_nat w) prev 0%Z in
  if (w_i <=? w)%Z then
    let cand := (nth (Z.to_nat (w - w_i)) prev 0 + v_i)%Z in
    if (best <? cand)%Z then cand else best
  else best.

Definition next_rowZ (capacity : Z) (prev : list Z) (it : Z * Z) : list Z :=
  map (cellZ prev (fst it) (snd it)) (range 0 (capacity + 1)).

Definition table_rowZ (items : list (Z * Z)) (capacity : Z) (k : nat)
  : list Z :=
  fold_left (next_rowZ capacity) (take k items)
    (replicate (Z.to_nat (capacity + 1)) 0%Z).

(** [row] is optimal for [items]: for every capacity [w] up to [capacity],
    cell [w] is the value of some selection of weight at most [w], and no
    such selection has a larger value. *)
Definition optimal_row (capacity : Z) (items : list item) (row : list Q)
  : Prop :=
  length row = Z.to_nat (capacity + 1) ∧
  ∀ w : Z, (0 <= w <= capacity)%Z →
    (∃ s, In s (subsets items) ∧ (total_weight s <= w)%Z ∧
          (total_value s == nth (Z.to_nat w) row 0)%Q) ∧
    (∀ s, In s (subsets items) → (total_weight s <= w)%Z →
          (total_value s <= nth (Z.to_nat w) row 0)%Q).

(** The sum of the absolute values of the items. *)
Definition abs_total (items : list item) : Q :=
  fold_right (fun it acc => (Qabs (fst it) + acc)%Q) 0%Q items.

End knapsack_ref.

(* ===================================================================== *)
(** * Reference definitions for the MILP properties                       *)
(* ===================================================================== *)

Module milp_ref.
Import Py milp_utils.

(** A number with a finite float value. *)
Definition finite (x : pynum) : Prop := ∃ q, to_float x = Ok (Fin q).

(** Integer-valued within the tolerance 1e-9: the float value is finite
    and some integer is that close to it. *)
Definition int_valued (x : pynum) : Prop :=
  ∃ q k, to_float x = Ok (Fin q) ∧ (Qabs (q - inject_Z k) <= tol)%Q.

(** A marker other than binary or integer. *)
Definition continuous_marker (t : option string) : Prop :=
  t ≠ Some "B"%string ∧ t ≠ Some "I"%string.

Definition has_continuous_marker (P : CanonicalProblem) : Prop :=
  ∃ t, In t (integrality P) ∧ continuous_marker t.

(** The routing condition in the words of the specification: a continuous
    marker, or an objective coefficient, a finite bound, a matrix
    coefficient or a right-hand side that is not integer-valued. *)
Definition needs_continuous (P : CanonicalProblem) : Prop :=
  has_continuous_marker P
  ∨ (∃ x, In x (c P) ∧ ¬ int_valued x)
  ∨ (∃ lb ub x, In (lb, ub) (bounds P) ∧ (lb = Some x ∨ ub = Some x)
                ∧ finite x ∧ ¬ int_valued x)
  ∨ (∃ rows row x, (A_eq P = Some rows ∨ A_ub P = Some rows)
                   ∧ In row rows ∧ In x row ∧ ¬ int_valued x)
  ∨ (∃ rhs x, (b_eq P = Some rhs ∨ b_ub P = Some rhs)
              ∧ In x rhs ∧ ¬ int_valued x).

(** Every number of the problem has a property: the objective
    coefficients, the bounds that are given, the matrix coefficients and
    the right-hand sides. *)
Definition all_data (ok : pynum → Prop) (P : CanonicalProblem) : Prop :=
  (∀ x, In x (c P) → ok x)
  ∧ (∀ lb ub x, In (lb, ub) (bounds P) → lb = Some x ∨ ub = Some x → ok x)
  ∧ (∀ rows row x, A_eq P = Some rows ∨ A_ub P = Some rows →
                   In row rows → In x row → ok x)
  ∧ (∀ rhs x, b_eq P = Some rhs ∨ b_ub P = Some rhs → In x rhs → ok x).

(** All the numbers are finite: no infinity, no NaN, no integer beyond the
    range of the floats. *)
Definition finite_data (P : CanonicalProblem) : Prop := all_data finite P.

(** The sense the caller gave, after the default. *)
Definition given_sense (problem : raw_problem) : string :=
  match raw_sense problem with
  | None | Some EmptyString => "min"
  | Some s => s
  end.

(** The defects of a raw problem that normalisation rejects. *)
Definition rejected (problem : raw_problem) : Prop :=
  (lower (given_sense problem) ≠ "min"%string
   ∧ lower (given_sense problem) ≠ "max"%string)
  ∨ (∃ l, raw_integrality problem = Given l ∧ length l ≠ length (raw_c problem))
  ∨ (∃ l, raw_bounds problem = Some l ∧ length l ≠ length (raw_c problem))
  ∨ (∃ l, raw_var_names problem = Some l ∧ l ≠ []
          ∧ length l ≠ length (raw_c problem))
  ∨ is_None (raw_A_eq problem) ≠ is_None (raw_b_eq problem)
  ∨ is_None (raw_A_ub problem) ≠ is_None (raw_b_ub problem).

(** What [_normalize] guarantees about its result. *)
Definition normalized (P : CanonicalProblem) : Prop :=
  n P = length (c P)
  ∧ length (integrality P) = n P
  ∧ length (bounds P) = n P
  ∧ length (var_names P) = n P
  ∧ Forall (fun t => t = None ∨ t = Some "B"%string ∨ t = Some "I"%string)
      (integrality P)
  ∧ is_None (A_eq P) = is_None (b_eq P)
  ∧ is_None (A_ub P) = is_None (b_ub P)
  ∧ (sense P = "min"%string ∨ sense P = "max"%string).

(** ** Concrete problems and backends used below *)

Definition raw (c : list pynum) : raw_problem :=
  {| raw_sense := None; raw_c := c; raw_integrality := Absent;
     raw_bounds := None; raw_var_names := None;
     raw_A_eq := None; raw_b_eq := None; raw_A_ub := None; raw_b_ub := None;
     raw_obj_offset := Absent |}.

Definition ints (l : list Z) : list pynum := map PyInt l.

(** Two coefficients, and an empty list of names. *)
Definition problem_empty_names : raw_problem :=
  {| raw_sense := Some "min"%string; raw_c := ints [1; 2]%Z;
     raw_integrality := Absent; raw_bounds := None; raw_var_names := Some [];
     raw_A_eq := None; raw_b_eq := None; raw_A_ub := None; raw_b_ub := None;
     raw_obj_offset := Absent |}.

(** Three coefficients, two bounds. *)
Definition problem_short_bounds : raw_problem :=
  {| raw_sense := Some "max"%string; raw_c := ints [1; 2; 3]%Z;
     raw_integrality := Absent;
     raw_bounds := Some [(Some (PyInt 0), Some (PyInt 1)); (Some (PyInt 0), None)];
     raw_var_names := None;
     raw_A_eq := None; raw_b_eq := None; raw_A_ub := None; raw_b_ub := None;
     raw_obj_offset := Absent |}.

(** [minimize x] over a continuous [x >= 0], with objective constant 5.0. *)
Definition problem_with_offset : raw_problem :=
  {| raw_sense := Some "min"%string; raw_c := [PyFloat (Fin 1)];
     raw_integrality := Absent; raw_bounds := None; raw_var_names := None;
     raw_A_eq := None; raw_b_eq := None; raw_A_ub := None; raw_b_ub := None;
     raw_obj_offset := Given (PyFloat (Fin 5)) |}.

(** The 2x2 assignment problem of the tests, all binary. *)
Definition problem_assignment (c12 : pynum) : raw_problem :=
  {| raw_sense := Some "min"%string;
     raw_c := [PyInt 1; c12; PyInt 2; PyInt 1];
     raw_integrality := Given (replicate 4 (Some "B"%string));
     raw_bounds := Some (replicate 4 (Some (PyInt 0), Some (PyInt 1)));
     raw_var_names := Some ["x11"; "x12"; "x21"; "x22"]%string;
     raw_A_eq := Some (map ints [[1; 1; 0; 0]; [0; 0; 1; 1];
                                 [1; 0; 1; 0]; [0; 1; 0; 1]]%Z);
     raw_b_eq := Some (ints [1; 1; 1; 1]%Z);
     raw_A_ub := None; raw_b_ub := None;
     raw_obj_offset := Absent |}.

(** One integer variable with bounds [(0, float('inf'))]. *)
Definition problem_infinite_bound : raw_problem :=
  {| raw_sense := None; raw_c := [PyInt 1];
     raw_integrality := Given [Some "I"%string];
     raw_bounds := Some [(Some (PyInt 0), Some (PyFloat PosInf))];
     raw_var_names := None;
     raw_A_eq := None; raw_b_eq := None; raw_A_ub := None; raw_b_ub := None;
     raw_obj_offset := Absent |}.

Definition zero64 : int64 := exist _ 0%Z eq_refl.

(** A CBC that reports an optimum of value [v] at the origin, and a CP-SAT
    that reports the status code [code]. *)
Definition lp_reports (v : pyfloat) (model : LpModel) : LpSolver :=
  {| lp_result_status := lp_OPTIMAL; lp_objective_value := v;
     lp_solution_value := fun _ => Fin 0; lp_wall_time := 1 |}.

Definition cp_reports (code : Z) (model : CpModel) (params : CpParameters)
  : CpSolver :=
  {| cp_status_code := code; cp_Value := fun _ => zero64;
     cp_ObjectiveValue := Fin 0; cp_BestObjectiveBound := None;
     cp_StatusName := "STATUS"; cp_WallTime := Fin 0;
     cp_NumConflicts := 0; cp_NumBranches := 0 |}.

Definition env_reports (v : pyfloat) (code : Z) : backends :=
  {| cbc := Some (lp_reports v); cp_sat := cp_reports code |}.

End milp_ref.

(* ===================================================================== *)
(** * Reference definitions for the adapter properties                    *)
(* ===================================================================== *)

Module lpnetlib_ref.
Import Py lpnetlib_adapter.

(** The three classes of a row with bounds [l] and [u], in the words of the
    specification. *)
Definition eq_row (eq_tol : Q) (l u : pyfloat) : bool :=
  isfinite l && isfinite u && fle (fabs (fsub u l)) (Fin eq_tol).

Definition le_row (eq_tol : Q) (l u : pyfloat) : bool :=
  isfinite u && negb (eq_row eq_tol l u).

Definition ge_row (eq_tol : Q) (l u : pyfloat) : bool :=
  isfinite l && negb (eq_row eq_tol l u).

(** How often a row is emitted: once if it is an equality, else once for
    each finite bound. *)
Definition copies (eq_tol : Q) (l u : pyfloat) : nat :=
  if eq_row eq_tol l u then 1
  else (if isfinite u then 1 else 0) + (if isfinite l then 1 else 0).

(** The entries of [l] at the positions where [mask] holds, in order. *)
Definition select {A : Type} (mask : list bool) (l : list A) : list A :=
  map snd (filter (fun bx => fst bx = true) (zip mask l)).

Definition rows_of (A : option (list (list pyfloat))) : list (list pyfloat) :=
  match A with Some rows => rows | None => [] end.

Definition emitted_rows (rc : row_constraints) : nat :=
  length (rows_of (rc_A_eq rc)) + length (concat (rc_A_ub_blocks rc)).

Definition emitted_rows_of_problem (p : problem_dict) : nat :=
  length (rows_of (A_eq p)) + length (rows_of (A_ub p)).

(** A parser that accepts nothing, for files without strings. *)
Definition no_float (s : string) : option pyfloat := None.

(** One row [0 <= x <= 1], one free row, and one row [x >= 2] with objective
    constant 7. *)
Definition mat_range_row : list (string * matval) :=
  [("A", MMatrix true 1 [[Fin 1]]); ("c", MVec [Fin 1]);
   ("rl", MVec [Fin 0]); ("ru", MVec [Fin 1])]%string.

Definition mat_free_row : list (string * matval) :=
  [("A", MMatrix true 1 [[Fin 1]]); ("c", MVec [Fin 1]);
   ("rl", MVec [NegInf]); ("ru", MVec [PosInf])]%string.

Definition mat_with_z0 (z0 : matval) : list (string * matval) :=
  [("Problem", MStruct [("A", MMatrix true 1 [[Fin 1]]);
                        ("aux", MStruct [("c", MVec [Fin 1]); ("z0", z0)]);
                        ("rl", MVec [Fin 2])])]%string.

(** [1e-12]: the double nearest to it. *)
Definition eq_tol_default : Q :=
  4951760157141521 # 4951760157141521099596496896.

End lpnetlib_ref.

Module miplib_ref.
Import Py miplib_solu.

(** The stripped line and its whitespace-separated tokens. *)
Definition stripped (raw : string) : list ascii :=
  strip (list_ascii_of_string raw).

Definition tokens (raw : string) : list string := split (stripped raw).

(** A line the parser reads: not blank, not a comment. *)
Definition is_data_line (raw : string) : Prop :=
  nonempty (stripped raw) = true
  ∧ match stripped raw with a :: _ => Ascii.eqb a "#" | [] => false end = false.

(** A status word: a token whose lower-case form is one of the words of
    the status vocabulary. *)
Definition status_word (tok : string) : Prop := In (lower tok) _STATUS_KEYS.

(** [tok] is the first status token of [parts]: [pre] holds the tokens
    before it, [post] those after it. *)
Definition first_status (parts pre : list string) (tok : string)
    (post : list string) : Prop :=
  parts = pre ++ tok :: post
  ∧ Forall (fun t => ¬ status_word t) pre
  ∧ status_word tok.



(** A parser for unsigned decimal integers, for the examples. *)
Fixpoint digits_value (acc : Z) (s : string) : option Z :=
  match s with
  | EmptyString => Some acc
  | String a s' =>
      if is_digit a
      then digits_value (10 * acc + Z.of_nat (nat_of_ascii a) - 48) s'
      else None
  end.

Definition decimal_float (s : string) : option pyfloat :=
  match s with
  | EmptyString => None
  | _ => option_map (fun z => Fin (inject_Z z)) (digits_value 0 s)
  end.

End miplib_ref.

Module burkardt_ref.
Import Py knapsack_burkardt_adapter.

(** The file of an instance with the given suffix. *)
Definition file_of (dir_path instance suffix : string) : string :=
  path_join dir_path (lower instance ++ suffix).

(** The float [v] is finite and within 1e-9 (the double) of the integer
    [z]. *)
Definition near_int (v : pyfloat) (z : Z) : Prop :=
  ∃ q, v = Fin q ∧ (Qabs (q - inject_Z z) <= tol)%Q.

(** A directory with the instance [toy]: capacity 10, three items, and
    the selection file. *)
Definition toy_files : gmap string (list string) :=
  <["data/toy_c.txt"%string := ["10"; ""]%string]>
    (<["data/toy_w.txt"%string := [" 4"; "7 "; "5"]%string]>
       (<["data/toy_p.txt"%string := ["40"; "60"; "55"]%string]>
          (<["data/toy_s.txt"%string := ["1"; "0"; "1"]%string]> ∅))).

(** A parser that also reads the literal [1e-9], for the example of a
    capacity at the tolerance. *)
Definition float_with_1e_9 (s : string) : option pyfloat :=
  if String.eqb s "1e-9" then Some (Fin tol) else miplib_ref.decimal_float s.

Definition tiny_capacity_files : gmap string (list string) :=
  <["data/tiny_c.txt"%string := ["1e-9"]%string]>
    (<["data/tiny_w.txt"%string := ["4"]%string]>
       (<["data/tiny_p.txt"%string := ["40"]%string]> ∅)).

End burkardt_ref.

Module milp_more_ref.
Import Py milp_utils milp_ref.

(** An integrality token other than ["B"], ["I"], ["C"] and [None]. *)
Definition known_token (t : option string) : Prop :=
  t = None ∨ t = Some "B"%string ∨ t = Some "I"%string ∨ t = Some "C"%string.

Definition has_unknown_token (problem : raw_problem) : Prop :=
  ∃ l t, raw_integrality problem = Given l ∧ In t l ∧ ¬ known_token t.

(** A number that [float] converts: an [int] or a fraction within the
    range of the floats, or a float. *)
Definition has_float (x : pynum) : Prop := ∃ f, to_float x = Ok f.

(** The objective constant cannot be converted: it is [None], or a number
    beyond the range of the floats. *)
Definition bad_offset (problem : raw_problem) : Prop :=
  raw_obj_offset problem = IsNone
  ∨ ∃ z, raw_obj_offset problem = Given z ∧ ¬ has_float z.

(** The objective constant as a float, 0.0 when absent. *)
Definition given_offset (problem : raw_problem) : pyfloat :=
  match raw_obj_offset problem with
  | Given z => match to_float z with Ok f => f | Raise _ => Fin 0 end
  | _ => Fin 0
  end.

(** [off] is the objective constant of [problem], converted. *)
Definition offset_is (problem : raw_problem) (off : pyfloat) : Prop :=
  (raw_obj_offset problem = Absent ∧ off = Fin 0)
  ∨ ∃ z, raw_obj_offset problem = Given z ∧ to_float z = Ok off.

(** [dict(zip(keys, values))] built by assignments in order: a later
    assignment to a key replaces an earlier one. *)
Definition assign (kvs : list (string * pyfloat)) (acc : gmap string pyfloat)
  : gmap string pyfloat :=
  fold_left (fun d kv => <[fst kv := snd kv]> d) kvs acc.

(** The marker ["C"] is rewritten to [None]; the others are kept. *)
Definition canon_token (t : option string) : option string :=
  match t with
  | Some s => if String.eqb s "C" then None else Some s
  | None => None
  end.

(** The per-variable sequences after the defaults. *)
Definition given_integrality (problem : raw_problem) : list (option string) :=
  match raw_integrality problem with
  | Given l => l
  | _ => replicate (length (raw_c problem)) None
  end.

Definition given_bounds (problem : raw_problem)
  : list (option pynum * option pynum) :=
  match raw_bounds problem with
  | Some l => l
  | None => replicate (length (raw_c problem)) (Some (PyInt 0), None)
  end.

Definition given_names (problem : raw_problem) : list string :=
  match raw_var_names problem with
  | None | Some [] => default_names (length (raw_c problem))
  | Some l => l
  end.




(** The problems the code sends to the continuous-capable backend: a
    continuous marker, or finite data of which some is not
    integer-valued. *)
Definition continuous_route (P : CanonicalProblem) : Prop :=
  has_continuous_marker P ∨ (finite_data P ∧ needs_continuous P).


(** A time limit that CBC accepts: [int(time_limit * 1000)] exists and is
    a 64-bit integer. *)
Definition limit_in_ms (time_limit : option pynum) : Prop :=
  match time_limit with
  | None => True
  | Some (PyInt z) => in_int64 (z * 1000) = true
  | Some (PyFloat f) =>
      ∃ q, fmul f (Fin 1000) = Fin q ∧ in_int64 (int_of_Q q) = true
  | Some (PyFraction q) => in_int64 (int_of_Q (q * 1000)) = true
  end.

(** The binary problem [x1 + x2 = 3] of the tests. *)
Definition problem_infeasible : raw_problem :=
  {| raw_sense := Some "min"%string; raw_c := ints [0; 0]%Z;
     raw_integrality := Given [Some "B"; Some "B"]%string;
     raw_bounds := Some [(Some (PyInt 0), Some (PyInt 1));
                         (Some (PyInt 0), Some (PyInt 1))];
     raw_var_names := Some ["x1"; "x2"]%string;
     raw_A_eq := Some [ints [1; 1]%Z]; raw_b_eq := Some [PyInt 3];
     raw_A_ub := None; raw_b_ub := None;
     raw_obj_offset := Absent |}.

(** The package handed to [_pack_result] in the examples. *)
Definition two_binaries : CanonicalProblem :=
  {| sense := "min"; c := ints [0; 0]%Z; n := 2;
     integrality := [Some "B"; Some "B"]%string;
     bounds := [(Some (PyInt 0), Some (PyInt 1));
                (Some (PyInt 0), Some (PyInt 1))];
     var_names := ["x1"; "x2"]%string;
     A_eq := Some [ints [1; 1]%Z]; b_eq := Some [PyInt 3];
     A_ub := None; b_ub := None; obj_offset := Fin 0 |}.

End milp_more_ref.

Module lpnetlib_more_ref.
Import Py lpnetlib_adapter.

(** The aliases of the row bounds and of the right-hand side. *)
Definition rl_names : list string :=
  ["rl"; "r_l"; "rowl"; "bl"; "lower_row"; "row_lower"]%string.
Definition ru_names : list string :=
  ["ru"; "r_u"; "rowu"; "bu"; "upper_row"; "row_upper"]%string.
Definition b_names : list string := ["b"; "rhs"; "beq"]%string.
Definition lo_names : list string :=
  ["lo"; "l"; "lb"; "lower"; "xl"; "xlow"]%string.
Definition hi_names : list string :=
  ["hi"; "u"; "ub"; "upper"; "xu"; "xupp"]%string.

(** A (matrix, rhs) pair of the returned problem: both absent, or both
    present with as many rows as right-hand sides. *)
Definition paired (A : option (list (list pyfloat))) (b : option (list pyfloat))
  : Prop :=
  match A, b with
  | Some rows, Some rhs => length rows = length rhs
  | None, None => True
  | _, _ => False
  end.

(** A bound of the returned problem is absent or finite. *)
Definition finite_bound (b : option pyfloat) : Prop :=
  match b with
  | Some x => isfinite x = true
  | None => True
  end.

Definition is_nil {A : Type} (l : list A) : bool :=
  match l with [] => true | _ => false end.

(** The values of an optional vector. *)
Definition rhs_of (b : option (list pyfloat)) : list pyfloat :=
  match b with Some v => v | None => [] end.

(** A range row, a [<=] row, a [>=] row and an equality row over one
    column, by their row bounds. *)
Definition mat_row_bounds : list (string * matval) :=
  [("A", MMatrix true 1 [[Fin 1]; [Fin 2]; [Fin 3]; [Fin 4]]);
   ("c", MVec [Fin 1]);
   ("rl", MVec [Fin 1; NegInf; Fin 2; Fin 5]);
   ("ru", MVec [Fin 3; Fin 7; PosInf; Fin 5])]%string.

(** Upper row bounds only. *)
Definition mat_upper_only : list (string * matval) :=
  [("A", MMatrix true 1 [[Fin 1]; [Fin 2]; [Fin 3]]);
   ("c", MVec [Fin 1]);
   ("ru", MVec [Fin 3; PosInf; Fin 7])]%string.

(** Two rows [x = 4] and [2 x = 8] given by a right-hand side only, with
    the objective under [aux]. *)
Definition mat_rhs_only : list (string * matval) :=
  [("A", MMatrix true 1 [[Fin 1]; [Fin 2]]);
   ("aux", MStruct [("c", MVec [Fin 1])]);
   ("b", MVec [Fin 4; Fin 8]);
   ("hi", MVec [PosInf])]%string.

End lpnetlib_more_ref.

Module miplib_more_ref.
Import Py miplib_solu miplib_ref.

(** A data line whose tagged objective [float] rejects. *)
Definition rejected_objective (float_of_str : string → option pyfloat)
    (raw : string) : Prop :=
  is_data_line raw
  ∧ ∃ key name o, match_v31 (stripped raw) = Some (key, name, Some o)
                  ∧ float_of_str o = None.

(** A recorded name: not empty and without whitespace. *)
Definition good_name (name : string) : Prop :=
  name ≠ EmptyString
  ∧ Forall (fun a => is_space a = false) (list_ascii_of_string name).

(** A recorded status: a non-empty word of the letters [a-z]. *)
Definition good_status (status : string) : Prop :=
  status ≠ EmptyString
  ∧ Forall (fun a => code_in 97 122 a = true) (list_ascii_of_string status).

(** A tagged line as the archives write it: [=key= name] or
    [=key= name objective]. *)
Definition tagged_line (key name : string) (obj : option string) : string :=
  ("=" ++ key ++ "= " ++ name
   ++ match obj with
      | Some o => " " ++ o
      | None => EmptyString
      end)%string.

(** An objective written with digits only. *)
Definition digits_only (o : string) : Prop :=
  o ≠ EmptyString
  ∧ Forall (fun a => is_digit a = true) (list_ascii_of_string o).

Definition letters_only (key : string) : Prop :=
  key ≠ EmptyString
  ∧ Forall (fun a => is_letter a = true) (list_ascii_of_string key).

(** The written objective [obj] and the value [val] that [float] reads
    from it. *)
Definition objective_reads (float_of_str : string → option pyfloat)
    (obj : option string) (val : option pyfloat) : Prop :=
  match obj, val with
  | Some o, Some v => digits_only o ∧ float_of_str o = Some v
  | None, None => True
  | _, _ => False
  end.

(** A small archive in both grammars, with a comment and a blank line. *)
Definition small_archive : list string :=
  ["# best known values"; "=opt= air04 56137"; "   ";
   "=inf= infeasible01"; "markshare1 best 1"; "=Unkn= ds"]%string.

End miplib_more_ref.

(* ===================================================================== *)
(** * Properties of the Python values                                     *)
(* ===================================================================== *)

Section PyProofs.
Import Py.

Lemma Qfloor_bounds (x : Q) :
  (inject_Z (Qfloor x) <= x ∧ x < inject_Z (Qfloor x) + 1)%Q.
Proof.
  split; [apply Qfloor_le|].
  pose proof (Qlt_floor x) as H. rewrite inject_Z_plus in H. exact H.
Qed.

Lemma py_round_cases (x : Q) :
  let f := Qfloor x in
  let r := (x - inject_Z f)%Q in
  (py_round x = f ∧ (r <= 1 # 2)%Q) ∨ (py_round x = (f + 1)%Z ∧ (1 # 2 <= r)%Q).
Proof.
  intros f r. unfold py_round. fold f. fold r.
  destruct (Qle_bool r (1 # 2)) eqn:E1.
  - apply Qle_bool_iff in E1. destruct (Qle_bool (1 # 2) r) eqn:E2.
    + apply Qle_bool_iff in E2. destruct (Z.even f); auto.
    + auto.
  - right. split; [reflexivity|]. apply Qlt_le_weak, Qnot_le_lt. intros H.
    apply Qle_bool_iff in H. congruence.
Qed.

(** Rounding gives an integer at distance at most one half. *)
Lemma py_round_near (x : Q) : (Qabs (x - inject_Z (py_round x)) <= 1 # 2)%Q.
Proof.
  destruct (Qfloor_bounds x) as [Hlo Hhi].
  apply Qabs_Qle_condition.
  destruct (py_round_cases x) as [[-> Hr]|[-> Hr]].
  - split; lra.
  - rewrite inject_Z_plus. change (inject_Z 1) with 1%Q. split; lra.
Qed.

Lemma inject_Z_lt_inv (a b : Z) : (inject_Z a < inject_Z b)%Q → (a < b)%Z.
Proof. intros H. now rewrite Zlt_Qlt. Qed.

(** An integer closer than one half is the rounded value. *)
Lemma py_round_unique (x : Q) (k : Z) :
  (Qabs (x - inject_Z k) < 1 # 2)%Q → py_round x = k.
Proof.
  intros H.
  assert (Hk : (- (1 # 2) < x - inject_Z k ∧ x - inject_Z k < 1 # 2)%Q).
  { destruct (Qabs_case (x - inject_Z k)
                (fun a => (a < 1 # 2)%Q → (- (1 # 2) < x - inject_Z k
                                            ∧ x - inject_Z k < 1 # 2)%Q));
      auto; intros; split; lra. }
  destruct Hk as [Hk1 Hk2].
  destruct (Qfloor_bounds x) as [Hlo Hhi].
  set (f := Qfloor x) in *.
  assert (Hf : (k = f ∨ k = f + 1)%Z).
  { assert (H1 : (f - 1 < k)%Z).
    { apply inject_Z_lt_inv. unfold Z.sub. rewrite inject_Z_plus, inject_Z_opp.
      change (inject_Z 1) with 1%Q. lra. }
    assert (H2 : (k < f + 2)%Z).
    { apply inject_Z_lt_inv. rewrite inject_Z_plus.
      change (inject_Z 2) with 2%Q. lra. }
    lia. }
  destruct (py_round_cases x) as [[-> Hr]|[-> Hr]]; fold f in Hr;
    destruct Hf as [->| ->]; auto.
  - exfalso. rewrite inject_Z_plus in Hk1. change (inject_Z 1) with 1%Q in Hk1. lra.
  - exfalso. lra.
Qed.

Lemma py_round_of_int (x : Q) (k : Z) : (x == inject_Z k)%Q → py_round x = k.
Proof.
  intros H. apply py_round_unique. rewrite H.
  assert (E : (inject_Z k - inject_Z k == 0)%Q) by ring.
  rewrite E. reflexivity.
Qed.

(** ** Doubles *)

Lemma pow2_pos (e : Z) : (0 < pow2 e)%Q.
Proof.
  unfold pow2. destruct (0 <=? e)%Z eqn:E.
  - change 0%Q with (inject_Z 0). rewrite <- Zlt_Qlt.
    apply Z.pow_pos_nonneg; lia.
  - reflexivity.
Qed.

Lemma pow2_inv (e : Z) : (e <= 0)%Z → (inject_Z (2 ^ (- e)) * pow2 e == 1)%Q.
Proof.
  intros He. unfold pow2. destruct (0 <=? e)%Z eqn:E.
  - replace e with 0%Z by lia. reflexivity.
  - assert (Hp : (0 < 2 ^ (- e))%Z) by (apply Z.pow_pos_nonneg; lia).
    unfold Qeq, Qmult, inject_Z. cbn [Qnum Qden].
    rewrite Pos.mul_1_l, Z2Pos.id by exact Hp. lia.
Qed.

Lemma Qred_inject_Z (x : Q) (z : Z) : (x == inject_Z z)%Q → Qred x = inject_Z z.
Proof.
  intros H. rewrite (Qred_complete _ _ H). unfold Qred, inject_Z.
  pose proof (Z.ggcd_gcd z 1) as Hg.
  pose proof (Z.ggcd_correct_divisors z 1) as Hd.
  destruct (Z.ggcd z 1) as [g [aa bb]]. cbn [fst snd] in *.
  rewrite Z.gcd_1_r in Hg. subst g. destruct Hd as [Ha Hb].
  replace aa with z by lia. replace bb with 1%Z by lia. reflexivity.
Qed.

(** An integer of magnitude at most [2^53] is a double. *)
Lemma round_double_int (z : Z) :
  (Z.abs z <= 2 ^ 53)%Z → round_double (inject_Z z) = Fin (inject_Z z).
Proof.
  intros Hz. unfold round_double.
  change (Qabs (inject_Z z)) with (inject_Z (Z.abs z)).
  cbn [Qnum Qden inject_Z]. fold (inject_Z (Z.abs z)). fold (inject_Z z).
  change (Z.log2 1) with 0%Z.
  set (n := Z.abs z) in *.
  destruct (Qeq_bool (inject_Z n) 0) eqn:E0.
  { apply Qeq_bool_iff in E0. apply (inject_Z_injective n 0%Z) in E0.
    replace z with 0%Z by lia. reflexivity. }
  assert (Hn : (0 < n)%Z).
  { destruct (Z.eq_dec n 0%Z) as [->|]; [discriminate|lia]. }
  pose proof (Z.log2_spec n Hn) as [HL1 HL2].
  assert (HL : (Z.log2 n <= 53)%Z).
  { rewrite <- (Z.log2_pow2 53%Z) by lia. now apply Z.log2_le_mono. }
  set (e0 := (Z.log2 n - 0 - 52)%Z).
  set (e1 := if Qle_bool (inject_Z (2 ^ 52)) (inject_Z n / pow2 e0)
             then e0 else (e0 - 1)%Z).
  set (e := Z.max e1 (-1074)).
  assert (He : (e <= 0)%Z ∨ (e = 1%Z ∧ n = (2 ^ 53)%Z)).
  { assert (He1 : (e1 <= e0)%Z) by (unfold e1; destruct (Qle_bool _ _); lia).
    destruct (Z.eq_dec (Z.log2 n) 53%Z) as [HL53|HL53].
    - assert (n = 2 ^ 53)%Z by (rewrite HL53 in HL1; lia).
      unfold e, e0 in *. lia.
    - left. unfold e, e0 in *. lia. }
  assert (Hk : ∃ k, (inject_Z k * pow2 e == inject_Z n)%Q).
  { destruct He as [He|[-> Hn53]].
    - exists (n * 2 ^ (- e))%Z. rewrite inject_Z_mult, <- Qmult_assoc.
      rewrite (pow2_inv e He). ring.
    - exists (2 ^ 52)%Z. rewrite Hn53. reflexivity. }
  destruct Hk as [k Hk].
  assert (Hm : py_round (inject_Z n / pow2 e) = k).
  { apply py_round_of_int. rewrite <- Hk.
    apply Qdiv_mult_l. intros H. pose proof (pow2_pos e) as Hp.
    rewrite H in Hp. discriminate Hp. }
  rewrite Hm.
  destruct (Qle_bool (inject_Z (2 ^ 1024)) (inject_Z k * pow2 e)) eqn:Eov.
  { exfalso. apply Qle_bool_iff in Eov. rewrite Hk in Eov.
    rewrite <- Zle_Qle in Eov.
    assert (2 ^ 53 < 2 ^ 1024)%Z by (apply Z.pow_lt_mono_r; lia). lia. }
  f_equal. apply Qred_inject_Z.
  destruct (Qle_bool 0 (inject_Z z)) eqn:Es.
  - rewrite Hk. apply Qle_bool_iff in Es.
    change 0%Q with (inject_Z 0) in Es. rewrite <- Zle_Qle in Es.
    unfold n. now rewrite Z.abs_eq.
  - rewrite Hk. assert (z < 0)%Z.
    { destruct (Z_lt_le_dec z 0%Z) as [H|H]; [exact H|].
      assert (Qle_bool 0 (inject_Z z) = true); [|congruence].
      apply Qle_bool_iff. change 0%Q with (inject_Z 0). now rewrite <- Zle_Qle. }
    unfold n. rewrite Z.abs_neq by lia. rewrite inject_Z_opp. ring.
Qed.

(** Rounding to a double commutes with negation. *)
Lemma round_double_opp (q : Q) : round_double (- q) = fneg (round_double q).
Proof.
  unfold round_double.
  assert (Ea : Qabs (- q) = Qabs q).
  { destruct q as [a d]. unfold Qabs, Qopp. cbn [Qnum Qden]. now rewrite Z.abs_opp. }
  assert (En : Z.abs (Qnum (- q)) = Z.abs (Qnum q)).
  { destruct q as [a d]. cbn [Qopp Qnum]. apply Z.abs_opp. }
  rewrite Ea, En. change (Qden (- q)) with (Qden q).
  destruct (Qeq_bool (Qabs q) 0) eqn:E0; [reflexivity|].
  set (e := Z.max _ (-1074)). set (v := (inject_Z _ * pow2 e)%Q).
  assert (Hq : ¬ (q == 0)%Q).
  { intros H. assert (Qeq_bool (Qabs q) 0 = true); [|congruence].
    apply Qeq_bool_iff. now rewrite H. }
  assert (Es : Qle_bool 0 (- q) = negb (Qle_bool 0 q)).
  { destruct (Qle_bool 0 q) eqn:E1.
    - apply Qle_bool_iff in E1. cbn [negb].
      destruct (Qle_bool 0 (- q)) eqn:E2; [|reflexivity].
      apply Qle_bool_iff in E2. exfalso. apply Hq. lra.
    - cbn [negb]. apply Qle_bool_iff.
      destruct (Qlt_le_dec q 0) as [H|H]; [lra|].
      apply Qle_bool_iff in H. congruence. }
  rewrite Es.
  destruct (Qle_bool (inject_Z (2 ^ 1024)) v); destruct (Qle_bool 0 q);
    cbn [negb fneg]; try reflexivity.
  - now rewrite Qred_opp.
  - rewrite Qred_opp. f_equal.
    destruct (Qred v) as [a d]. unfold Qopp. cbn [Qnum Qden].
    now rewrite Z.opp_involutive.
Qed.

Lemma Qabs_opp_eq (q : Q) : Qabs (- q) = Qabs q.
Proof.
  destruct q as [a d]. unfold Qabs, Qopp. cbn [Qnum Qden]. now rewrite Z.abs_opp.
Qed.

Lemma fabs_fneg (x : pyfloat) : fabs (fneg x) = fabs x.
Proof. destruct x; cbn [fabs fneg]; try reflexivity. now rewrite Qabs_opp_eq. Qed.

(** [|x - y|] and [|y - x|] are the same float. *)
Lemma fabs_fsub_swap (x y : pyfloat) : fabs (fsub x y) = fabs (fsub y x).
Proof.
  destruct x as [a| | |], y as [b| | |]; try reflexivity;
    unfold fsub; cbn [fneg fadd fabs]; try reflexivity.
  replace (b + - a)%Q with (- (a + - b))%Q.
  - now rewrite round_double_opp, fabs_fneg.
  - destruct a as [an ad], b as [bn bd]. unfold Qplus, Qopp. cbn [Qnum Qden].
    f_equal; [ring | apply Pos.mul_comm].
Qed.

Lemma inject_Z_plus_eq (a b : Z) :
  (inject_Z a + inject_Z b)%Q = inject_Z (a + b).
Proof. unfold Qplus, inject_Z. cbn [Qnum Qden]. f_equal. lia. Qed.

(** Sums of integers are exact up to [2^53]. *)
Lemma fadd_int (a b : Z) :
  (Z.abs (a + b) <= 2 ^ 53)%Z →
  fadd (Fin (inject_Z a)) (Fin (inject_Z b)) = Fin (inject_Z (a + b)).
Proof.
  intros H. cbn [fadd]. rewrite inject_Z_plus_eq. now apply round_double_int.
Qed.

Lemma fgt_int (a b : Z) :
  fgt (Fin (inject_Z a)) (Fin (inject_Z b)) = (b <? a)%Z.
Proof.
  cbn [fgt]. destruct (b <? a)%Z eqn:E.
  - apply negb_true_iff. destruct (Qle_bool _ _) eqn:E2; [|reflexivity].
    apply Qle_bool_iff in E2. rewrite <- Zle_Qle in E2. lia.
  - apply negb_false_iff, Qle_bool_iff. rewrite <- Zle_Qle. lia.
Qed.

Lemma fne_int (a b : Z) :
  fne (Fin (inject_Z a)) (Fin (inject_Z b)) = negb (a =? b)%Z.
Proof.
  cbn [fne]. f_equal. destruct (a =? b)%Z eqn:E.
  - apply Qeq_bool_iff. apply Z.eqb_eq in E. now subst.
  - destruct (Qeq_bool _ _) eqn:E2; [|reflexivity].
    apply Qeq_bool_iff in E2. unfold Qeq in E2. cbn [inject_Z Qnum Qden] in E2.
    apply Z.eqb_neq in E. lia.
Qed.

(** [float] of an integer value. *)
Lemma float_of_int_exact (z : Z) :
  (Z.abs z <= 2 ^ 53)%Z → float_of_int z = Ok (Fin (inject_Z z)).
Proof. intros H. unfold float_of_int. now rewrite round_double_int. Qed.

(** [str] of a natural number is injective. *)
Lemma str_of_nat_inj (i j : nat) : str_of_nat i = str_of_nat j → i = j.
Proof.
  unfold str_of_nat. intros H. apply Unsigned.to_uint_inj.
  assert (Hs : Some (Nat.to_uint i) = Some (Nat.to_uint j)).
  { rewrite <- !NilEmpty.usu. now rewrite H. }
  now injection Hs.
Qed.

End PyProofs.

(* ===================================================================== *)
(** * Properties of knapsack_utils.py                                     *)
(* ===================================================================== *)

Section KnapsackProofs.
Import Py knapsack_utils knapsack_ref.

Lemma getitem_in_range {A : Type} (l : list A) (z : Z) (x : A) :
  (0 <= z)%Z → l !! Z.to_nat z = Some x → getitem l z = Ok x.
Proof.
  intros Hz Hl. unfold getitem.
  pose proof (lookup_lt_Some _ _ _ Hl) as Hlt.
  destruct (z <? 0)%Z eqn:E; [lia|].
  destruct ((z <? 0)%Z || (Z.of_nat (length l) <=? z)%Z) eqn:E2.
  - apply orb_true_iff in E2 as [E2|E2]; lia.
  - now rewrite Hl.
Qed.

Lemma getitem_pred {A : Type} (l : list A) (i : nat) (x : A) :
  l !! i = Some x → getitem l (Z.of_nat (S i) - 1) = Ok x.
Proof.
  intros H. apply getitem_in_range; [lia|].
  replace (Z.to_nat (Z.of_nat (S i) - 1)) with i by lia. exact H.
Qed.

Lemma getitem_nat {A : Type} (l : list A) (i : nat) (x : A) :
  l !! i = Some x → getitem l (Z.of_nat i) = Ok x.
Proof.
  intros H. apply getitem_in_range; [lia|]. now rewrite Nat2Z.id.
Qed.

Lemma setitem_in_range {A : Type} (l : list A) (z : Z) (x : A) :
  (0 <= z < Z.of_nat (length l))%Z →
  setitem l z x = Ok (<[Z.to_nat z := x]> l).
Proof.
  intros Hz. unfold setitem.
  destruct (z <? 0)%Z eqn:E; [lia|].
  destruct ((z <? 0)%Z || (Z.of_nat (length l) <=? z)%Z) eqn:E2; [|reflexivity].
  apply orb_true_iff in E2 as [E2|E2]; lia.
Qed.

Lemma range_cons (lo hi : Z) :
  (lo < hi)%Z → range lo hi = lo :: range (lo + 1) hi.
Proof.
  intros H. unfold range.
  replace (Z.to_nat (hi - lo)) with (S (Z.to_nat (hi - (lo + 1)))) by lia.
  simpl. f_equal; [lia|].
  rewrite <- seq_shift, map_map. apply map_ext. intros a. lia.
Qed.

Lemma range_nil (lo hi : Z) : (hi <= lo)%Z → range lo hi = [].
Proof. intros H. unfold range. now replace (Z.to_nat (hi - lo)) with 0%nat by lia. Qed.

Lemma length_range (lo hi : Z) : length (range lo hi) = Z.to_nat (hi - lo).
Proof. unfold range. now rewrite length_map, length_seq. Qed.

Lemma nth_lookup_float (l : list pyfloat) (i : nat) :
  i < length l → l !! i = Some (nth i l (Fin 0)).
Proof.
  intros H. destruct (lookup_lt_is_Some_2 l i H) as [x Hx].
  rewrite Hx. f_equal. symmetry. now apply nth_lookup_Some.
Qed.

(** One cell of the table, as the loop body computes it. *)
Lemma fill_cell_spec (i : nat) (v_i : pyfloat) (w_i w : Z)
    (dp : list (list pyfloat)) (prev cur : list pyfloat) :
  (0 <= w_i)%Z → (0 <= w < Z.of_nat (length prev))%Z →
  length cur = length prev →
  dp !! i = Some prev → dp !! S i = Some cur →
  fill_cell (S i) v_i w_i dp w
  = Ok (<[S i := <[Z.to_nat w := cell prev v_i w_i w]> cur]> dp).
Proof.
  intros Hwi Hw Hlen Hprev Hcur. unfold fill_cell.
  rewrite (getitem_pred _ _ _ Hprev). cbn [bind].
  rewrite (getitem_in_range prev w (nth (Z.to_nat w) prev (Fin 0)));
    [|lia|apply nth_lookup_float; lia].
  cbn [bind].
  assert (Hset : ∀ b, (row ←! getitem dp (Z.of_nat (S i));
                       row' ←! setitem row w b;
                       setitem dp (Z.of_nat (S i)) row')
                      = Ok (<[S i := <[Z.to_nat w := b]> cur]> dp)).
  { intros b. rewrite (getitem_nat _ _ _ Hcur). cbn [bind].
    rewrite setitem_in_range by lia. cbn [bind].
    rewrite setitem_in_range.
    - now rewrite Nat2Z.id.
    - pose proof (lookup_lt_Some _ _ _ Hcur). lia. }
  unfold cell. destruct (w_i <=? w)%Z eqn:E.
  - rewrite (getitem_in_range prev (w - w_i)
               (nth (Z.to_nat (w - w_i)) prev (Fin 0)));
      [|lia|apply nth_lookup_float; lia].
    cbn [bind]. apply Hset.
  - cbn [bind]. apply Hset.
Qed.

(** The inner loop writes row [S i] cell by cell, from column [j] on. *)
Lemma fill_cells_spec (i : nat) (v_i : pyfloat) (w_i capacity : Z)
    (prev : list pyfloat) :
  (0 <= w_i)%Z → length prev = Z.to_nat (capacity + 1) →
  ∀ (k : nat) (j : Z) (dp : list (list pyfloat)) (cur : list pyfloat),
    k = Z.to_nat (capacity + 1 - j) → (0 <= j)%Z →
    length cur = length prev →
    dp !! i = Some prev → dp !! S i = Some cur →
    for_each (fill_cell (S i) v_i w_i) (range j (capacity + 1)) dp
    = Ok (<[S i := take (Z.to_nat j) cur
                   ++ map (cell prev v_i w_i) (range j (capacity + 1))]> dp).
Proof.
  intros Hwi Hprev. induction k as [|k IH]; intros j dp cur Hk Hj Hlen Hp Hc.
  - rewrite range_nil by lia. cbn [for_each map]. f_equal.
    rewrite app_nil_r, take_ge by lia. symmetry. now apply list_insert_id.
  - rewrite range_cons by lia. cbn [for_each map].
    rewrite (fill_cell_spec i v_i w_i j dp prev cur) by (auto; lia).
    cbn [bind].
    pose proof (lookup_lt_Some _ _ _ Hc) as HSi.
    rewrite (IH (j + 1)%Z _ (<[Z.to_nat j := cell prev v_i w_i j]> cur)).
    + rewrite list_insert_insert_eq. do 2 f_equal.
      replace (Z.to_nat (j + 1)) with (S (Z.to_nat j)) by lia.
      rewrite (take_S_r _ _ (cell prev v_i w_i j)).
      * rewrite take_insert_ge by lia. now rewrite <- app_assoc.
      * apply list_lookup_insert_eq. lia.
    + lia.
    + lia.
    + now rewrite length_insert.
    + rewrite list_lookup_insert_ne by lia. exact Hp.
    + now apply list_lookup_insert_eq.
Qed.

Lemma length_next_row (capacity : Z) (prev : list pyfloat) (it : fitem) :
  length (next_row capacity prev it) = Z.to_nat (capacity + 1).
Proof. unfold next_row. rewrite length_map, length_range. f_equal. lia. Qed.

Lemma length_zero_row (capacity : Z) :
  length (zero_row capacity) = Z.to_nat (capacity + 1).
Proof. unfold zero_row. apply length_replicate. Qed.

(** One pass of the outer loop converts the value and replaces row [S i]
    by [next_row]; it raises what the conversion raises. *)
Lemma fill_row_spec (values : list pynum) (w_ints : list Z) (capacity : Z)
    (dp : list (list pyfloat)) (i : nat) (prev cur : list pyfloat)
    (x : pynum) (wt : Z) :
  (0 <= wt)%Z → length prev = Z.to_nat (capacity + 1) →
  length cur = length prev →
  values !! i = Some x → w_ints !! i = Some wt →
  dp !! i = Some prev → dp !! S i = Some cur →
  fill_row values w_ints capacity dp (S i)
  = (v ←! to_float x; Ok (<[S i := next_row capacity prev (v, wt)]> dp)).
Proof.
  intros Hwt Hprev Hcur Hv Hw Hp Hc. unfold fill_row.
  rewrite (getitem_pred _ _ _ Hv). cbn [bind].
  destruct (to_float x) as [v|e]; cbn [bind]; [|reflexivity].
  rewrite (getitem_pred _ _ _ Hw). cbn [bind].
  rewrite (fill_cells_spec i v wt capacity prev Hwt Hprev
             (Z.to_nat (capacity + 1 - 0)) 0%Z dp cur); auto; lia.
Qed.

(** The outer loop, started on a table whose rows up to [i] are final and
    whose later rows are still zero, produces the rows of [rows_from] for
    the converted items, or raises what the first failing conversion
    raises. *)
Lemma fill_rows_spec (values : list pynum) (w_ints : list Z) (capacity : Z) :
  Forall (fun z => (0 <= z)%Z) w_ints →
  ∀ (rest : list (pynum * Z)) (done : list (list pyfloat)) (prev : list pyfloat),
    length prev = Z.to_nat (capacity + 1) →
    drop (length done) (zip values w_ints) = rest →
    for_each (fill_row values w_ints capacity)
      (seq (S (length done)) (length rest))
      (done ++ prev :: replicate (length rest) (zero_row capacity))
    = (items ←! convert_items rest;
       Ok (done ++ rows_from capacity prev items)).
Proof.
  intros Hpos. induction rest as [|[x wt] rest IH]; intros done prev Hprev Hdrop.
  - reflexivity.
  - cbn [length seq for_each replicate].
    assert (Hit : zip values w_ints !! length done = Some (x, wt)).
    { rewrite <- (Nat.add_0_r (length done)), <- lookup_drop, Hdrop. reflexivity. }
    apply lookup_zip_with_Some in Hit as (x' & wt' & Heq & Hv & Hw).
    injection Heq as <- <-.
    assert (Hwt : (0 <= wt)%Z).
    { eapply Forall_lookup_1 in Hpos; eauto. }
    rewrite (fill_row_spec values w_ints capacity _ (length done) prev
               (zero_row capacity) x wt); auto.
    + unfold convert_items. cbn [traverse fst snd].
      destruct (to_float x) as [v|e]; cbn [bind]; [|reflexivity].
      replace (<[S (length done) := next_row capacity prev (v, wt)]>
                 (done ++ prev :: zero_row capacity
                       :: replicate (length rest) (zero_row capacity)))
        with ((done ++ [prev]) ++ next_row capacity prev (v, wt)
                :: replicate (length rest) (zero_row capacity)).
      * replace (S (S (length done))) with (S (length (done ++ [prev])))
          by (rewrite length_app; simpl; lia).
        rewrite IH.
        -- fold (convert_items rest).
           destruct (convert_items rest) as [items|e]; cbn [bind]; [|reflexivity].
           cbn [rows_from]. now rewrite <- app_assoc.
        -- apply length_next_row.
        -- rewrite length_app. simpl.
           rewrite <- (drop_drop _ 1 (length done)), Hdrop. reflexivity.
      * rewrite <- app_assoc. simpl.
        replace (S (length done)) with (length done + 1)%nat by lia.
        now rewrite insert_app_r.
    + rewrite length_zero_row. congruence.
    + now apply list_lookup_middle.
    + replace (S (length done)) with (length done + 1)%nat by lia.
      rewrite lookup_app_r by lia.
      replace (length done + 1 - length done)%nat with 1%nat by lia.
      reflexivity.
Qed.

(** The imperative table equals the row-by-row table of the converted
    items. *)
Lemma fill_table_spec (values : list pynum) (w_ints : list Z) (capacity : Z) :
  Forall (fun z => (0 <= z)%Z) w_ints →
  length values = length w_ints →
  fill_table values w_ints capacity
  = (items ←! convert_items (zip values w_ints);
     Ok (rows_from capacity (zero_row capacity) items)).
Proof.
  intros Hpos Hlen. unfold fill_table.
  pose proof (fill_rows_spec values w_ints capacity Hpos
                (zip values w_ints) [] (zero_row capacity)
                (length_zero_row capacity) eq_refl) as H.
  cbn [length app] in H.
  rewrite length_zip_with, <- Hlen, Nat.min_id in H.
  rewrite <- H. f_equal.
  replace (length values + 1)%nat with (S (length values)) by lia.
  reflexivity.
Qed.

(** The conversion of the items of a valid instance. *)
Lemma convert_items_Ok (values : list pynum) (w_ints : list Z) :
  Forall convertible values → length values = length w_ints →
  ∃ fvals, Forall2 (fun v f => to_float v = Ok f) values fvals
           ∧ convert_items (zip values w_ints) = Ok (zip fvals w_ints).
Proof.
  intros Hc. revert w_ints.
  induction Hc as [|v values [f Hf] _ IH]; intros [|wt w_ints]; try discriminate.
  - exists []. split; [constructor|reflexivity].
  - intros [= Hlen]. destruct (IH w_ints Hlen) as (fvals & H2 & Hconv).
    exists (f :: fvals). split; [now constructor|].
    unfold convert_items in *. cbn [zip zip_with traverse fst snd].
    rewrite Hf. cbn [bind]. now rewrite Hconv.
Qed.

Lemma convert_items_length (l : list (pynum * Z)) (items : list fitem) :
  convert_items l = Ok items →
  length items = length l ∧ map snd items = map snd l.
Proof.
  revert items. unfold convert_items.
  induction l as [|[x wt] l IH]; intros items; cbn [traverse fst snd].
  - now intros [= <-].
  - destruct (to_float x) as [f|]; cbn [bind]; [|discriminate].
    destruct (traverse _ l) as [fs|]; cbn [bind]; [|discriminate].
    intros [= <-]. destruct (IH fs eq_refl) as [H1 H2]. simpl. now rewrite H1, H2.
Qed.

(** Only [OverflowError] can leave the conversion. *)
Lemma to_float_raises_overflow (x : pynum) (e : exn) :
  to_float x = Raise e → e = OverflowError.
Proof.
  destruct x as [z|f|q]; cbn [to_float]; [| discriminate |].
  - unfold float_of_int. destruct (round_double _); congruence.
  - destruct (round_double _); congruence.
Qed.

Lemma convert_items_raises (l : list (pynum * Z)) (e : exn) :
  convert_items l = Raise e → e = OverflowError.
Proof.
  unfold convert_items. induction l as [|[x wt] l IH]; cbn [traverse fst snd];
    [discriminate|].
  destruct (to_float x) as [f|e'] eqn:Ef; cbn [bind].
  - destruct (traverse _ l) as [fs|e']; cbn [bind]; [discriminate|].
    intros [= <-]. now apply IH.
  - intros [= <-]. eapply to_float_raises_overflow, Ef.
Qed.

(** ** The rows *)

Lemma lookup_map {A B : Type} (f : A → B) (l : list A) (i : nat) :
  map f l !! i = option_map f (l !! i).
Proof.
  revert i. induction l as [|x l IH]; intros [|i]; simpl; auto.
Qed.

Lemma lookup_range (lo hi : Z) (i : nat) :
  i < Z.to_nat (hi - lo) → range lo hi !! i = Some (lo + Z.of_nat i)%Z.
Proof.
  intros H. unfold range. rewrite lookup_map, lookup_seq_lt by exact H.
  reflexivity.
Qed.

Lemma nth_next_row (capacity : Z) (prev : list pyfloat) (it : fitem) (w : Z) :
  (0 <= w <= capacity)%Z →
  nth (Z.to_nat w) (next_row capacity prev it) (Fin 0)
  = cell prev (fst it) (snd it) w.
Proof.
  intros Hw. apply nth_lookup_Some. unfold next_row.
  rewrite lookup_map, lookup_range by lia. simpl. do 2 f_equal. lia.
Qed.


(** NaN never enters the table: a sum is stored only when it compares
    greater than the cell above, and no comparison with NaN holds. *)
Lemma nth_no_nan (row : list pyfloat) (i : nat) :
  no_nan row → nth i row (Fin 0) ≠ NaN.
Proof.
  intros H. destruct (decide (i < length row)) as [Hi|Hi].
  - destruct (lookup_lt_is_Some_2 row i Hi) as [x Hx].
    rewrite (nth_lookup_Some _ _ _ _ Hx).
    eapply (Forall_lookup_1 _ _ _ _ H), Hx.
  - rewrite nth_overflow by lia. discriminate.
Qed.

Lemma fgt_not_nan (x y : pyfloat) : fgt x y = true → x ≠ NaN.
Proof. intros H ->. discriminate. Qed.

Lemma cell_no_nan (prev : list pyfloat) (v : pyfloat) (wt w : Z) :
  no_nan prev → cell prev v wt w ≠ NaN.
Proof.
  intros H. unfold cell. destruct (wt <=? w)%Z; [|now apply nth_no_nan].
  destruct (fgt _ _) eqn:E; [eapply fgt_not_nan, E|now apply nth_no_nan].
Qed.

Lemma next_row_no_nan (capacity : Z) (prev : list pyfloat) (it : fitem) :
  no_nan prev → no_nan (next_row capacity prev it).
Proof.
  intros H. unfold no_nan, next_row. apply List.Forall_map.
  apply Forall_forall. intros w _. now apply cell_no_nan.
Qed.

Lemma zero_row_no_nan (capacity : Z) : no_nan (zero_row capacity).
Proof.
  unfold no_nan, zero_row. now apply Forall_replicate.
Qed.

Lemma row_after_no_nan (capacity : Z) (items : list fitem) :
  ∀ prev, no_nan prev → no_nan (row_after capacity prev items).
Proof.
  induction items as [|it items IH]; intros prev H; [exact H|].
  apply IH. now apply next_row_no_nan.
Qed.

Lemma table_row_no_nan (items : list fitem) (capacity : Z) (k : nat) :
  no_nan (table_row items capacity k).
Proof. apply row_after_no_nan, zero_row_no_nan. Qed.

Lemma fne_same (x : pyfloat) : x ≠ NaN → fne x x = false.
Proof.
  destruct x as [q| | |]; cbn [fne]; try reflexivity; [|congruence].
  intros _. apply negb_false_iff, Qeq_bool_iff. reflexivity.
Qed.

(** An item that does not fit leaves the cell as it is in the row above. *)
Lemma cell_unfit (prev : list pyfloat) (v : pyfloat) (wt w : Z) :
  (w < wt)%Z → cell prev v wt w = nth (Z.to_nat w) prev (Fin 0).
Proof.
  intros H. unfold cell. destruct (wt <=? w)%Z eqn:E; [lia|reflexivity].
Qed.

Lemma row_after_snoc (capacity : Z) (prev : list pyfloat) (items : list fitem)
    (it : fitem) :
  row_after capacity prev (items ++ [it])
  = next_row capacity (row_after capacity prev items) it.
Proof. unfold row_after. now rewrite fold_left_app. Qed.

(** ** Reconstruction *)

Lemma rows_from_lookup (capacity : Z) (items : list fitem) :
  ∀ (prev : list pyfloat) (i : nat), i ≤ length items →
    rows_from capacity prev items !! i
    = Some (row_after capacity prev (take i items)).
Proof.
  induction items as [|it items IH]; intros prev i Hi.
  - simpl in Hi. now replace i with 0%nat by lia.
  - destruct i as [|i]; [reflexivity|]. simpl in Hi.
    cbn [rows_from take]. rewrite lookup_cons. apply IH. lia.
Qed.

Lemma length_row_after (capacity : Z) (prev : list pyfloat) (items : list fitem) :
  length prev = Z.to_nat (capacity + 1) →
  length (row_after capacity prev items) = Z.to_nat (capacity + 1).
Proof.
  revert prev. induction items as [|it items IH]; intros prev H; [exact H|].
  apply IH, length_next_row.
Qed.

Lemma length_table_row (items : list fitem) (capacity : Z) (k : nat) :
  length (table_row items capacity k) = Z.to_nat (capacity + 1).
Proof. apply length_row_after, length_zero_row. Qed.

Lemma table_row_S (items : list fitem) (capacity : Z) (k : nat) (it : fitem) :
  items !! k = Some it →
  table_row items capacity (S k)
  = next_row capacity (table_row items capacity k) it.
Proof.
  intros H. unfold table_row.
  rewrite (take_S_r _ _ it H). apply row_after_snoc.
Qed.

Lemma table_lookup (items : list fitem) (capacity : Z) (k : nat) :
  k ≤ length items →
  rows_from capacity (zero_row capacity) items !! k
  = Some (table_row items capacity k).
Proof. apply rows_from_lookup. Qed.

Lemma getitem_row (row : list pyfloat) (w : Z) :
  (0 <= w < Z.of_nat (length row))%Z →
  getitem row w = Ok (nth (Z.to_nat w) row (Fin 0)).
Proof.
  intros H. apply getitem_in_range; [lia|]. apply nth_lookup_float. lia.
Qed.

Lemma weight_of_app (w_ints : list Z) (s t : list nat) :
  weight_of w_ints (s ++ t) = (weight_of w_ints s + weight_of w_ints t)%Z.
Proof. induction s as [|x s IH]; simpl; lia. Qed.

Lemma value_of_app (values : list Q) (s t : list nat) :
  (value_of values (s ++ t) == value_of values s + value_of values t)%Q.
Proof.
  induction s as [|x s IH]; simpl; [lra|]. rewrite IH. lra.
Qed.

Lemma weight_of_rev (w_ints : list Z) (s : list nat) :
  weight_of w_ints (rev s) = weight_of w_ints s.
Proof.
  induction s as [|x s IH]; simpl; [reflexivity|].
  rewrite weight_of_app, IH. simpl. lia.
Qed.

Lemma value_of_rev (values : list Q) (s : list nat) :
  (value_of values (rev s) == value_of values s)%Q.
Proof.
  induction s as [|x s IH]; simpl; [lra|].
  rewrite value_of_app, IH. simpl. lra.
Qed.

(** One step of the reconstruction keeps the invariant and cannot raise:
    it leaves the state as it is when the two cells are equal, and else
    selects item [k], which fits in what is left of the capacity. *)
Lemma recon_step_spec (items : list fitem) (w_ints : list Z) (capacity : Z)
    (k : nat) (st : recon_state) :
  Forall (fun z => (0 <= z)%Z) w_ints →
  map snd items = w_ints → k < length items →
  recon_inv (length items) w_ints capacity (S k) st →
  ∃ st', recon_step w_ints (rows_from capacity (zero_row capacity) items)
           st (S k) = Ok st'
         ∧ recon_inv (length items) w_ints capacity k st'
         ∧ ((fne (nth (Z.to_nat (rem_w st)) (table_row items capacity (S k)) (Fin 0))
                 (nth (Z.to_nat (rem_w st)) (table_row items capacity k) (Fin 0))
             = false ∧ st' = st)
            ∨ (fne (nth (Z.to_nat (rem_w st)) (table_row items capacity (S k)) (Fin 0))
                   (nth (Z.to_nat (rem_w st)) (table_row items capacity k) (Fin 0))
               = true
               ∧ ∃ v wt, items !! k = Some (v, wt) ∧ (wt <= rem_w st)%Z
                         ∧ st' = {| selected := selected st ++ [k];
                                    rem_w := (rem_w st - wt)%Z |})).
Proof.
  intros Hpos Hws Hk (Hw & Hsel & Hsort & Hwsum).
  destruct (lookup_lt_is_Some_2 items k Hk) as [[v wt] Hit].
  assert (Hwt : w_ints !! k = Some wt).
  { rewrite <- Hws, lookup_map. unfold fitem in *. now rewrite Hit. }
  assert (Hwt0 : (0 <= wt)%Z) by (eapply Forall_lookup_1 in Hpos; eauto).
  unfold recon_step.
  rewrite (getitem_nat _ _ _ (table_lookup items capacity (S k) ltac:(lia))).
  cbn [bind].
  rewrite getitem_row by (rewrite length_table_row; lia). cbn [bind].
  rewrite (getitem_pred _ _ _ (table_lookup items capacity k ltac:(lia))).
  cbn [bind].
  rewrite getitem_row by (rewrite length_table_row; lia). cbn [bind].
  rewrite (getitem_pred _ _ _ Hwt).
  destruct (fne _ _) eqn:E.
  - (* the cells differ: the item fits *)
    assert (Hfit : (wt <= rem_w st)%Z).
    { destruct (Z_le_gt_dec wt (rem_w st)) as [H|H]; [exact H|].
      rewrite (table_row_S items capacity k (v, wt) Hit) in E.
      rewrite nth_next_row in E by lia. cbn [fst snd] in E.
      rewrite cell_unfit in E by lia.
      rewrite fne_same in E; [discriminate|].
      apply nth_no_nan, table_row_no_nan. }
    cbn [bind]. eexists. split; [reflexivity|].
    cbn [Nat.sub]. rewrite Nat.sub_0_r. split.
    + unfold recon_inv. cbn [selected rem_w].
      split; [lia|]. split.
      { apply Forall_app. split.
        - eapply Forall_impl; [exact Hsel|]. simpl. intros; lia.
        - constructor; [lia|constructor]. }
      split.
      { rewrite rev_app_distr. simpl. constructor; [exact Hsort|].
        apply List.Forall_rev. eapply Forall_impl; [exact Hsel|].
        simpl. intros; lia. }
      rewrite weight_of_app. simpl.
      rewrite (nth_lookup_Some _ _ _ _ Hwt). lia.
    + right. split; [reflexivity|]. exists v, wt. auto.
  - exists st. split; [reflexivity|]. split.
    + repeat split; auto; try lia.
      eapply Forall_impl; [exact Hsel|]. simpl. intros; lia.
    + left. auto.
Qed.

Lemma rev_seq_S (k : nat) : rev (seq 1 (S k)) = S k :: rev (seq 1 k).
Proof. rewrite seq_S, rev_app_distr. reflexivity. Qed.

(** The whole reconstruction loop. *)
Lemma recon_loop_spec (items : list fitem) (w_ints : list Z) (capacity : Z) :
  Forall (fun z => (0 <= z)%Z) w_ints →
  map snd items = w_ints →
  ∀ (k : nat) (st : recon_state), k ≤ length items →
    recon_inv (length items) w_ints capacity k st →
    ∃ st', for_each
             (recon_step w_ints (rows_from capacity (zero_row capacity) items))
             (rev (seq 1 k)) st = Ok st'
           ∧ recon_inv (length items) w_ints capacity 0 st'.
Proof.
  intros Hpos Hws. induction k as [|k IH]; intros st Hk Hinv.
  - exists st. split; [reflexivity|exact Hinv].
  - rewrite rev_seq_S. cbn [for_each].
    destruct (recon_step_spec items w_ints capacity k st Hpos Hws ltac:(lia) Hinv)
      as (st1 & -> & Hinv1 & _).
    cbn [bind]. apply IH; [lia|exact Hinv1].
Qed.

(** ** Validation on a valid instance *)

Lemma integral_Q (q : Q) :
  is_integer (Fin q) = true → (q == inject_Z (int_of_Q q))%Q.
Proof.
  unfold is_integer, int_of_Q. intros H. apply Z.eqb_eq in H.
  apply Z.rem_mod_eq_0 in H; [|discriminate].
  apply Z.quot_exact in H; [|discriminate].
  unfold Qeq, inject_Z. simpl. lia.
Qed.

Lemma int_value_sound (x : pynum) (z : Z) :
  int_value x = Some z →
  x = PyInt z ∨ ∃ q, x = PyFloat (Fin q) ∧ is_integer (Fin q) = true
                     ∧ z = int_of_Q q ∧ (q == inject_Z z)%Q.
Proof.
  destruct x as [z'|[q| | |]|q]; simpl; try discriminate.
  - intros [= ->]. now left.
  - destruct (Qnum q mod Z.pos (Qden q) =? 0)%Z eqn:E; [|discriminate].
    intros [= <-]. right. exists q. repeat split; auto. now apply integral_Q.
Qed.

Lemma num_ltb0_valid (x : pynum) (z : Z) :
  int_value x = Some z → (0 <= z)%Z → num_ltb0 x = false.
Proof.
  intros H Hz. destruct (int_value_sound x z H) as [->|(q & -> & _ & _ & Hq)]; simpl.
  - lia.
  - apply negb_false_iff, Qle_bool_iff. rewrite Hq.
    change (inject_Z 0 <= inject_Z z)%Q. rewrite <- Zle_Qle. exact Hz.
Qed.

Lemma num_eqb0_valid (x : pynum) (z : Z) :
  int_value x = Some z → num_eqb0 x = (z =? 0)%Z.
Proof.
  intros H. destruct (int_value_sound x z H) as [->|(q & -> & _ & _ & Hq)]; simpl.
  - reflexivity.
  - destruct (z =? 0)%Z eqn:E.
    + apply Qeq_bool_iff. rewrite Hq. apply Z.eqb_eq in E. now subst.
    + destruct (Qeq_bool q 0) eqn:E2; [|reflexivity].
      apply Qeq_bool_iff in E2. rewrite Hq in E2.
      apply (inject_Z_injective z 0) in E2. lia.
Qed.

Lemma normalize_capacity_valid (x : pynum) (z : Z) :
  int_value x = Some z → normalize_capacity x = Ok z.
Proof.
  intros H. destruct (int_value_sound x z H) as [->|(q & -> & Hi & -> & _)].
  - reflexivity.
  - unfold normalize_capacity. now rewrite Hi.
Qed.

Lemma normalize_weight_valid (x : pynum) (z : Z) :
  int_value x = Some z → normalize_weight x = Ok z.
Proof.
  intros H. destruct (int_value_sound x z H) as [->|(q & -> & Hi & -> & _)].
  - reflexivity.
  - unfold normalize_weight. now rewrite Hi.
Qed.

Lemma normalize_weights_valid (weights : list pynum) (w_ints : list Z) :
  Forall2 (fun w z => int_value w = Some z ∧ (0 <= z)%Z) weights w_ints →
  normalize_weights weights = Ok w_ints
  ∧ existsb num_ltb0 weights = false
  ∧ Forall (fun z => (0 <= z)%Z) w_ints
  ∧ length weights = length w_ints.
Proof.
  induction 1 as [|w z ws zs [Hw Hz] _ (IH1 & IH2 & IH3 & IH4)]; [now repeat split|].
  cbn [normalize_weights existsb length].
  rewrite (normalize_weight_valid w z Hw), IH1, (num_ltb0_valid w z Hw Hz), IH2, IH4.
  repeat split; auto.
Qed.

(** ** The solver once the weights and the capacity are normalised *)

Lemma zip_snd (values : list pynum) (w_ints : list Z) :
  length values = length w_ints → map snd (zip values w_ints) = w_ints.
Proof.
  revert w_ints. induction values as [|v values IH]; intros [|wt w_ints];
    try discriminate; [reflexivity|].
  intros [= H]. cbn [zip zip_with map snd]. now rewrite (IH w_ints H).
Qed.

(** The table and the reconstruction: once every value is converted, what
    is returned is the last cell of the table and the reversed selection
    of the reconstruction loop, which does not raise; a value that does
    not convert raises [OverflowError]. *)
Lemma dp_and_reconstruct_run (values : list pynum) (w_ints : list Z) (cap : Z) :
  Forall (fun z => (0 <= z)%Z) w_ints → length values = length w_ints →
  (0 <= cap)%Z →
  match convert_items (zip values w_ints) with
  | Ok items =>
      length items = length values ∧ map snd items = w_ints
      ∧ ∃ st, for_each
                (recon_step w_ints (rows_from cap (zero_row cap) items))
                (rev (seq 1 (length values)))
                {| selected := []; rem_w := cap |} = Ok st
              ∧ recon_inv (length values) w_ints cap 0 st
              ∧ dp_and_reconstruct values w_ints cap
                = Ok (nth (Z.to_nat cap)
                        (table_row items cap (length values)) (Fin 0),
                      rev (selected st))
  | Raise e => dp_and_reconstruct values w_ints cap = Raise OverflowError
  end.
Proof.
  intros Hpos Hlen Hcap. unfold dp_and_reconstruct.
  rewrite (fill_table_spec values w_ints cap Hpos Hlen).
  destruct (convert_items (zip values w_ints)) as [items|e] eqn:Hconv; cbn [bind].
  2:{ now rewrite (convert_items_raises _ _ Hconv). }
  destruct (convert_items_length _ _ Hconv) as [Hli Hsnd].
  rewrite length_zip_with, <- Hlen, Nat.min_id in Hli.
  rewrite (zip_snd values w_ints Hlen) in Hsnd.
  split; [exact Hli|]. split; [exact Hsnd|].
  rewrite (getitem_nat _ _ _ (table_lookup items cap (length values) ltac:(lia))).
  cbn [bind].
  rewrite getitem_row by (rewrite length_table_row; lia). cbn [bind].
  destruct (recon_loop_spec items w_ints cap Hpos Hsnd (length values)
              {| selected := []; rem_w := cap |} ltac:(lia))
    as (st & Hrun & Hinv).
  { unfold recon_inv. cbn [selected rem_w]. repeat split; try lia.
    - constructor.
    - constructor. }
  rewrite Hli in Hinv. exists st. split; [exact Hrun|]. split; [exact Hinv|].
  now rewrite Hrun.
Qed.

Lemma dp_and_reconstruct_spec (values : list pynum) (w_ints : list Z) (cap : Z) :
  Forall (fun z => (0 <= z)%Z) w_ints → length values = length w_ints →
  (0 <= cap)%Z →
  match convert_items (zip values w_ints) with
  | Ok items =>
      ∃ sel, dp_and_reconstruct values w_ints cap
             = Ok (nth (Z.to_nat cap) (table_row items cap (length values)) (Fin 0),
                   sel)
             ∧ StronglySorted lt sel
             ∧ Forall (fun j => j < length values) sel
             ∧ (weight_of w_ints sel <= cap)%Z
  | Raise e => dp_and_reconstruct values w_ints cap = Raise OverflowError
  end.
Proof.
  intros Hpos Hlen Hcap.
  pose proof (dp_and_reconstruct_run values w_ints cap Hpos Hlen Hcap) as H.
  destruct (convert_items (zip values w_ints)) as [items|e]; [|exact H].
  destruct H as (_ & _ & st & _ & (Hw & Hsel & Hsort & Hwsum) & Hrun).
  eexists. split; [exact Hrun|].
  split; [exact Hsort|]. split.
  { apply List.Forall_rev. eapply Forall_impl; [exact Hsel|]. simpl. intros; lia. }
  rewrite weight_of_rev. lia.
Qed.

(** The validation of a valid instance that reaches the table. *)
Lemma solve_knapsack_01_valid (values weights : list pynum)
    (capacity : pynum) (w_ints : list Z) (cap : Z) :
  valid_instance values weights capacity w_ints cap →
  values ≠ [] → cap ≠ 0%Z →
  solve_knapsack_01 values weights capacity
  = dp_and_reconstruct values w_ints cap.
Proof.
  intros (Hlen & _ & Hws & Hcap & Hcap0) Hne Hnz.
  destruct (normalize_weights_valid weights w_ints Hws) as (Hnw & Hneg & Hpos & Hlw).
  unfold solve_knapsack_01.
  rewrite <- Hlen, Nat.eqb_refl. cbn [negb].
  rewrite (num_ltb0_valid capacity cap Hcap Hcap0).
  rewrite (num_eqb0_valid capacity cap Hcap).
  destruct (length values =? 0)%nat eqn:En.
  { apply Nat.eqb_eq in En. destruct values; [congruence|simpl in En; lia]. }
  destruct (cap =? 0)%Z eqn:Ec; [lia|]. cbn [orb].
  now rewrite Hneg, (normalize_capacity_valid capacity cap Hcap), Hnw.
Qed.

Lemma solve_knapsack_01_table (values weights : list pynum)
    (capacity : pynum) (w_ints : list Z) (cap : Z) :
  valid_instance values weights capacity w_ints cap →
  values ≠ [] → cap ≠ 0%Z →
  ∃ fvals sel,
    Forall2 (fun v f => to_float v = Ok f) values fvals
    ∧ solve_knapsack_01 values weights capacity
      = Ok (nth (Z.to_nat cap)
              (table_row (zip fvals w_ints) cap (length values)) (Fin 0), sel)
    ∧ StronglySorted lt sel
    ∧ Forall (fun j => j < length values) sel
    ∧ (weight_of w_ints sel <= cap)%Z.
Proof.
  intros Hvalid Hne Hnz.
  rewrite (solve_knapsack_01_valid values weights capacity w_ints cap Hvalid Hne Hnz).
  destruct Hvalid as (Hlen & Hconv & Hws & Hcap & Hcap0).
  destruct (normalize_weights_valid weights w_ints Hws) as (_ & _ & Hpos & Hlw).
  assert (Hlen' : length values = length w_ints) by congruence.
  destruct (convert_items_Ok values w_ints Hconv Hlen') as (fvals & H2 & Hitems).
  pose proof (dp_and_reconstruct_spec values w_ints cap Hpos Hlen' Hcap0) as H.
  rewrite Hitems in H. destruct H as (sel & Hrun & Hrest).
  exists fvals, sel. split; [exact H2|]. split; [exact Hrun|exact Hrest].
Qed.

(** C1 (the code departs from the claim): with capacity 0 the solver
    returns objective 0 without looking at the items, although a
    zero-weight item of positive value fits: the instance below is valid,
    brute-force enumeration gives 5, the solver gives 0. *)
Theorem knapsack_zero_capacity_ignores_weightless_items :
  valid_instance [PyInt 5] [PyInt 0] (PyInt 0) [0%Z] 0
  ∧ solve_knapsack_01 [PyInt 5] [PyInt 0] (PyInt 0) = Ok (Fin 0, [])
  ∧ brute_force (zip [5%Q] [0%Z]) 0 = Some 5%Q
  ∧ ¬ (0 == 5)%Q.
Proof.
  split.
  { unfold valid_instance. split; [reflexivity|]. split.
    - constructor; [|constructor]. eexists. vm_compute. reflexivity.
    - split; [|split; [reflexivity|lia]].
      constructor; [|constructor]. simpl. split; [reflexivity|lia]. }
  repeat split. intros H. discriminate H.
Qed.

(** ** The selection *)

(** C6: on every valid instance the solver returns, the returned indices
    are strictly ascending (and are indices of items), and the selected
    weights sum to at most the capacity. *)
Theorem knapsack_selection_sorted_within_capacity (values weights : list pynum)
    (capacity : pynum) (w_ints : list Z) (cap : Z) :
  valid_instance values weights capacity w_ints cap →
  ∃ best sel,
    solve_knapsack_01 values weights capacity = Ok (best, sel)
    ∧ StronglySorted lt sel
    ∧ Forall (fun j => j < length values) sel
    ∧ (weight_of w_ints sel <= cap)%Z.
Proof.
  intros Hvalid.
  destruct (decide (values = [] ∨ cap = 0%Z)) as [Hearly|Hlate].
  - destruct Hvalid as (Hlen & _ & Hws & Hcap & Hcap0).
    exists (Fin 0), []. unfold solve_knapsack_01.
    rewrite <- Hlen, Nat.eqb_refl. cbn [negb].
    rewrite (num_ltb0_valid capacity cap Hcap Hcap0).
    rewrite (num_eqb0_valid capacity cap Hcap).
    replace ((length values =? 0)%nat || (cap =? 0)%Z) with true.
    + repeat split; [constructor|constructor|simpl; lia].
    + symmetry. apply orb_true_iff. destruct Hearly as [->| ->]; auto.
  - destruct (solve_knapsack_01_table values weights capacity w_ints cap Hvalid)
      as (fvals & sel & _ & Hsolve & Hsort & Hidx & Hw).
    + intros ->. apply Hlate. now left.
    + intros ->. apply Hlate. now right.
    + eexists _, sel. eauto.
Qed.

Lemma knapsack_selection_sorted_within_capacity_witness :
  valid_instance [PyInt 3; PyFloat (Fin 4); PyInt 5; PyInt 6]
    [PyInt 2; PyInt 3; PyFloat (Fin 4); PyInt 5] (PyInt 5) [2; 3; 4; 5]%Z 5
  ∧ ∃ best sel,
      solve_knapsack_01 [PyInt 3; PyFloat (Fin 4); PyInt 5; PyInt 6]
        [PyInt 2; PyInt 3; PyFloat (Fin 4); PyInt 5] (PyInt 5) = Ok (best, sel)
      ∧ StronglySorted lt sel
      ∧ Forall (fun j => j < 4) sel
      ∧ (weight_of [2; 3; 4; 5]%Z sel <= 5)%Z.
Proof.
  assert (H : valid_instance [PyInt 3; PyFloat (Fin 4); PyInt 5; PyInt 6]
                [PyInt 2; PyInt 3; PyFloat (Fin 4); PyInt 5]
                (PyInt 5) [2; 3; 4; 5]%Z 5).
  { unfold valid_instance. split; [reflexivity|]. split.
    - repeat constructor; eexists; vm_compute; reflexivity.
    - split; [repeat constructor; simpl; lia|].
      split; [reflexivity|lia]. }
  split; [exact H|].
  exact (knapsack_selection_sorted_within_capacity _ _ _ _ _ H).
Defined.

(** ** Validation *)

(** Mismatched lengths always raise. *)
Lemma knapsack_length_mismatch_raises (values weights : list pynum)
    (capacity : pynum) :
  length values ≠ length weights →
  raises (solve_knapsack_01 values weights capacity).
Proof.
  intros H. unfold solve_knapsack_01.
  destruct (length values =? length weights)%nat eqn:E; [|exact I].
  apply Nat.eqb_eq in E. contradiction.
Qed.

Lemma normalize_capacity_None (capacity : pynum) :
  int_value capacity = None → raises (normalize_capacity capacity).
Proof.
  destruct capacity as [z|[q| | |]|q]; cbn [int_value normalize_capacity];
    try discriminate; try (intros _; exact I).
  destruct (is_integer (Fin q)); [discriminate|intros _; exact I].
Qed.

(** Past the shortcut for no items or capacity 0, a negative weight or a
    capacity that is not an integer raises. *)
Lemma knapsack_invalid_raises_past_shortcut (values weights : list pynum)
    (capacity : pynum) :
  values ≠ [] → num_eqb0 capacity = false →
  existsb num_ltb0 weights = true ∨ int_value capacity = None →
  raises (solve_knapsack_01 values weights capacity).
Proof.
  intros Hne Hz H. unfold solve_knapsack_01.
  destruct (negb _); [exact I|]. destruct (num_ltb0 capacity); [exact I|].
  rewrite Hz. destruct values as [|v values]; [congruence|]. cbn [length Nat.eqb orb].
  destruct (existsb num_ltb0 weights) eqn:E; [exact I|].
  destruct H as [H|H]; [discriminate|].
  pose proof (normalize_capacity_None capacity H) as Hr.
  destruct (normalize_capacity capacity); [contradiction|exact I].
Qed.

(** Validation comes first: the solver raises or takes the shortcut, or it
    runs the table on the normalised weights and capacity. *)
Lemma knapsack_validation_precedes_table (values weights : list pynum)
    (capacity : pynum) :
  raises (solve_knapsack_01 values weights capacity)
  ∨ solve_knapsack_01 values weights capacity = Ok (Fin 0, [])
  ∨ ∃ w_ints cap,
      normalize_weights weights = Ok w_ints
      ∧ normalize_capacity capacity = Ok cap
      ∧ existsb num_ltb0 weights = false
      ∧ length values = length weights
      ∧ solve_knapsack_01 values weights capacity
        = dp_and_reconstruct values w_ints cap.
Proof.
  unfold solve_knapsack_01.
  destruct (length values =? length weights)%nat eqn:El; cbn [negb]; [|now left].
  destruct (num_ltb0 capacity); [now left|].
  destruct ((length values =? 0)%nat || num_eqb0 capacity); [right; now left|].
  destruct (existsb num_ltb0 weights); [now left|].
  destruct (normalize_capacity capacity) as [cap|]; [|now left].
  destruct (normalize_weights weights) as [w_ints|]; [|now left].
  right. right. exists w_ints, cap. apply Nat.eqb_eq in El. auto.
Qed.

(** An integral float capacity is accepted. *)
Example knapsack_capacity_3_0_accepted :
  solve_knapsack_01 [PyInt 5] [PyInt 1] (PyFloat (Fin 3)) = Ok (Fin 5, [0]).
Proof. vm_compute. reflexivity. Qed.

Example knapsack_capacity_3_5_raises :
  solve_knapsack_01 [PyInt 5] [PyInt 1] (PyFloat (Fin (7 # 2)))
  = Raise (ValueError "capacity must be an integer.").
Proof. reflexivity. Qed.

Example knapsack_small_example :
  solve_knapsack_01 [PyInt 3; PyInt 4; PyInt 5; PyInt 6]
    [PyInt 2; PyInt 3; PyInt 4; PyInt 5] (PyInt 5)
  = Ok (Fin 7, [0; 1]).
Proof. vm_compute. reflexivity. Qed.

(** The sums are sums of doubles: with the values 1, 2^53 and 1 the
    three items fit, but [2^53 + 1] rounds to [2^53], so the table never
    sees a gain in the third item. *)
Example knapsack_rounding_example :
  solve_knapsack_01 [PyInt 1; PyInt (2 ^ 53); PyInt 1]
    [PyInt 1; PyInt 1; PyInt 1] (PyInt 3)
  = Ok (Fin (inject_Z (2 ^ 53)), [0; 1]).
Proof. vm_compute. reflexivity. Qed.

(** A value beyond the range of the doubles raises [OverflowError] at
    line 89. *)
Example knapsack_value_overflow :
  solve_knapsack_01 [PyInt (10 ^ 400)] [PyInt 1] (PyInt 1) = Raise OverflowError.
Proof. vm_compute. reflexivity. Qed.

(** C4 (the code departs from the claim): the shortcut for capacity 0 or no
    items returns before the weights and the capacity are validated, so a
    negative weight (with capacity 0) and a capacity of 3.5 (with no items)
    return [(0, [])] instead of raising. *)
Theorem knapsack_shortcut_skips_validation :
  existsb num_ltb0 [PyInt (-1)] = true
  ∧ solve_knapsack_01 [PyInt 5] [PyInt (-1)] (PyInt 0) = Ok (Fin 0, [])
  ∧ int_value (PyFloat (Fin (7 # 2))) = None
  ∧ solve_knapsack_01 [] [] (PyFloat (Fin (7 # 2))) = Ok (Fin 0, []).
Proof. repeat split. Qed.

End KnapsackProofs.

(* ===================================================================== *)
(** * Properties of milp_utils.py                                         *)
(* ===================================================================== *)

Section MilpProofs.
Import Py milp_utils milp_ref milp_more_ref.

(** ** Rounding and the integer-valued check *)

Lemma tol_lt_half : (tol < 1 # 2)%Q.
Proof. reflexivity. Qed.

(** The rounded value is within the tolerance exactly when some integer
    is. *)
Lemma near_round_iff (q : Q) :
  Qle_bool (Qabs (q - inject_Z (py_round q))) tol = true
  ↔ ∃ k : Z, (Qabs (q - inject_Z k) <= tol)%Q.
Proof.
  rewrite Qle_bool_iff. split.
  - intros H. now exists (py_round q).
  - intros [k Hk]. rewrite (py_round_unique q k); [exact Hk|].
    eapply Qle_lt_trans; [exact Hk|apply tol_lt_half].
Qed.

Lemma _is_int_like_finite (x : pynum) (q : Q) :
  to_float x = Ok (Fin q) →
  _is_int_like x = Ok (Qle_bool (Qabs (q - inject_Z (py_round q))) tol).
Proof. intros H. unfold _is_int_like. now rewrite H. Qed.

(** The check of the code is the notion of the specification. *)
Lemma _is_int_like_true (x : pynum) : _is_int_like x = Ok true ↔ int_valued x.
Proof.
  split.
  - unfold _is_int_like, int_valued.
    destruct (to_float x) as [[q| | |]|e]; cbn [bind round_float]; try discriminate.
    intros [= H]. exists q. apply near_round_iff in H as [k Hk]. eauto.
  - intros (q & k & Hq & Hk). rewrite (_is_int_like_finite _ _ Hq). f_equal.
    apply near_round_iff. eauto.
Qed.

Lemma _is_int_like_false (x : pynum) :
  _is_int_like x = Ok false ↔ finite x ∧ ¬ int_valued x.
Proof.
  split.
  - intros H. assert (Hf : finite x).
    { unfold _is_int_like in H.
      destruct (to_float x) as [[q| | |]|e] eqn:Ex; cbn [bind round_float] in H;
        try discriminate. now exists q. }
    split; [exact Hf|]. intros Hi. apply _is_int_like_true in Hi. congruence.
  - intros [[q Hq] Hn]. rewrite (_is_int_like_finite _ _ Hq).
    destruct (Qle_bool _ _) eqn:E; [|reflexivity]. exfalso. apply Hn.
    apply near_round_iff in E as [k Hk]. exists q, k. auto.
Qed.

(** The check raises exactly on a number without a finite float value. *)
Lemma _is_int_like_raises (x : pynum) : raises (_is_int_like x) ↔ ¬ finite x.
Proof.
  unfold _is_int_like, finite.
  destruct (to_float x) as [[q| | |]|e]; cbn [bind round_float raises].
  - split; [contradiction|]. intros H. apply H. eauto.
  - split; [intros _ [q' [=]]|intros _; exact I].
  - split; [intros _ [q' [=]]|intros _; exact I].
  - split; [intros _ [q' [=]]|intros _; exact I].
  - split; [intros _ [q' [=]]|intros _; exact I].
Qed.

Lemma _is_int_like_returns (x : pynum) :
  finite x → ∃ v, _is_int_like x = Ok v ∧ (v = false ↔ ¬ int_valued x).
Proof.
  intros Hf. destruct (_is_int_like x) as [[|]|e] eqn:E.
  - exists true. split; [reflexivity|]. apply _is_int_like_true in E.
    split; [discriminate|contradiction].
  - exists false. split; [reflexivity|]. apply _is_int_like_false in E.
    tauto.
  - exfalso. assert (H : raises (_is_int_like x)) by now rewrite E.
    now apply _is_int_like_raises in H.
Qed.

(** ** Normalisation *)

Lemma traverse_normalize_token (l : list (option string)) (l' : list (option string)) :
  traverse normalize_token l = Ok l' →
  length l' = length l
  ∧ Forall (fun t => t = None ∨ t = Some "B"%string ∨ t = Some "I"%string) l'.
Proof.
  revert l'. induction l as [|t l IH]; intros l'; cbn [traverse].
  - intros [= <-]. split; [reflexivity|constructor].
  - destruct (normalize_token t) as [t'|] eqn:Et; cbn [bind]; [|discriminate].
    destruct (traverse normalize_token l) as [l0|]; cbn [bind]; [|discriminate].
    intros [= <-]. destruct (IH l0 eq_refl) as [Hlen Hall].
    split; [simpl; congruence|]. constructor; [|exact Hall].
    destruct t as [s|]; cbn [normalize_token] in Et.
    + destruct (String.eqb s "B") eqn:EB.
      * apply String.eqb_eq in EB. subst s. injection Et as <-. auto.
      * destruct (String.eqb s "I") eqn:EI; cbn [orb] in Et.
        -- apply String.eqb_eq in EI. subst s. injection Et as <-. auto.
        -- destruct (String.eqb s "C"); [|discriminate].
           injection Et as <-. auto.
    + injection Et as <-. auto.
Qed.

Lemma is_None_xorb {A B : Type} (a : option A) (b : option B) :
  xorb (is_None a) (is_None b) = false ↔ is_None a = is_None b.
Proof. destruct a, b; simpl; split; congruence. Qed.

(** [_normalize] as a function of its checks. *)
Lemma _normalize_unfold (problem : raw_problem) :
  _normalize problem
  = if negb (String.eqb (lower (given_sense problem)) "min"
             || String.eqb (lower (given_sense problem)) "max") then
      Raise (ValueError "problem['sense'] must be 'min' or 'max'.")
    else
      _ ←! match raw_integrality problem with
           | IsNone => Raise TypeError
           | _ => Ok tt
           end;
      if negb (length (given_integrality problem) =? length (raw_c problem))%nat then
        Raise (ValueError "len(integrality) must match len(c).")
      else
        integrality ←! traverse normalize_token (given_integrality problem);
        if negb (length (given_bounds problem) =? length (raw_c problem))%nat then
          Raise (ValueError "len(bounds) must match len(c).")
        else if negb (length (given_names problem) =? length (raw_c problem))%nat then
          Raise (ValueError "len(var_names) must match len(c).")
        else if xorb (is_None (raw_A_eq problem)) (is_None (raw_b_eq problem)) then
          Raise (ValueError "A_eq and b_eq must be both present or both absent.")
        else if xorb (is_None (raw_A_ub problem)) (is_None (raw_b_ub problem)) then
          Raise (ValueError "A_ub and b_ub must be both present or both absent.")
        else
          offset ←! match raw_obj_offset problem with
                    | Absent => Ok (Fin 0)
                    | IsNone => Raise TypeError
                    | Given z => to_float z
                    end;
          Ok {| sense := lower (given_sense problem); c := raw_c problem;
                n := length (raw_c problem);
                integrality := integrality;
                bounds := given_bounds problem;
                var_names := given_names problem;
                A_eq := raw_A_eq problem; b_eq := raw_b_eq problem;
                A_ub := raw_A_ub problem; b_ub := raw_b_ub problem;
                obj_offset := offset |}.
Proof.
  unfold _normalize, given_sense, given_integrality, given_bounds, given_names.
  destruct (negb _); [reflexivity|].
  destruct (raw_integrality problem) as [| |l]; cbn [bind]; [|reflexivity|].
  - destruct (negb _); [reflexivity|].
    destruct (traverse normalize_token _) as [integ|]; cbn [bind]; [|reflexivity].
    destruct (raw_bounds problem) as [bs|]; cbn [bind].
    + destruct (negb (length bs =? _)%nat); cbn [bind]; [reflexivity|].
      destruct (raw_var_names problem) as [[|nm nms]|]; reflexivity.
    + rewrite length_replicate, Nat.eqb_refl. cbn [negb].
      destruct (raw_var_names problem) as [[|nm nms]|]; reflexivity.
  - destruct (negb _); [reflexivity|].
    destruct (traverse normalize_token _) as [integ|]; cbn [bind]; [|reflexivity].
    destruct (raw_bounds problem) as [bs|]; cbn [bind].
    + destruct (negb (length bs =? _)%nat); cbn [bind]; [reflexivity|].
      destruct (raw_var_names problem) as [[|nm nms]|]; reflexivity.
    + rewrite length_replicate, Nat.eqb_refl. cbn [negb].
      destruct (raw_var_names problem) as [[|nm nms]|]; reflexivity.
Qed.

Lemma default_names_length (n : nat) : length (default_names n) = n.
Proof. unfold default_names. now rewrite length_map, length_seq. Qed.

(** The checks that let a raw problem through. *)
Lemma _normalize_Ok_inv (problem : raw_problem) (P : CanonicalProblem) :
  _normalize problem = Ok P →
  (lower (given_sense problem) = "min"%string
   ∨ lower (given_sense problem) = "max"%string)
  ∧ raw_integrality problem ≠ IsNone
  ∧ length (given_integrality problem) = length (raw_c problem)
  ∧ length (given_bounds problem) = length (raw_c problem)
  ∧ length (given_names problem) = length (raw_c problem)
  ∧ is_None (raw_A_eq problem) = is_None (raw_b_eq problem)
  ∧ is_None (raw_A_ub problem) = is_None (raw_b_ub problem)
  ∧ ∃ integ off,
      traverse normalize_token (given_integrality problem) = Ok integ
      ∧ offset_is problem off
      ∧ P = {| sense := lower (given_sense problem); c := raw_c problem;
               n := length (raw_c problem);
               integrality := integ;
               bounds := given_bounds problem;
               var_names := given_names problem;
               A_eq := raw_A_eq problem; b_eq := raw_b_eq problem;
               A_ub := raw_A_ub problem; b_ub := raw_b_ub problem;
               obj_offset := off |}.
Proof.
  rewrite _normalize_unfold.
  destruct (String.eqb (lower (given_sense problem)) "min"
            || String.eqb (lower (given_sense problem)) "max") eqn:Es;
    cbn [negb]; [|discriminate].
  destruct (raw_integrality problem) as [| |l] eqn:Ei0; cbn [bind];
    [|discriminate|].
  all: destruct (length (given_integrality problem) =? length (raw_c problem))%nat
         eqn:Ei; cbn [negb]; [|discriminate].
  all: destruct (traverse normalize_token (given_integrality problem))
         as [integ|] eqn:Et; cbn [bind]; [|discriminate].
  all: destruct (length (given_bounds problem) =? length (raw_c problem))%nat
         eqn:Eb; cbn [negb]; [|discriminate].
  all: destruct (length (given_names problem) =? length (raw_c problem))%nat
         eqn:En; cbn [negb]; [|discriminate].
  all: destruct (xorb (is_None (raw_A_eq problem)) (is_None (raw_b_eq problem)))
         eqn:Ee; [discriminate|].
  all: destruct (xorb (is_None (raw_A_ub problem)) (is_None (raw_b_ub problem)))
         eqn:Eu; [discriminate|].
  all: apply is_None_xorb in Ee, Eu.
  all: apply Nat.eqb_eq in Ei, Eb, En.
  all: assert (Hsense : lower (given_sense problem) = "min"%string
                        ∨ lower (given_sense problem) = "max"%string)
         by (apply orb_true_iff in Es as [Es|Es]; apply String.eqb_eq in Es; auto).
  all: unfold offset_is.
  all: destruct (raw_obj_offset problem) as [| |z] eqn:Eo; cbn [bind];
         [|discriminate|].
  all: try (destruct (to_float z) as [off|] eqn:Ez; cbn [bind]; [|discriminate]).
  all: intros [= <-].
  all: repeat (split; [solve [auto | discriminate]|]).
  all: eexists _, _; split; [reflexivity|]; split; [|reflexivity]; eauto.
Qed.

Lemma _normalize_normalized (problem : raw_problem) (P : CanonicalProblem) :
  _normalize problem = Ok P → normalized P.
Proof.
  intros H. apply _normalize_Ok_inv in H
    as (Hs & _ & Hi & Hb & Hn & He & Hu & integ & off & Ht & _ & ->).
  destruct (traverse_normalize_token _ _ Ht) as [Hlen Htok].
  unfold normalized. cbn. repeat split; auto; congruence.
Qed.

Lemma rejected_raises (problem : raw_problem) :
  rejected problem → raises (_normalize problem).
Proof.
  intros Hrej. destruct (_normalize problem) as [P|e] eqn:E; [|exact I].
  apply _normalize_Ok_inv in E as (Hs & _ & Hi & Hb & Hn & He & Hu & _).
  destruct Hrej as [[H1 H2]|[(l & Hl & Hne)|[(l & Hl & Hne)|[(l & Hl & Hnil & Hne)
                   |[H|H]]]]].
  - destruct Hs; contradiction.
  - unfold given_integrality in Hi. rewrite Hl in Hi. contradiction.
  - unfold given_bounds in Hb. rewrite Hl in Hb. contradiction.
  - unfold given_names in Hn. rewrite Hl in Hn. destruct l; contradiction.
  - contradiction.
  - contradiction.
Qed.

(** C7 as stated fails: an empty [var_names] has a length different from
    that of [c], and normalisation accepts it (the names default). *)
Lemma empty_var_names_accepted :
  (∃ l, raw_var_names problem_empty_names = Some l
        ∧ length l ≠ length (raw_c problem_empty_names))
  ∧ ¬ raises (_normalize problem_empty_names).
Proof.
  split.
  - exists []. split; [reflexivity|]. simpl. lia.
  - vm_compute. auto.
Qed.

(** C7, amended: normalisation raises, and [solve_milp] constructs no
    backend, whenever the sense (lowercased, ["min"] when absent or empty)
    is neither ["min"] nor ["max"], or a given [integrality] or [bounds], or
    a given non-empty [var_names], has a length other than that of [c], or
    exactly one member of (A_eq, b_eq) or of (A_ub, b_ub) is present. *)
Theorem normalization_rejects_before_backends (problem : raw_problem)
    (env : backends) (time_limit : option pynum) :
  rejected problem →
  raises (_normalize problem)
  ∧ fst (solve_milp env problem time_limit) = []
  ∧ raises (snd (solve_milp env problem time_limit)).
Proof.
  intros H. apply rejected_raises in H. unfold solve_milp.
  destruct (_normalize problem); [contradiction|]. repeat split.
Qed.

Lemma normalization_rejects_before_backends_witness :
  rejected problem_short_bounds
  ∧ raises (_normalize problem_short_bounds)
  ∧ fst (solve_milp (env_reports (Fin 0) 4) problem_short_bounds None) = []
  ∧ raises (snd (solve_milp (env_reports (Fin 0) 4) problem_short_bounds None)).
Proof.
  assert (H : rejected problem_short_bounds).
  { right. right. left. eexists. split; [reflexivity|]. simpl. lia. }
  split; [exact H|].
  exact (normalization_rejects_before_backends _ _ _ H).
Defined.

(** ** Routing *)

Lemma is_B_or_I_false (t : option string) :
  is_B_or_I t = false ↔ continuous_marker t.
Proof.
  unfold continuous_marker. destruct t as [s|]; simpl.
  - rewrite orb_false_iff, !String.eqb_neq. split.
    + intros [H1 H2]. split; congruence.
    + intros [H1 H2]. split; congruence.
  - split; [intros _; split; discriminate|reflexivity].
Qed.

(** A scan of finite numbers returns; it stops with [False] exactly when
    one of them is not integer-valued. *)
Lemma all_int_like_spec (l : list pynum) :
  (∀ x, In x l → finite x) →
  ∃ v, all_int_like l = Ok v ∧ (v = false ↔ ∃ x, In x l ∧ ¬ int_valued x).
Proof.
  induction l as [|x l IH]; intros Hf; cbn [all_int_like].
  - exists true. split; [reflexivity|]. split; [discriminate|].
    intros (x & [] & _).
  - destruct (_is_int_like_returns x) as (v & -> & Hv); [apply Hf; now left|].
    cbn [bind]. destruct v.
    + destruct IH as (v & -> & Hv'); [intros y Hy; apply Hf; now right|].
      exists v. split; [reflexivity|]. rewrite Hv'. split.
      * intros (y & Hy & Hn). exists y. split; [now right|exact Hn].
      * intros (y & [<-|Hy] & Hn); [|eauto].
        exfalso. assert (true = false); [|discriminate]. now apply Hv.
    + exists false. split; [reflexivity|]. split; [|reflexivity]. intros _.
      exists x. split; [now left|]. now apply Hv.
Qed.

Lemma all_rows_int_like_spec (rows : matrix) :
  (∀ row x, In row rows → In x row → finite x) →
  ∃ v, all_rows_int_like rows = Ok v
       ∧ (v = false ↔ ∃ row x, In row rows ∧ In x row ∧ ¬ int_valued x).
Proof.
  induction rows as [|row rows IH]; intros Hf; cbn [all_rows_int_like].
  - exists true. split; [reflexivity|]. split; [discriminate|].
    intros (row & x & [] & _).
  - destruct (all_int_like_spec row) as (v & -> & Hv).
    { intros x Hx. apply (Hf row x); [now left|exact Hx]. }
    cbn [bind]. destruct v.
    + destruct IH as (v & -> & Hv').
      { intros r x Hr Hx. apply (Hf r x); [now right|exact Hx]. }
      exists v. split; [reflexivity|]. rewrite Hv'. split.
      * intros (r & x & Hr & Hx & Hn). exists r, x. split; [now right|auto].
      * intros (r & x & [<-|Hr] & Hx & Hn); [|eauto].
        exfalso. assert (true = false); [|discriminate]. apply Hv. eauto.
    + exists false. split; [reflexivity|]. split; [|reflexivity]. intros _.
      destruct (proj1 Hv eq_refl) as (x & Hx & Hn).
      exists row, x. split; [now left|auto].
Qed.

Lemma bound_int_like_spec (b : option pynum) :
  (∀ x, b = Some x → finite x) →
  ∃ v, match b with Some l => _is_int_like l | None => Ok true end = Ok v
       ∧ (v = false ↔ ∃ x, b = Some x ∧ ¬ int_valued x).
Proof.
  intros Hf. destruct b as [x|].
  - destruct (_is_int_like_returns x (Hf x eq_refl)) as (v & -> & Hv).
    exists v. split; [reflexivity|]. rewrite Hv. split.
    + intros H. eauto.
    + intros (y & [= <-] & H). exact H.
  - exists true. split; [reflexivity|]. split; [discriminate|].
    intros (x & [=] & _).
Qed.

Lemma bounds_int_like_spec (bs : list (option pynum * option pynum)) :
  (∀ lb ub x, In (lb, ub) bs → lb = Some x ∨ ub = Some x → finite x) →
  ∃ v, bounds_int_like bs = Ok v
       ∧ (v = false ↔ ∃ lb ub x, In (lb, ub) bs ∧ (lb = Some x ∨ ub = Some x)
                                 ∧ ¬ int_valued x).
Proof.
  induction bs as [|[lb ub] bs IH]; intros Hf; cbn [bounds_int_like].
  - exists true. split; [reflexivity|]. split; [discriminate|].
    intros (lb & ub & x & [] & _).
  - destruct (bound_int_like_spec lb) as (v1 & -> & Hv1).
    { intros x Hx. apply (Hf lb ub x); [now left|now left]. }
    cbn [bind]. destruct v1; cbn [negb].
    2:{ exists false. split; [reflexivity|]. split; [|reflexivity]. intros _.
        destruct (proj1 Hv1 eq_refl) as (x & Hx & Hn).
        exists lb, ub, x. split; [now left|]. auto. }
    destruct (bound_int_like_spec ub) as (v2 & -> & Hv2).
    { intros x Hx. apply (Hf lb ub x); [now left|now right]. }
    cbn [bind]. destruct v2; cbn [negb].
    2:{ exists false. split; [reflexivity|]. split; [|reflexivity]. intros _.
        destruct (proj1 Hv2 eq_refl) as (x & Hx & Hn).
        exists lb, ub, x. split; [now left|]. auto. }
    destruct IH as (v & -> & Hv).
    { intros lb' ub' x Hin Hx. apply (Hf lb' ub' x); [now right|exact Hx]. }
    exists v. split; [reflexivity|]. rewrite Hv. split.
    + intros (lb' & ub' & x & Hin & Hx & Hn). exists lb', ub', x.
      split; [now right|auto].
    + intros (lb' & ub' & x & [[= <- <-]|Hin] & Hx & Hn); [|eauto 8].
      exfalso. destruct Hx as [Hx|Hx].
      * assert (true = false); [|discriminate]. apply Hv1. eauto.
      * assert (true = false); [|discriminate]. apply Hv2. eauto.
Qed.

(** The check of one (matrix, rhs) pair on a pair that is present or absent
    as a whole. *)
Lemma pair_int_like_spec (A : option matrix) (b : option (list pynum)) :
  is_None A = is_None b →
  (∀ rows row x, A = Some rows → In row rows → In x row → finite x) →
  (∀ rhs x, b = Some rhs → In x rhs → finite x) →
  ∃ v, pair_int_like A b = Ok v
       ∧ (v = false
          ↔ (∃ rows row x, A = Some rows ∧ In row rows ∧ In x row
                           ∧ ¬ int_valued x)
            ∨ (∃ rhs x, b = Some rhs ∧ In x rhs ∧ ¬ int_valued x)).
Proof.
  destruct A as [rows|], b as [rhs|]; simpl; try discriminate; intros _ HA Hb.
  - destruct (all_rows_int_like_spec rows) as (v1 & -> & Hv1).
    { intros row x. now apply HA. }
    cbn [bind]. destruct v1; cbn [negb].
    + destruct (all_int_like_spec rhs) as (v2 & -> & Hv2).
      { intros x. now apply Hb. }
      exists v2. split; [reflexivity|]. rewrite Hv2. split.
      * intros (x & Hx & Hn). right. eauto.
      * intros [(rows' & row & x & [= <-] & Hrow & Hx & Hn)
               |(rhs' & x & [= <-] & Hx & Hn)]; [|eauto].
        exfalso. assert (true = false); [|discriminate]. apply Hv1. eauto.
    + exists false. split; [reflexivity|]. split; [|reflexivity]. intros _. left.
      destruct (proj1 Hv1 eq_refl) as (row & x & Hrow & Hx & Hn). eauto 8.
  - exists true. split; [reflexivity|]. split; [discriminate|].
    intros [(rows & row & x & [=] & _)|(rhs & x & [=] & _)].
Qed.

(** A continuous marker decides the route without a look at the data. *)
Lemma _needs_cbc_marker (P : CanonicalProblem) :
  has_continuous_marker P → _needs_cbc P = Ok true.
Proof.
  intros (t & Ht & Hc). unfold _needs_cbc.
  replace (existsb _ (integrality P)) with true; [reflexivity|].
  symmetry. apply existsb_exists. exists t. split; [exact Ht|].
  apply is_B_or_I_false in Hc. now rewrite Hc.
Qed.

(** The routing test on a normalised problem with finite data: it returns,
    and it is true exactly under the condition of the specification. *)
Lemma _needs_cbc_spec (P : CanonicalProblem) :
  normalized P → finite_data P →
  ∃ v, _needs_cbc P = Ok v ∧ (v = true ↔ needs_continuous P).
Proof.
  intros (_ & _ & _ & _ & _ & Heq & Hub & _) (Fc & Fb & FA & Frhs).
  unfold _needs_cbc, needs_continuous.
  destruct (existsb _ (integrality P)) eqn:Ec.
  { exists true. split; [reflexivity|]. split; [|reflexivity]. intros _. left.
    apply existsb_exists in Ec as (t & Ht & Hc).
    apply negb_true_iff, is_B_or_I_false in Hc. exists t. auto. }
  assert (Hnc : ¬ has_continuous_marker P).
  { intros (t & Ht & Hc). apply is_B_or_I_false in Hc.
    assert (existsb (fun t => negb (is_B_or_I t)) (integrality P) = true).
    { apply existsb_exists. exists t. now rewrite Hc. }
    congruence. }
  unfold _all_data_integer.
  destruct (all_int_like_spec (c P) Fc) as (v0 & -> & Hv0).
  destruct (bounds_int_like_spec (bounds P) Fb) as (vb & Hpb & Hvb).
  destruct (pair_int_like_spec (A_eq P) (b_eq P) Heq) as (v1 & Hp1 & Hv1).
  { intros rows row x HA. apply (FA rows row x). now left. }
  { intros rhs x Hb. apply (Frhs rhs x). now left. }
  destruct (pair_int_like_spec (A_ub P) (b_ub P) Hub) as (v2 & Hp2 & Hv2).
  { intros rows row x HA. apply (FA rows row x). now right. }
  { intros rhs x Hb. apply (Frhs rhs x). now right. }
  cbn [bind]. destruct v0; cbn [negb bind].
  2:{ exists true. split; [reflexivity|]. split; [|reflexivity]. intros _.
      right. left. now apply Hv0. }
  rewrite Hpb. cbn [bind]. destruct vb; cbn [negb bind].
  2:{ exists true. split; [reflexivity|]. split; [|reflexivity]. intros _.
      right. right. left.
      destruct (proj1 Hvb eq_refl) as (lb & ub & x & Hin & Hx & Hn).
      exists lb, ub, x. repeat split; auto. apply (Fb lb ub x Hin Hx). }
  rewrite Hp1. cbn [bind]. destruct v1; cbn [negb bind].
  2:{ exists true. split; [reflexivity|]. split; [|reflexivity]. intros _.
      destruct (proj1 Hv1 eq_refl) as [(rows & row & x & HA & H)|(rhs & x & Hb & H)].
      - right. right. right. left. exists rows, row, x. tauto.
      - right. right. right. right. exists rhs, x. tauto. }
  rewrite Hp2. cbn [bind]. destruct v2; cbn [negb].
  2:{ exists true. split; [reflexivity|]. split; [|reflexivity]. intros _.
      destruct (proj1 Hv2 eq_refl) as [(rows & row & x & HA & H)|(rhs & x & Hb & H)].
      - right. right. right. left. exists rows, row, x. tauto.
      - right. right. right. right. exists rhs, x. tauto. }
  exists false. split; [reflexivity|]. split; [discriminate|].
  intros [H|[H|[(lb & ub & x & Hb & Hx & _ & H)
         |[(rows & row & x & HA & Hrow & Hx & H)|(rhs & x & Hb & Hx & H)]]]];
    exfalso.
  - contradiction.
  - assert (true = false); [|discriminate]. now apply Hv0.
  - assert (true = false); [|discriminate]. apply Hvb. eauto 8.
  - destruct HA as [HA|HA].
    + assert (true = false); [|discriminate]. apply Hv1. left. eauto 8.
    + assert (true = false); [|discriminate]. apply Hv2. left. eauto 8.
  - destruct Hb as [Hb|Hb].
    + assert (true = false); [|discriminate]. apply Hv1. right. eauto.
    + assert (true = false); [|discriminate]. apply Hv2. right. eauto.
Qed.

(** The first backend object of the integer-only route is the CP-SAT
    model. *)
Lemma solve_milp_cp_sat_head (env : backends) (problem : raw_problem)
    (time_limit : option pynum) (P : CanonicalProblem) :
  _normalize problem = Ok P → _needs_cbc P = Ok false →
  head (fst (solve_milp env problem time_limit)) = Some New_CpModel
  ∧ fst (solve_milp env problem time_limit) ≠ [CreateSolver_CBC].
Proof.
  intros HP Hv. unfold solve_milp. rewrite HP, Hv.
  destruct (_build_model P) as [[model xs]|]; cbn [fst].
  - destruct (_solve_model _ _ _) as [[solver code]|]; split;
      try reflexivity; discriminate.
  - split; [reflexivity|discriminate].
Qed.

(** C5 as stated fails: an integer variable with the bounds
    [(0, float('inf'))] has no continuous marker and no finite datum that
    is not integer-valued, yet it is not routed to the integer-only
    backend: the routing test raises [OverflowError] on the infinite bound
    and no backend is constructed. *)
Lemma infinite_bound_is_not_routed :
  ∃ P, _normalize problem_infinite_bound = Ok P
       ∧ ¬ needs_continuous P
       ∧ solve_milp (env_reports (Fin 0) 4) problem_infinite_bound None
         = ([], Raise OverflowError)
       ∧ head (fst (solve_milp (env_reports (Fin 0) 4) problem_infinite_bound None))
         ≠ Some New_CpModel.
Proof.
  eexists. split; [vm_compute; reflexivity|].
  assert (Hint : ∀ z, (Z.abs z <= 1)%Z → int_valued (PyInt z)).
  { intros z Hz. exists (inject_Z z), z. split.
    - apply float_of_int_exact.
      assert (1 < 2 ^ 53)%Z by reflexivity. lia.
    - assert (E : (inject_Z z - inject_Z z == 0)%Q) by ring.
      rewrite E. discriminate. }
  split; [|split; [vm_compute; reflexivity|vm_compute; discriminate]].
  intros [(t & Ht & Hc1 & Hc2)|[(x & Hx & Hn)|[(lb & ub & x & Hb & Hx & Hf & Hn)
         |[(rows & row & x & [HA|HA] & _)|(rhs & x & [Hb|Hb] & _)]]]];
    try discriminate.
  - destruct Ht as [<-|[]]. congruence.
  - destruct Hx as [<-|[]]. apply Hn, Hint. simpl. lia.
  - destruct Hb as [[= <- <-]|[]]. destruct Hx as [[= <-]|[= <-]].
    + apply Hn, Hint. simpl. lia.
    + destruct Hf as [q Hq]. discriminate Hq.
Qed.

(** C5, amended: a normalised problem that has a continuous marker, or
    whose numbers are all finite, goes to the continuous-capable backend
    (CBC is the only backend constructed) exactly when a marker is
    continuous or a coefficient, finite bound or right-hand side is not
    integer-valued within 1e-9; otherwise it goes to the integer-only
    backend (the CP-SAT model is constructed first). *)
Theorem routing_by_markers_and_data (problem : raw_problem)
    (P : CanonicalProblem) (env : backends) (time_limit : option pynum) :
  _normalize problem = Ok P →
  has_continuous_marker P ∨ finite_data P →
  (needs_continuous P
   ↔ fst (solve_milp env problem time_limit) = [CreateSolver_CBC])
  ∧ (¬ needs_continuous P
     ↔ head (fst (solve_milp env problem time_limit)) = Some New_CpModel).
Proof.
  intros HP Hdata.
  assert (Hv : ∃ v, _needs_cbc P = Ok v ∧ (v = true ↔ needs_continuous P)).
  { destruct Hdata as [Hm|Hfin].
    - exists true. split; [now apply _needs_cbc_marker|].
      split; [intros _; now left|reflexivity].
    - apply _needs_cbc_spec; [eapply _normalize_normalized, HP|exact Hfin]. }
  destruct Hv as ([|] & Hv & Hiff).
  - assert (Hn : needs_continuous P) by now apply Hiff.
    unfold solve_milp. rewrite HP, Hv. cbn [fst].
    split; split; auto; try contradiction. discriminate.
  - assert (Hn : ¬ needs_continuous P).
    { intros H. apply Hiff in H. discriminate. }
    destruct (solve_milp_cp_sat_head env problem time_limit P HP Hv) as [Hh Hne].
    split; split; auto; contradiction.
Qed.

Lemma int_is_finite (z : Z) : (Z.abs z <= 2 ^ 53)%Z → finite (PyInt z).
Proof. intros H. exists (inject_Z z). now apply float_of_int_exact. Qed.

Lemma ints_finite (l : list Z) :
  Forall (fun z => (Z.abs z <= 2 ^ 53)%Z) l → ∀ x, In x (ints l) → finite x.
Proof.
  intros Hl x Hx. unfold ints in Hx. apply in_map_iff in Hx as (z & <- & Hz).
  apply int_is_finite. rewrite List.Forall_forall in Hl. now apply Hl.
Qed.

(** The data of the assignment problem are finite when the coefficient
    [c12] is. *)
Lemma problem_assignment_finite (c12 : pynum) :
  finite c12 →
  ∃ P, _normalize (problem_assignment c12) = Ok P ∧ finite_data P.
Proof.
  intros Hc. eexists. split; [vm_compute; reflexivity|].
  split; [|split; [|split]]; cbn [c bounds A_eq A_ub b_eq b_ub].
  - intros x Hx.
    repeat (destruct Hx as [<-|Hx]; [first [exact Hc|apply int_is_finite; simpl; lia]|]).
    destruct Hx.
  - intros lb ub x Hin Hx.
    assert (Hb : lb = Some (PyInt 0) ∧ ub = Some (PyInt 1)).
    { repeat (destruct Hin as [[= <- <-]|Hin]; [auto|]). destruct Hin. }
    destruct Hb as [-> ->].
    destruct Hx as [[= <-]|[= <-]]; apply int_is_finite; simpl; lia.
  - intros rows row x [[= <-]|[=]] Hrow Hx.
    repeat (destruct Hrow as [<-|Hrow];
            [repeat (destruct Hx as [<-|Hx]; [apply int_is_finite; simpl; lia|]);
             destruct Hx|]).
    destruct Hrow.
  - intros rhs x [[= <-]|[=]] Hx.
    repeat (destruct Hx as [<-|Hx]; [apply int_is_finite; simpl; lia|]).
    destruct Hx.
Qed.

Lemma routing_by_markers_and_data_witness :
  ∃ P, _normalize (problem_assignment (PyFloat (Fin (1 # 2)))) = Ok P
       ∧ (has_continuous_marker P ∨ finite_data P)
       ∧ (needs_continuous P
          ↔ fst (solve_milp (env_reports (Fin 0) 4)
                   (problem_assignment (PyFloat (Fin (1 # 2)))) None)
            = [CreateSolver_CBC])
       ∧ (¬ needs_continuous P
          ↔ head (fst (solve_milp (env_reports (Fin 0) 4)
                         (problem_assignment (PyFloat (Fin (1 # 2)))) None))
            = Some New_CpModel).
Proof.
  destruct (problem_assignment_finite (PyFloat (Fin (1 # 2))))
    as (P & HP & Hfin); [now exists (1 # 2)|].
  exists P. split; [exact HP|]. split; [now right|].
  exact (routing_by_markers_and_data _ P (env_reports (Fin 0) 4) None HP
           (or_intror Hfin)).
Defined.

(** An all-binary problem with integer data goes to CP-SAT; with one
    coefficient changed to 0.5 it goes to CBC. *)
Example routing_all_binary_integer (env : backends) (time_limit : option pynum) :
  head (fst (solve_milp env (problem_assignment (PyInt 2)) time_limit))
  = Some New_CpModel.
Proof.
  apply (solve_milp_cp_sat_head env _ time_limit
           (match _normalize (problem_assignment (PyInt 2)) with
            | Ok P => P
            | Raise _ => two_binaries
            end)); vm_compute; reflexivity.
Qed.

Example routing_fractional_coefficient (env : backends)
    (time_limit : option pynum) :
  fst (solve_milp env (problem_assignment (PyFloat (Fin (1 # 2)))) time_limit)
  = [CreateSolver_CBC].
Proof. vm_compute. reflexivity. Qed.

(** The tolerance is the double [1e-9]: a coefficient [1e-9] counts as
    integer-valued, the next double does not. *)
Example routing_coefficient_at_tolerance :
  _is_int_like (PyFloat (Fin tol)) = Ok true
  ∧ _is_int_like (PyFloat (Fin (4835703278458518 # 4835703278458516698824704)))
    = Ok false
  ∧ _is_int_like (PyFloat PosInf) = Raise OverflowError
  ∧ _is_int_like (PyInt (10 ^ 400)) = Raise OverflowError.
Proof. repeat split; vm_compute; reflexivity. Qed.

(** ** Packaging on the integer-only route *)

Lemma enumerate_fst_lt {A : Type} (l : list A) :
  Forall (fun ix => fst ix < length l) (enumerate l).
Proof.
  apply Forall_forall. intros [i x] Hin. unfold enumerate in Hin.
  apply list_elem_of_lookup in Hin as [k Hk].
  apply lookup_zip_with_Some in Hk as (i' & x' & [= <- <-] & Hi & _).
  apply lookup_seq in Hi as [-> Hlt]. simpl. lia.
Qed.

(** Filling the assignment cannot raise when every index has a name. *)
Lemma fill_x_dict_Ok (names : list string) (value : nat → pyfloat)
    (l : list (nat * cp_var)) :
  Forall (fun iv => fst iv < length names) l →
  ∀ acc : gmap string pyfloat,
    ∃ d, for_each (fun (x_dict : gmap string pyfloat) iv =>
                     name ←! getitem names (Z.of_nat (fst iv));
                     Ok (<[name := value (fst iv)]> x_dict)) l acc = Ok d.
Proof.
  induction 1 as [|iv l Hiv _ IH]; intros acc; cbn [for_each].
  - eauto.
  - destruct (lookup_lt_is_Some_2 names (fst iv) Hiv) as [nm Hnm].
    rewrite (getitem_nat _ _ _ Hnm). cbn [bind]. apply IH.
Qed.

Lemma cp_status_cases (code : Z) :
  cp_status code = "Optimal"%string ∧ code = cp_OPTIMAL
  ∨ cp_status code = "Infeasible"%string ∧ code = cp_INFEASIBLE
  ∨ cp_status code = "NotSolved"%string ∧ code ≠ cp_OPTIMAL ∧ code ≠ cp_INFEASIBLE.
Proof.
  unfold cp_status.
  destruct (code =? cp_OPTIMAL)%Z eqn:E1; [left; split; [reflexivity|lia]|].
  destruct (code =? cp_INFEASIBLE)%Z eqn:E2; [right; left; split; [reflexivity|lia]|].
  right. right. repeat split; lia.
Qed.

(** [_pack_result] returns whenever every variable has a name. *)
Lemma _pack_result_spec (solver : CpSolver) (status_code : Z)
    (xs : list cp_var) (P : CanonicalProblem) :
  length xs ≤ length (var_names P) →
  ∃ r, _pack_result solver status_code xs P = Ok r
       ∧ status r = cp_status status_code
       ∧ (status r = "Optimal"%string →
          objective r = Some (fadd (cp_ObjectiveValue solver) (obj_offset P)))
       ∧ (status r ≠ "Optimal"%string →
          objective r = None ∧ assignment r = ∅).
Proof.
  intros Hlen. unfold _pack_result.
  assert (Hfill : ∀ acc : gmap string pyfloat, ∃ d,
            for_each (fun (x_dict : gmap string pyfloat) (iv : nat * cp_var) =>
                        name ←! getitem (var_names P) (Z.of_nat (fst iv));
                        Ok (<[name := float_of_int64 (cp_Value solver (fst iv))]> x_dict))
              (enumerate xs) acc = Ok d).
  { apply (fill_x_dict_Ok (var_names P)
             (fun i => float_of_int64 (cp_Value solver i))).
    eapply Forall_impl; [apply enumerate_fst_lt|]. simpl. intros; lia. }
  destruct (Hfill ∅) as [d Hd].
  destruct (String.eqb (cp_status status_code) "Optimal") eqn:E.
  - rewrite Hd. cbn [bind]. eexists. split; [reflexivity|].
    cbn [status objective assignment fst snd].
    apply String.eqb_eq in E. repeat split; auto; congruence.
  - cbn [bind]. eexists. split; [reflexivity|].
    cbn [status objective assignment fst snd].
    apply String.eqb_neq in E. repeat split; auto; congruence.
Qed.

(** C10: whatever status code CP-SAT reports, the packaged status is
    "Optimal" for the optimal code, "Infeasible" for the infeasible code and
    "NotSolved" for every other code; it is never "Unbounded". *)
Theorem cp_sat_status_is_never_unbounded (solver : CpSolver) (status_code : Z)
    (xs : list cp_var) (P : CanonicalProblem) :
  length xs ≤ length (var_names P) →
  ∃ r, _pack_result solver status_code xs P = Ok r
       ∧ status r = (if (status_code =? cp_OPTIMAL)%Z then "Optimal"
                     else if (status_code =? cp_INFEASIBLE)%Z then "Infeasible"
                     else "NotSolved")%string
       ∧ status r ≠ "Unbounded"%string.
Proof.
  intros Hlen.
  destruct (_pack_result_spec solver status_code xs P Hlen) as (r & Hr & Hs & _).
  exists r. split; [exact Hr|]. split; [exact Hs|]. rewrite Hs.
  destruct (cp_status_cases status_code) as [[-> _]|[[-> _]|[-> _]]]; discriminate.
Qed.

Lemma cp_sat_status_is_never_unbounded_witness :
  length [NewBoolVar "x1"; NewBoolVar "x2"] ≤ length (var_names two_binaries)
  ∧ ∃ r, _pack_result (cp_reports 3 {| cp_vars := []; cp_constraints := [];
                                       cp_minimize := true; cp_objective := [] |}
                         {| max_time_in_seconds := None; num_search_workers := 8 |})
           3 [NewBoolVar "x1"; NewBoolVar "x2"] two_binaries = Ok r
         ∧ status r = (if (3 =? cp_OPTIMAL)%Z then "Optimal"
                       else if (3 =? cp_INFEASIBLE)%Z then "Infeasible"
                       else "NotSolved")%string
         ∧ status r ≠ "Unbounded"%string.
Proof.
  split; [simpl; lia|].
  apply cp_sat_status_is_never_unbounded. simpl. lia.
Defined.




(** ** The objective on the two routes *)

(** On the CBC route an optimal result carries the value the backend
    reported, as it is. *)
Lemma cbc_objective_is_backend_value (solve : LpModel → LpSolver)
    (P : CanonicalProblem) (time_limit : option pynum) (r : milp_result) :
  _solve_mip_cbc_mixed (Some solve) P time_limit = Ok r →
  status r = "Optimal"%string →
  ∃ model, lp_result_status (solve model) = lp_OPTIMAL
           ∧ objective r = Some (lp_objective_value (solve model)).
Proof.
  unfold _solve_mip_cbc_mixed.
  destruct (time_limit_ms time_limit) as [limit|]; cbn [bind]; [|discriminate].
  destruct (for_each (lp_build_var P) _ _) as [xs|]; cbn [bind]; [|discriminate].
  destruct (lp_block xs (A_eq P) _ _) as [eqs|]; cbn [bind]; [|discriminate].
  destruct (lp_block xs (A_ub P) _ _) as [ubs|]; cbn [bind]; [|discriminate].
  destruct (lp_linear_sum (c P) xs) as [obj|]; cbn [bind]; [|discriminate].
  match goal with |- context [solve ?m] => set (model := m) end.
  destruct (String.eqb (lp_status (lp_result_status (solve model))) "Optimal") eqn:E.
  - destruct (for_each _ (enumerate (var_names P)) ∅) as [d|];
      cbn [bind]; [|discriminate].
    intros [= <-] _. exists model. split; [|reflexivity].
    apply String.eqb_eq in E. unfold lp_status in E.
    destruct (_ =? lp_OPTIMAL)%Z eqn:E1; [lia|].
    destruct (_ =? lp_INFEASIBLE)%Z; [discriminate|].
    destruct (_ =? lp_UNBOUNDED)%Z; discriminate.
  - cbn [bind]. intros [= <-]. cbn [status]. intros H.
    apply String.eqb_neq in E. contradiction.
Qed.

(** C2 (the code departs from the claim on the CBC route): the problem
    [minimize x], [x >= 0] continuous, with [obj_offset = 5.0] is routed to
    CBC; when CBC reports an optimum of value [v], the returned objective is
    [v], not [v + 5].  The CP-SAT route adds the offset
    ([solve_milp_cp_sat_route]). *)
Theorem cbc_route_drops_obj_offset (v : Q) :
  ∃ P r,
    _normalize problem_with_offset = Ok P
    ∧ obj_offset P = Fin 5
    ∧ solve_milp (env_reports (Fin v) 4) problem_with_offset None
      = ([CreateSolver_CBC], Ok r)
    ∧ status r = "Optimal"%string
    ∧ objective r = Some (Fin v)
    ∧ ¬ (v == v + 5)%Q.
Proof.
  eexists. eexists.
  split; [vm_compute; reflexivity|].
  split; [reflexivity|].
  split; [vm_compute; reflexivity|].
  split; [reflexivity|]. split; [reflexivity|].
  intros H. lra.
Qed.

(** With CBC reporting the optimum 0.0, the returned objective is 0.0 and
    the float sum of the reported value and the offset is 5.0. *)
Example cbc_route_offset_example :
  ∃ P r,
    _normalize problem_with_offset = Ok P
    ∧ solve_milp (env_reports (Fin 0) 4) problem_with_offset None
      = ([CreateSolver_CBC], Ok r)
    ∧ objective r = Some (Fin 0)
    ∧ fadd (Fin 0) (obj_offset P) = Fin 5.
Proof.
  eexists. eexists.
  split; [vm_compute; reflexivity|].
  split; [vm_compute; reflexivity|].
  split; vm_compute; reflexivity.
Qed.

End MilpProofs.

(* ===================================================================== *)
(** * Properties of lpnetlib_adapter.py                                   *)
(* ===================================================================== *)

Section LpnetlibProofs.
Import Py lpnetlib_adapter lpnetlib_ref.

Lemma select_nil_r {A : Type} (mask : list bool) : select mask (@nil A) = [].
Proof. unfold select. now rewrite zip_with_nil_r. Qed.

Lemma select_cons {A : Type} (b : bool) (mask : list bool) (x : A) (l : list A) :
  select (b :: mask) (x :: l)
  = if b then x :: select mask l else select mask l.
Proof.
  unfold select. cbn [zip zip_with]. destruct b.
  - now rewrite filter_cons_True.
  - now rewrite filter_cons_False.
Qed.

Lemma np_where_gen (mask : list bool) (k : nat) :
  map fst (filter (fun ib : nat * bool => snd ib = true) (zip (seq k (length mask)) mask))
  = match mask with
    | [] => []
    | b :: mask' =>
        (if b then [k] else [])
        ++ map fst (filter (fun ib : nat * bool => snd ib = true)
                      (zip (seq (S k) (length mask')) mask'))
    end.
Proof.
  destruct mask as [|b mask]; [reflexivity|].
  cbn [length seq zip zip_with]. destruct b.
  - now rewrite filter_cons_True.
  - now rewrite filter_cons_False.
Qed.

(** Indexing by [np.where(mask)] selects the masked entries and cannot
    raise. *)
Lemma take_idx_where_gen {A : Type} (l : list A) (mask : list bool) :
  ∀ k, (length mask + k ≤ length l)%nat →
    traverse (fun i => getitem l (Z.of_nat i))
      (map fst (filter (fun ib : nat * bool => snd ib = true)
                  (zip (seq k (length mask)) mask)))
    = Ok (select mask (drop k l)).
Proof.
  induction mask as [|b mask IH]; intros k Hk.
  - reflexivity.
  - rewrite np_where_gen. simpl in Hk.
    destruct (lookup_lt_is_Some_2 l k ltac:(lia)) as [x Hx].
    rewrite (drop_S _ _ _ Hx), select_cons.
    specialize (IH (S k) ltac:(lia)).
    destruct b; cbn [app traverse].
    + rewrite (getitem_nat _ _ _ Hx). cbn [bind]. now rewrite IH.
    + exact IH.
Qed.

Lemma take_idx_where {A : Type} (l : list A) (mask : list bool) :
  (length mask ≤ length l)%nat →
  take_idx l (np_where mask) = Ok (select mask l).
Proof.
  intros H. unfold take_idx, np_where, enumerate.
  rewrite (take_idx_where_gen l mask 0) by lia. reflexivity.
Qed.

Lemma length_np_where {A : Type} (mask : list bool) (l : list A) :
  length mask = length l → length (np_where mask) = length (select mask l).
Proof.
  unfold np_where, enumerate. generalize 0%nat. revert l.
  induction mask as [|b mask IH]; intros [|x l] k; try discriminate.
  - reflexivity.
  - intros [= H]. rewrite np_where_gen, select_cons.
    destruct b; simpl; now rewrite (IH l).
Qed.

(** ** The three masks of the code are the three classes *)

Lemma eq_row_sym (eq_tol : Q) (l u : pyfloat) :
  isfinite l && isfinite u && fle (fabs (fsub l u)) (Fin eq_tol)
  = eq_row eq_tol l u.
Proof.
  unfold eq_row. now rewrite (fabs_fsub_swap l u).
Qed.

Lemma is_eq_mask_spec (eq_tol : Q) (rl_vec ru_vec : list pyfloat) :
  is_eq_mask rl_vec ru_vec eq_tol = zip_with (eq_row eq_tol) rl_vec ru_vec.
Proof.
  unfold is_eq_mask. revert ru_vec.
  induction rl_vec as [|l rl IH]; intros [|u ru]; try reflexivity.
  cbn [zip_with]. now rewrite eq_row_sym, IH.
Qed.

Lemma le_mask_spec (eq_tol : Q) (rl_vec ru_vec : list pyfloat) :
  length rl_vec = length ru_vec →
  zip_with (fun u e => isfinite u && negb e) ru_vec
    (zip_with (eq_row eq_tol) rl_vec ru_vec)
  = zip_with (le_row eq_tol) rl_vec ru_vec.
Proof.
  revert ru_vec. induction rl_vec as [|l rl IH]; intros [|u ru]; try discriminate.
  - reflexivity.
  - intros [= H]. cbn [zip_with]. now rewrite IH.
Qed.

Lemma ge_mask_spec (eq_tol : Q) (rl_vec ru_vec : list pyfloat) :
  length rl_vec = length ru_vec →
  zip_with (fun l e => isfinite l && negb e) rl_vec
    (zip_with (eq_row eq_tol) rl_vec ru_vec)
  = zip_with (ge_row eq_tol) rl_vec ru_vec.
Proof.
  revert ru_vec. induction rl_vec as [|l rl IH]; intros [|u ru]; try discriminate.
  - reflexivity.
  - intros [= H]. cbn [zip_with]. now rewrite IH.
Qed.

(** An equality row is neither a <=-row nor a >=-row. *)
Lemma eq_row_exclusive (eq_tol : Q) (l u : pyfloat) :
  eq_row eq_tol l u = true →
  le_row eq_tol l u = false ∧ ge_row eq_tol l u = false.
Proof.
  intros H. unfold le_row, ge_row. rewrite H, !andb_false_r. auto.
Qed.

Lemma take_block {A : Type} (l : list A) (mask : list bool) :
  length mask = length l →
  take_idx l (np_where mask) = Ok (select mask l)
  ∧ ((length (np_where mask) =? 0)%nat = true → select mask l = []).
Proof.
  intros H. split; [apply take_idx_where; lia|].
  rewrite (length_np_where mask l H). intros E. apply Nat.eqb_eq in E.
  now destruct (select mask l).
Qed.

(** The number of emitted copies, row by row. *)
Lemma emitted_count {X : Type} (eq_tol : Q) (A : list X) :
  ∀ rl_vec ru_vec, length rl_vec = length A → length ru_vec = length A →
    (length (select (zip_with (eq_row eq_tol) rl_vec ru_vec) A)
     + (length (select (zip_with (le_row eq_tol) rl_vec ru_vec) A)
        + length (select (zip_with (ge_row eq_tol) rl_vec ru_vec) A)))%nat
    = sum_list (zip_with (copies eq_tol) rl_vec ru_vec).
Proof.
  induction A as [|x A IH]; intros [|l rl] [|u ru]; try discriminate.
  - reflexivity.
  - intros [= Hl] [= Hu]. cbn [zip_with sum_list sum_list_with].
    rewrite !select_cons, <- (IH rl ru Hl Hu).
    unfold copies, le_row, ge_row.
    destruct (eq_row eq_tol l u), (isfinite u), (isfinite l); simpl; lia.
Qed.

Lemma sum_list_all_one (eq_tol : Q) (rl_vec ru_vec : list pyfloat) :
  Forall2 (fun l u => copies eq_tol l u = 1%nat) rl_vec ru_vec →
  sum_list (zip_with (copies eq_tol) rl_vec ru_vec) = length rl_vec.
Proof.
  induction 1 as [|l u rl ru H _ IH]; [reflexivity|].
  cbn [zip_with sum_list sum_list_with length]. rewrite H.
  change (sum_list_with id ?l) with (sum_list l). rewrite IH. reflexivity.
Qed.

(** C3, amended: the partition returns; an equality row (both bounds
    finite, within the tolerance) is emitted once, in [A_eq], and is in no
    other class; any other row is emitted in [A_ub] once for a finite upper
    bound and once, negated, for a finite lower bound.  So the rows emitted
    number one per equality row plus one per finite bound of the other
    rows, which is [m] when every row is an equality or has exactly one
    finite bound. *)
Theorem row_partition_emits_one_row_per_finite_bound
    (A : list (list pyfloat)) (rl_vec ru_vec : list pyfloat) (eq_tol : Q) :
  length rl_vec = length A → length ru_vec = length A →
  ∃ rc, partition_rows A rl_vec ru_vec eq_tol = Ok rc
    ∧ rows_of (rc_A_eq rc) = select (zip_with (eq_row eq_tol) rl_vec ru_vec) A
    ∧ concat (rc_A_ub_blocks rc)
      = select (zip_with (le_row eq_tol) rl_vec ru_vec) A
        ++ map (map fneg) (select (zip_with (ge_row eq_tol) rl_vec ru_vec) A)
    ∧ concat (rc_b_ub_blocks rc)
      = select (zip_with (le_row eq_tol) rl_vec ru_vec) ru_vec
        ++ map fneg (select (zip_with (ge_row eq_tol) rl_vec ru_vec) rl_vec)
    ∧ (∀ l u, eq_row eq_tol l u = true →
              le_row eq_tol l u = false ∧ ge_row eq_tol l u = false)
    ∧ emitted_rows rc = sum_list (zip_with (copies eq_tol) rl_vec ru_vec)
    ∧ (Forall2 (fun l u => copies eq_tol l u = 1%nat) rl_vec ru_vec →
       emitted_rows rc = length A).
Proof.
  intros Hl Hu. unfold partition_rows.
  rewrite is_eq_mask_spec, le_mask_spec, ge_mask_spec by congruence.
  set (eqm := zip_with (eq_row eq_tol) rl_vec ru_vec).
  set (lem := zip_with (le_row eq_tol) rl_vec ru_vec).
  set (gem := zip_with (ge_row eq_tol) rl_vec ru_vec).
  assert (Hlen : ∀ f : pyfloat → pyfloat → bool,
             length (zip_with f rl_vec ru_vec) = length A).
  { intros f. rewrite length_zip_with. lia. }
  destruct (take_block A eqm (Hlen _)) as [HeA HeA0].
  destruct (take_block ru_vec eqm ltac:(rewrite Hu; apply Hlen)) as [Heb _].
  destruct (take_block A lem (Hlen _)) as [HlA HlA0].
  destruct (take_block ru_vec lem ltac:(rewrite Hu; apply Hlen)) as [Hlb Hlb0].
  destruct (take_block A gem (Hlen _)) as [HgA HgA0].
  destruct (take_block rl_vec gem ltac:(rewrite Hl; apply Hlen)) as [Hgb Hgb0].
  rewrite HeA, Heb, HlA, Hlb, HgA, Hgb.
  pose proof (emitted_count eq_tol A rl_vec ru_vec Hl Hu) as Hc.
  fold eqm lem gem in Hc.
  destruct (length (np_where eqm) =? 0)%nat,
           (length (np_where lem) =? 0)%nat,
           (length (np_where gem) =? 0)%nat;
    cbn [negb bind fst snd];
    (eexists; split; [reflexivity|]);
    unfold emitted_rows;
    cbn [rc_A_eq rc_b_eq rc_A_ub_blocks rc_b_ub_blocks rows_of fst snd app concat];
    try (rewrite (HeA0 eq_refl) in * );
    try (rewrite (HlA0 eq_refl) in * ); try (rewrite (Hlb0 eq_refl) in * );
    try (rewrite (HgA0 eq_refl) in * ); try (rewrite (Hgb0 eq_refl) in * );
    rewrite ?app_nil_r; cbn [map app length] in *;
    (split; [reflexivity|]); (split; [reflexivity|]); (split; [reflexivity|]);
    (split; [intros l u H; apply (eq_row_exclusive eq_tol l u H)|]);
    rewrite ?length_app, ?length_map;
    (split; [lia|]);
    intros Hall; rewrite (sum_list_all_one eq_tol _ _ Hall) in Hc; lia.
Qed.

Lemma row_partition_emits_one_row_per_finite_bound_witness :
  length [Fin 0; NegInf; Fin 3] = length [[Fin 1]; [Fin 2]; [Fin 5]]
  ∧ length [Fin 0; Fin 4; PosInf] = length [[Fin 1]; [Fin 2]; [Fin 5]]
  ∧ ∃ rc, partition_rows [[Fin 1]; [Fin 2]; [Fin 5]] [Fin 0; NegInf; Fin 3]
            [Fin 0; Fin 4; PosInf] eq_tol_default = Ok rc
      ∧ rows_of (rc_A_eq rc)
        = select (zip_with (eq_row eq_tol_default) [Fin 0; NegInf; Fin 3]
                    [Fin 0; Fin 4; PosInf]) [[Fin 1]; [Fin 2]; [Fin 5]]
      ∧ concat (rc_A_ub_blocks rc)
        = select (zip_with (le_row eq_tol_default) [Fin 0; NegInf; Fin 3]
                    [Fin 0; Fin 4; PosInf]) [[Fin 1]; [Fin 2]; [Fin 5]]
          ++ map (map fneg)
               (select (zip_with (ge_row eq_tol_default) [Fin 0; NegInf; Fin 3]
                          [Fin 0; Fin 4; PosInf]) [[Fin 1]; [Fin 2]; [Fin 5]])
      ∧ concat (rc_b_ub_blocks rc)
        = select (zip_with (le_row eq_tol_default) [Fin 0; NegInf; Fin 3]
                    [Fin 0; Fin 4; PosInf]) [Fin 0; Fin 4; PosInf]
          ++ map fneg
               (select (zip_with (ge_row eq_tol_default) [Fin 0; NegInf; Fin 3]
                          [Fin 0; Fin 4; PosInf]) [Fin 0; NegInf; Fin 3])
      ∧ (∀ l u, eq_row eq_tol_default l u = true →
                le_row eq_tol_default l u = false
                ∧ ge_row eq_tol_default l u = false)
      ∧ emitted_rows rc
        = sum_list (zip_with (copies eq_tol_default) [Fin 0; NegInf; Fin 3]
                      [Fin 0; Fin 4; PosInf])
      ∧ (Forall2 (fun l u => copies eq_tol_default l u = 1%nat)
           [Fin 0; NegInf; Fin 3] [Fin 0; Fin 4; PosInf] →
         emitted_rows rc = length [[Fin 1]; [Fin 2]; [Fin 5]]).
Proof.
  split; [reflexivity|]. split; [reflexivity|].
  apply row_partition_emits_one_row_per_finite_bound; reflexivity.
Defined.

(** C3 as stated fails: a row with two distinct finite bounds is both a
    <=-row and a >=-row and is emitted twice; a row without a finite bound
    is in no class and is not emitted. *)
Lemma range_row_is_emitted_twice :
  (∃ p, load_lpnetlib_mat no_float "lp.mat" mat_range_row eq_tol_default = Ok p
        ∧ A_eq p = None
        ∧ A_ub p = Some [[Fin 1]; [fneg (Fin 1)]]
        ∧ emitted_rows_of_problem p = 2%nat)
  ∧ le_row eq_tol_default (Fin 0) (Fin 1) = true
  ∧ ge_row eq_tol_default (Fin 0) (Fin 1) = true
  ∧ (∃ p, load_lpnetlib_mat no_float "lp.mat" mat_free_row eq_tol_default = Ok p
          ∧ emitted_rows_of_problem p = 0%nat).
Proof.
  split.
  { eexists. split; [vm_compute; reflexivity|]. repeat split. }
  split; [reflexivity|]. split; [reflexivity|].
  eexists. split; [vm_compute; reflexivity|]. reflexivity.
Qed.

(** ** The objective offset *)

Lemma build_problem_no_offset (float_of_str : string → option pyfloat)
    (path : string) (mat : list (string * matval)) (eq_tol : Q)
    (problem : problem_dict) :
  build_problem float_of_str path mat eq_tol = Ok problem →
  obj_offset problem = None.
Proof.
  unfold build_problem.
  destruct (match fetch mat ["A"; "a"; "M"; "mat"]%string with
            | Some A => Some A
            | None => _
            end) as [A|]; [|discriminate].
  destruct (fetch mat ["c"; "f"; "cost"; "obj"; "objective"]%string) as [c0|];
    [|discriminate].
  destruct (_to_csr A) as [[rows n]|]; cbn [bind]; [|discriminate].
  destruct (_ensure_1d_float float_of_str c0); cbn [bind]; [|discriminate].
  destruct (negb _); [discriminate|].
  destruct (match fetch mat ["lo"; "l"; "lb"; "lower"; "xl"; "xlow"]%string with
            | Some lo => _
            | None => _
            end); cbn [bind]; [|discriminate].
  destruct (match fetch mat ["hi"; "u"; "ub"; "upper"; "xu"; "xupp"]%string with
            | Some hi => _
            | None => _
            end); cbn [bind]; [|discriminate].
  destruct (_ || _); [discriminate|].
  destruct (build_rows _ _ _ _ _ _); cbn [bind]; [|discriminate].
  intros [= <-]. reflexivity.
Qed.

(** C8: once the rest of the load succeeds, the objective constant cannot
    make it fail.  A value that converts to a float is stored as
    [obj_offset]; a value that does not is dropped, and the problem is the
    one that would be returned without it. *)
Theorem malformed_z0_is_dropped (float_of_str : string → option pyfloat)
    (path : string) (mat : list (string * matval)) (eq_tol : Q)
    (problem : problem_dict) (z0 : matval) :
  build_problem float_of_str path mat eq_tol = Ok problem →
  fetch mat z0_names = Some z0 →
  ∃ p, load_lpnetlib_mat float_of_str path mat eq_tol = Ok p
       ∧ (raises (z0_to_float float_of_str z0) →
          p = problem ∧ obj_offset p = None)
       ∧ (∀ x, z0_to_float float_of_str z0 = Ok x →
               obj_offset p = Some x
               ∧ (sense p, c p, bounds p, var_names p, metadata p)
                 = (sense problem, c problem, bounds problem,
                    var_names problem, metadata problem)
               ∧ (A_eq p, b_eq p, A_ub p, b_ub p)
                 = (A_eq problem, b_eq problem, A_ub problem, b_ub problem)).
Proof.
  intros Hb Hz. unfold load_lpnetlib_mat. rewrite Hb, Hz. cbn [bind].
  eexists. split; [reflexivity|]. unfold store_obj_offset.
  destruct (z0_to_float float_of_str z0) as [x|e].
  - split; [contradiction|]. intros x' [= <-]. repeat split.
  - split; [|discriminate]. intros _. split; [reflexivity|].
    eapply build_problem_no_offset, Hb.
Qed.

Lemma malformed_z0_is_dropped_witness :
  ∃ problem,
    build_problem no_float "lp.mat" (mat_with_z0 (MVec [])) eq_tol_default
    = Ok problem
    ∧ fetch (mat_with_z0 (MVec [])) z0_names = Some (MVec [])
    ∧ ∃ p, load_lpnetlib_mat no_float "lp.mat" (mat_with_z0 (MVec []))
             eq_tol_default = Ok p
           ∧ (raises (z0_to_float no_float (MVec [])) →
              p = problem ∧ obj_offset p = None)
           ∧ (∀ x, z0_to_float no_float (MVec []) = Ok x →
                   obj_offset p = Some x
                   ∧ (sense p, c p, bounds p, var_names p, metadata p)
                     = (sense problem, c problem, bounds problem,
                        var_names problem, metadata problem)
                   ∧ (A_eq p, b_eq p, A_ub p, b_ub p)
                     = (A_eq problem, b_eq problem, A_ub problem, b_ub problem)).
Proof.
  eexists. split; [vm_compute; reflexivity|]. split; [reflexivity|].
  apply malformed_z0_is_dropped; [vm_compute; reflexivity|reflexivity].
Defined.

(** A scalar constant is stored; an empty array and a string that is not a
    number are dropped. *)
Example z0_scalar_is_stored :
  ∃ p, load_lpnetlib_mat no_float "lp.mat" (mat_with_z0 (MNum (Fin 7)))
         eq_tol_default = Ok p
       ∧ obj_offset p = Some (Fin 7)
       ∧ A_ub p = Some [[fneg (Fin 1)]] ∧ b_ub p = Some [fneg (Fin 2)].
Proof. eexists. split; [vm_compute; reflexivity|]. repeat split. Qed.

Example z0_string_is_dropped :
  ∃ p, load_lpnetlib_mat no_float "lp.mat" (mat_with_z0 (MStr "n/a"))
         eq_tol_default = Ok p
       ∧ obj_offset p = None.
Proof. eexists. split; [vm_compute; reflexivity|]. reflexivity. Qed.

End LpnetlibProofs.

(* ===================================================================== *)
(** * Properties of miplib_solu.py                                        *)
(* ===================================================================== *)

Section MiplibProofs.
Import Py miplib_solu miplib_ref.

Variable float_of_str : string → option pyfloat.

Lemma token_nonempty (a : ascii) (cur : list ascii) :
  token (a :: cur) ≠ EmptyString.
Proof.
  unfold token. simpl. destruct (rev cur) as [|b r]; simpl; discriminate.
Qed.

(** [split] yields no empty token. *)
Lemma split_go_nonempty (l : list ascii) :
  ∀ cur t, In t (split_go cur l) → t ≠ EmptyString.
Proof.
  induction l as [|a l IH]; intros cur t; cbn [split_go].
  - destruct cur as [|c cur]; [intros []|].
    intros [<-|[]]. apply token_nonempty.
  - destruct (is_space a); [|apply IH].
    destruct cur as [|c cur]; [apply IH|].
    intros [<-|H]; [apply token_nonempty|eapply IH, H].
Qed.

Lemma split_nonempty (l : list ascii) (t : string) :
  In t (split l) → t ≠ EmptyString.
Proof. apply split_go_nonempty. Qed.

(** The test of the code is membership in the vocabulary. *)
Lemma is_status_spec (tok : string) : is_status tok = true ↔ status_word tok.
Proof.
  unfold is_status, status_word. rewrite existsb_exists. split.
  - intros (k & Hk & E). apply String.eqb_eq in E. now subst.
  - intros H. exists (lower tok). split; [exact H|apply String.eqb_refl].
Qed.

Lemma is_status_false (tok : string) : is_status tok = false ↔ ¬ status_word tok.
Proof.
  rewrite <- is_status_spec. destruct (is_status tok); split; congruence.
Qed.


Lemma find_status_Some (parts : list string) (k j : nat) :
  find_status k parts = Some j →
  ∃ pre tok post, first_status parts pre tok post ∧ j = (k + length pre)%nat.
Proof.
  revert k. induction parts as [|t parts IH]; intros k; [discriminate|].
  cbn [find_status]. destruct (is_status t) eqn:E.
  - intros [= <-]. exists [], t, parts. split; [|simpl; lia].
    split; [reflexivity|]. split; [constructor|now apply is_status_spec].
  - intros H. apply IH in H as (pre & tok & post & (Hp & Hpre & Htok) & ->).
    exists (t :: pre), tok, post. split; [|simpl; lia].
    split; [now rewrite Hp|]. split; [|exact Htok].
    constructor; [now apply is_status_false|exact Hpre].
Qed.



Lemma first_status_index (parts pre : list string) (tok : string)
    (post : list string) (k : nat) :
  first_status parts pre tok post → find_status k parts = Some (k + length pre)%nat.
Proof.
  intros (-> & Hpre & Htok). apply is_status_spec in Htok. revert k.
  induction Hpre as [|t pre Ht _ IH]; intros k; cbn [app find_status length].
  - rewrite Htok. f_equal. lia.
  - apply is_status_false in Ht. rewrite Ht, IH. f_equal. lia.
Qed.


End MiplibProofs.

Section MiplibExamples.
Import Py miplib_solu miplib_ref.


(** The tokens, the status word and the objective of that line. *)
Example fallback_line_tokens :
  tokens "  air04 optimal 56137 " = ["air04"; "optimal"; "56137"]%string
  ∧ last_float decimal_float (tokens "  air04 optimal 56137 ")
    = Some (Fin (inject_Z 56137)).
Proof. split; reflexivity. Qed.

(** A small archive: a comment, a blank line, two tagged lines, three
    fallback lines of which one has no status word. *)
Example parse_small_archive :
  ∃ out,
    parse_miplib_solu decimal_float
      ["# MIPLIB"; "   "; "=opt= air04 56137"; "=inf= bad";
       "neos Optimal 12"; "unknown foo"; "no status here"]%string = Ok out
    ∧ out !! "air04"%string = Some ("optimal"%string, Some (Fin (inject_Z 56137)))
    ∧ out !! "bad"%string = Some ("infeasible"%string, None)
    ∧ out !! "neos"%string = Some ("optimal"%string, Some (Fin (inject_Z 12)))
    ∧ out !! "foo"%string = Some ("unknown"%string, None)
    ∧ out !! "no"%string = None.
Proof.
  eexists. split; [vm_compute; reflexivity|]. repeat split.
Qed.

(** A status word alone on its line is skipped. *)
Example lone_status_word_is_skipped :
  parse_line decimal_float ∅ "optimal" = Ok ∅.
Proof. reflexivity. Qed.

End MiplibExamples.

(* ===================================================================== *)
(** * Further properties of knapsack_utils.py                             *)
(* ===================================================================== *)

Section KnapsackMore.
Import Py knapsack_utils knapsack_ref.








(** ** Integer values: the table is exact *)

Lemma total_value_app (s t : list item) :
  (total_value (s ++ t) == total_value s + total_value t)%Q.
Proof.
  induction s as [|x s IH]; simpl.
  - lra.
  - rewrite IH. lra.
Qed.

Lemma total_weight_app (s t : list item) :
  total_weight (s ++ t) = (total_weight s + total_weight t)%Z.
Proof. induction s as [|x s IH]; simpl; lia. Qed.

Lemma subsets_nil_in {A : Type} (l : list A) : In [] (subsets l).
Proof.
  induction l as [|x l IH]; simpl; [auto|]. apply in_or_app. now left.
Qed.

(** A selection of [l ++ [x]] is a selection of [l], with or without [x]
    at its end. *)
Lemma subsets_snoc {A : Type} (l : list A) (x : A) (s : list A) :
  In s (subsets (l ++ [x]))
  ↔ ∃ s', In s' (subsets l) ∧ (s = s' ∨ s = s' ++ [x]).
Proof.
  revert s. induction l as [|a l IH]; intros s.
  - simpl. split.
    + intros [<-|[<-|[]]]; exists []; simpl; auto.
    + intros (s' & [<-|[]] & [->| ->]); simpl; auto.
  - cbn [app subsets]. rewrite in_app_iff, in_map_iff. split.
    + intros [H|(t & <- & H)]; apply IH in H as (s' & Hs' & Hs).
      * exists s'. split; [apply in_or_app; now left|exact Hs].
      * exists (a :: s'). split.
        -- apply in_or_app. right. now apply in_map.
        -- destruct Hs as [->| ->]; auto.
    + intros (s' & Hs' & Hs). apply in_app_iff in Hs' as [Hs'|Hs'].
      * left. apply IH. eauto.
      * right. apply in_map_iff in Hs' as (t & <- & Ht).
        destruct Hs as [->| ->].
        -- exists t. split; [reflexivity|]. apply IH. eauto.
        -- exists (t ++ [x]). split; [reflexivity|]. apply IH. eauto.
Qed.

Lemma subsets_weight_nonneg (items s : list item) :
  Forall (fun it => (0 <= snd it)%Z) items → In s (subsets items) →
  (0 <= total_weight s)%Z.
Proof.
  intros Hpos. revert s. induction Hpos as [|it items Hit Hpos IH]; intros s.
  - intros [<-|[]]. simpl. lia.
  - simpl. rewrite in_app_iff, in_map_iff.
    intros [H|(t & <- & H)]; [auto|]. specialize (IH t H). simpl. lia.
Qed.

(** ** Brute force *)

Lemma Qmax_cases (a b : Q) :
  (Qmax a b = a ∧ (b <= a)%Q) ∨ (Qmax a b = b ∧ (a <= b)%Q).
Proof.
  unfold Qmax. destruct (Qle_bool a b) eqn:E.
  - right. split; [reflexivity|]. now apply Qle_bool_iff.
  - left. split; [reflexivity|]. apply Qlt_le_weak, Qnot_le_lt. intros H.
    apply Qle_bool_iff in H. congruence.
Qed.

Lemma max_list_spec (l : list Q) (m : Q) :
  max_list l = Some m → In m l ∧ ∀ x, In x l → (x <= m)%Q.
Proof.
  revert m. induction l as [|a l IH]; intros m; [discriminate|].
  cbn [max_list]. destruct (max_list l) as [m'|] eqn:E.
  - intros [= <-]. destruct (IH m' eq_refl) as [Hin Hub].
    destruct (Qmax_cases a m') as [[-> Hle]|[-> Hle]]; split;
      simpl; auto; intros x [<-|Hx]; try lra.
    + specialize (Hub x Hx). lra.
    + now apply Hub.
  - intros [= <-]. destruct l as [|b l].
    + split; [now left|]. intros x [<-|[]]. lra.
    + simpl in E. destruct (max_list l); discriminate.
Qed.

Lemma max_list_is_Some (l : list Q) : l ≠ [] → ∃ m, max_list l = Some m.
Proof.
  destruct l as [|a l]; [congruence|]. intros _. simpl.
  destruct (max_list l); eauto.
Qed.

Lemma in_feasible_values (items s : list item) (capacity : Z) :
  In s (subsets items) → (total_weight s <= capacity)%Z →
  In (total_value s)
     (map total_value
        (filter (fun s => feasible capacity s = true) (subsets items))).
Proof.
  intros Hs Hw. apply in_map, list_elem_of_In, list_elem_of_filter.
  split; [|now apply list_elem_of_In]. unfold feasible. lia.
Qed.

(** A cell of an optimal row is the brute-force maximum. *)
Lemma optimal_row_brute_force (capacity : Z) (items : list item) (row : list Q) :
  (0 <= capacity)%Z → optimal_row capacity items row →
  ∃ m, brute_force items capacity = Some m
       ∧ (nth (Z.to_nat capacity) row 0 == m)%Q.
Proof.
  intros Hcap [_ Hopt].
  destruct (Hopt capacity ltac:(lia)) as [(s & Hs & Hw & Hv) Hub].
  pose proof (in_feasible_values items s capacity Hs Hw) as Hin.
  destruct (max_list_is_Some _ (fun E => eq_ind _ (fun l => In _ l) Hin _ E))
    as [m Hm].
  exists m. split; [exact Hm|].
  destruct (max_list_spec _ _ Hm) as [Hmin Hmub].
  specialize (Hmub _ Hin).
  apply in_map_iff in Hmin as (s' & <- & Hs').
  apply list_elem_of_In, list_elem_of_filter in Hs' as [Hf Hs'].
  apply list_elem_of_In in Hs'. unfold feasible in Hf.
  specialize (Hub s' Hs' ltac:(lia)). lra.
Qed.

Lemma in_range_bounds (lo hi w : Z) : In w (range lo hi) → (lo <= w < hi)%Z.
Proof.
  unfold range. rewrite in_map_iff. intros (k & <- & Hk).
  apply in_seq in Hk. lia.
Qed.


Lemma subset_abs_bound (items s : list item) :
  In s (subsets items) → (Qabs (total_value s) <= abs_total items)%Q.
Proof.
  revert s. induction items as [|it items IH]; intros s.
  - intros [<-|[]]. exact (Qle_refl 0).
  - cbn [subsets abs_total fold_right]. fold (abs_total items).
    rewrite in_app_iff, in_map_iff. intros [H|(t & <- & H)].
    + specialize (IH s H). pose proof (Qabs_nonneg (fst it)). lra.
    + specialize (IH t H). cbn [total_value fold_right]. fold (total_value t).
      eapply Qle_trans; [apply Qabs_triangle|]. lra.
Qed.

Lemma abs_total_app (l l' : list item) :
  (abs_total (l ++ l') == abs_total l + abs_total l')%Q.
Proof.
  unfold abs_total. induction l as [|x l IH]; cbn [app fold_right]; [ring|].
  rewrite IH. ring.
Qed.

Lemma abs_total_nonneg (l : list item) : (0 <= abs_total l)%Q.
Proof.
  unfold abs_total. induction l as [|x l IH]; cbn [fold_right];
    [apply Qle_refl|].
  pose proof (Qabs_nonneg (fst x)). lra.
Qed.

Lemma abs_total_take (l : list item) (k : nat) :
  (abs_total (take k l) <= abs_total l)%Q.
Proof.
  rewrite <- (take_drop k l) at 2. rewrite abs_total_app.
  pose proof (abs_total_nonneg (drop k l)). lra.
Qed.

Lemma abs_sum_nonneg (vals : list Z) : (0 <= abs_sum vals)%Z.
Proof. induction vals as [|a l IH]; simpl; lia. Qed.

Lemma abs_total_exact (vals w_ints : list Z) :
  (abs_total (exact_items vals w_ints) <= inject_Z (abs_sum vals))%Q.
Proof.
  unfold exact_items. revert w_ints.
  induction vals as [|v vals IH]; intros [|wt w_ints].
  - exact (Qle_refl 0).
  - exact (Qle_refl 0).
  - change (0 <= inject_Z (abs_sum (v :: vals)))%Q.
    change 0%Q with (inject_Z 0). rewrite <- Zle_Qle. apply abs_sum_nonneg.
  - change (Qabs (inject_Z v) + abs_total (zip (map inject_Z vals) w_ints)
            <= inject_Z (Z.abs v + abs_sum vals))%Q.
    rewrite inject_Z_plus. specialize (IH w_ints).
    change (Qabs (inject_Z v)) with (inject_Z (Z.abs v)). lra.
Qed.

Lemma nth_float_of_Z (row : list Z) (i : nat) :
  nth i (map float_of_Z row) (Fin 0) = float_of_Z (nth i row 0%Z).
Proof. apply (map_nth float_of_Z row 0%Z i). Qed.

Lemma nth_inject_Z (row : list Z) (i : nat) :
  nth i (map inject_Z row) 0%Q = inject_Z (nth i row 0%Z).
Proof. apply (map_nth inject_Z row 0%Z i). Qed.

(** One cell: the float cell is the integer cell, because the sum it
    forms is the value of a selection. *)
Lemma cell_exact (capacity : Z) (items : list item) (row : list Z)
    (v wt w : Z) :
  optimal_row capacity items (map inject_Z row) →
  (abs_total (items ++ [(inject_Z v, wt)]) <= inject_Z (2 ^ 53))%Q →
  (0 <= wt)%Z → (0 <= w <= capacity)%Z →
  cell (map float_of_Z row) (float_of_Z v) wt w
  = float_of_Z (cellZ row v wt w).
Proof.
  intros [_ Hopt] Hbound Hwt Hw. unfold cell, cellZ.
  rewrite !nth_float_of_Z. destruct (wt <=? w)%Z eqn:E; [|reflexivity].
  assert (Hw' : (0 <= w - wt <= capacity)%Z) by lia.
  destruct (Hopt (w - wt)%Z Hw') as [(s & Hs & _ & Hv) _].
  rewrite nth_inject_Z in Hv.
  set (zc := nth (Z.to_nat (w - wt)) row 0%Z) in *.
  assert (Hsum : (Z.abs (zc + v) <= 2 ^ 53)%Z).
  { assert (Hin : In (s ++ [(inject_Z v, wt)])
                     (subsets (items ++ [(inject_Z v, wt)]))).
    { apply subsets_snoc. eauto. }
    apply subset_abs_bound in Hin.
    rewrite total_value_app in Hin. cbn [total_value fold_right fst] in Hin.
    rewrite Hv in Hin.
    assert (Hq : (Qabs (inject_Z (zc + v)) <= inject_Z (2 ^ 53))%Q).
    { rewrite inject_Z_plus.
      assert (Heq : (inject_Z zc + (inject_Z v + 0) == inject_Z zc + inject_Z v)%Q)
        by ring.
      rewrite Heq in Hin. lra. }
    change (Qabs (inject_Z (zc + v))) with (inject_Z (Z.abs (zc + v))) in Hq.
    now rewrite <- Zle_Qle in Hq. }
  unfold float_of_Z. rewrite (fadd_int zc v Hsum), fgt_int.
  now destruct (_ <? _)%Z.
Qed.

Lemma next_row_exact (capacity : Z) (items : list item) (row : list Z)
    (v wt : Z) :
  optimal_row capacity items (map inject_Z row) →
  (abs_total (items ++ [(inject_Z v, wt)]) <= inject_Z (2 ^ 53))%Q →
  (0 <= wt)%Z →
  next_row capacity (map float_of_Z row) (float_of_Z v, wt)
  = map float_of_Z (next_rowZ capacity row (v, wt)).
Proof.
  intros Hopt Hbound Hwt. unfold next_row, next_rowZ. rewrite map_map.
  apply map_ext_in. intros w Hw. apply in_range_bounds in Hw. cbn [fst snd].
  apply (cell_exact capacity items); auto. lia.
Qed.

Lemma nth_next_rowZ (capacity : Z) (prev : list Z) (it : Z * Z) (w : Z) :
  (0 <= w <= capacity)%Z →
  nth (Z.to_nat w) (next_rowZ capacity prev it) 0%Z
  = cellZ prev (fst it) (snd it) w.
Proof.
  intros Hw. apply nth_lookup_Some. unfold next_rowZ.
  rewrite lookup_map, lookup_range by lia. simpl. do 2 f_equal. lia.
Qed.

Lemma cellZ_cases (prev : list Z) (v wt w : Z) :
  let best := nth (Z.to_nat w) prev 0%Z in
  let cand := (nth (Z.to_nat (w - wt)) prev 0 + v)%Z in
  (cellZ prev v wt w = best ∧ ((w < wt)%Z ∨ (cand <= best)%Z))
  ∨ (cellZ prev v wt w = cand ∧ (wt <= w)%Z ∧ (best < cand)%Z).
Proof.
  intros best cand. unfold cellZ. fold best. fold cand.
  destruct (wt <=? w)%Z eqn:E; [|left; split; [reflexivity|lia]].
  destruct (best <? cand)%Z eqn:E2; [right|left]; repeat split; lia.
Qed.

(** The recurrence keeps the row optimal when one item is added. *)
Lemma optimal_row_step (capacity : Z) (items : list item) (row : list Z)
    (v wt : Z) :
  Forall (fun it => (0 <= snd it)%Z) items →
  (0 <= wt)%Z → optimal_row capacity items (map inject_Z row) →
  optimal_row capacity (items ++ [(inject_Z v, wt)])
    (map inject_Z (next_rowZ capacity row (v, wt))).
Proof.
  intros Hpos Hwt [Hlen Hopt]. split.
  { unfold next_rowZ. rewrite !length_map, length_range. f_equal. lia. }
  intros w Hw. rewrite nth_inject_Z, nth_next_rowZ by exact Hw. cbn [fst snd].
  destruct (Hopt w Hw) as [(s0 & Hs0 & Hw0 & Hv0) Hub0].
  rewrite nth_inject_Z in Hv0, Hub0.
  destruct (cellZ_cases row v wt w) as [[-> Hc]|(-> & Hfit & Hlt)].
  - split.
    + exists s0. split; [apply subsets_snoc; eauto|auto].
    + intros s Hs Hws. apply subsets_snoc in Hs as (s' & Hs' & [->| ->]).
      * now apply Hub0.
      * rewrite total_weight_app in Hws. simpl in Hws.
        rewrite total_value_app. simpl.
        pose proof (subsets_weight_nonneg items s' Hpos Hs') as Hnn.
        destruct Hc as [Hc|Hc]; [lia|].
        assert (Hw' : (0 <= w - wt <= capacity)%Z) by lia.
        destruct (Hopt (w - wt)%Z Hw') as [_ Hub1].
        rewrite nth_inject_Z in Hub1.
        specialize (Hub1 s' Hs' ltac:(lia)).
        rewrite Zle_Qle, inject_Z_plus in Hc. lra.
  - assert (Hw' : (0 <= w - wt <= capacity)%Z) by lia.
    destruct (Hopt (w - wt)%Z Hw') as [(s1 & Hs1 & Hw1 & Hv1) Hub1].
    rewrite nth_inject_Z in Hv1, Hub1.
    rewrite Zlt_Qlt, inject_Z_plus in Hlt. rewrite inject_Z_plus.
    split.
    + exists (s1 ++ [(inject_Z v, wt)]). split; [apply subsets_snoc; eauto|].
      rewrite total_weight_app, total_value_app. simpl. split; [lia|].
      rewrite Hv1. lra.
    + intros s Hs Hws. apply subsets_snoc in Hs as (s' & Hs' & [->| ->]).
      * specialize (Hub0 s' Hs' Hws). lra.
      * rewrite total_weight_app in Hws. simpl in Hws.
        rewrite total_value_app. simpl.
        specialize (Hub1 s' Hs' ltac:(lia)). lra.
Qed.

Lemma table_rowZ_S (items : list (Z * Z)) (capacity : Z) (k : nat) (it : Z * Z) :
  items !! k = Some it →
  table_rowZ items capacity (S k)
  = next_rowZ capacity (table_rowZ items capacity k) it.
Proof.
  intros H. unfold table_rowZ. rewrite (take_S_r _ _ it H).
  now rewrite fold_left_app.
Qed.

Lemma map_replicate {A B : Type} (f : A → B) (n : nat) (x : A) :
  map f (replicate n x) = replicate n (f x).
Proof. induction n as [|n IH]; [reflexivity|]. cbn [replicate map]. now rewrite IH. Qed.

(** The table of floats is the table of integers, and each of its rows is
    optimal for the items before it. *)
Lemma table_exact (vals w_ints : list Z) (capacity : Z) :
  Forall (fun z => (0 <= z)%Z) w_ints → length vals = length w_ints →
  (abs_sum vals <= 2 ^ 53)%Z →
  ∀ k, k ≤ length vals →
    table_row (zip (map float_of_Z vals) w_ints) capacity k
    = map float_of_Z (table_rowZ (zip vals w_ints) capacity k)
    ∧ optimal_row capacity (take k (exact_items vals w_ints))
        (map inject_Z (table_rowZ (zip vals w_ints) capacity k)).
Proof.
  intros Hpos Hlen Hsum. induction k as [|k IH]; intros Hk.
  - split.
    + unfold table_row, table_rowZ, zero_row, row_after.
      rewrite !take_0. cbn [fold_left]. now rewrite map_replicate.
    + rewrite take_0. split.
      { unfold table_rowZ. rewrite take_0. cbn [fold_left].
        now rewrite length_map, length_replicate. }
      intros w Hw. rewrite nth_inject_Z.
      assert (Hz : nth (Z.to_nat w) (table_rowZ (zip vals w_ints) capacity 0) 0%Z
                   = 0%Z).
      { unfold table_rowZ. rewrite take_0. cbn [fold_left].
        apply nth_lookup_Some, lookup_replicate_2. lia. }
      rewrite Hz. split.
      * exists []. simpl. split; [auto|]. split; [lia|reflexivity].
      * intros s [<-|[]] _. exact (Qle_refl 0).
  - destruct (IH ltac:(lia)) as [IH1 IH2].
    destruct (lookup_lt_is_Some_2 vals k ltac:(lia)) as [v Hv].
    destruct (lookup_lt_is_Some_2 w_ints k ltac:(lia)) as [wt Hwt].
    assert (Hwt0 : (0 <= wt)%Z) by (eapply Forall_lookup_1 in Hpos; eauto).
    assert (Hf : zip (map float_of_Z vals) w_ints !! k = Some (float_of_Z v, wt)).
    { apply lookup_zip_with_Some. exists (float_of_Z v), wt.
      split; [reflexivity|]. split; [|exact Hwt].
      now rewrite lookup_map, Hv. }
    assert (Hz : zip vals w_ints !! k = Some (v, wt)).
    { apply lookup_zip_with_Some. eauto. }
    assert (Hq : exact_items vals w_ints !! k = Some (inject_Z v, wt)).
    { apply lookup_zip_with_Some. exists (inject_Z v), wt.
      split; [reflexivity|]. split; [|exact Hwt].
      now rewrite lookup_map, Hv. }
    rewrite (table_row_S _ _ _ _ Hf), (table_rowZ_S _ _ _ _ Hz), IH1.
    replace (take (S k) (exact_items vals w_ints))
      with (take k (exact_items vals w_ints) ++ [(inject_Z v, wt)])
      by (symmetry; apply take_S_r, Hq).
    assert (Hitems : Forall (fun it : item => (0 <= snd it)%Z)
                       (take k (exact_items vals w_ints))).
    { apply Forall_forall. intros [q z] Hin.
      apply list_elem_of_lookup in Hin as [i Hi].
      apply lookup_take_Some in Hi as [Hi _].
      apply lookup_zip_with_Some in Hi as (q' & z' & [= <- <-] & _ & Hz').
      eapply Forall_lookup_1 in Hpos; eauto. }
    split.
    + apply (next_row_exact capacity (take k (exact_items vals w_ints)));
        auto.
      replace (take k (exact_items vals w_ints) ++ [(inject_Z v, wt)])
        with (take (S k) (exact_items vals w_ints))
        by (apply take_S_r, Hq).
      eapply Qle_trans; [apply abs_total_take|].
      eapply Qle_trans; [apply abs_total_exact|].
      now rewrite <- Zle_Qle.
    + now apply optimal_row_step.
Qed.

(** The values of an exact instance convert to themselves. *)
Lemma abs_le_abs_sum (vals : list Z) (z : Z) :
  In z vals → (Z.abs z <= abs_sum vals)%Z.
Proof.
  induction vals as [|a l IH]; [intros []|].
  pose proof (abs_sum_nonneg l) as Hnn.
  intros [<-|H]; simpl; [lia|]. specialize (IH H). lia.
Qed.

Lemma exact_values_convert (values : list pynum) (vals : list Z) :
  exact_values values vals →
  Forall2 (fun v f => to_float v = Ok f) values (map float_of_Z vals).
Proof.
  intros [H2 Hsum].
  assert (Hall : ∀ z, In z vals → (Z.abs z <= 2 ^ 53)%Z).
  { intros z Hz. pose proof (abs_le_abs_sum vals z Hz). lia. }
  clear Hsum. induction H2 as [|v z values vals Hv _ IH]; [constructor|].
  cbn [map]. constructor.
  - destruct Hv as [->| ->]; cbn [to_float]; [|reflexivity].
    apply float_of_int_exact, Hall. now left.
  - apply IH. intros z' Hz'. apply Hall. now right.
Qed.

Lemma convert_items_exact (values : list pynum) (vals w_ints : list Z) :
  exact_values values vals → length values = length w_ints →
  convert_items (zip values w_ints) = Ok (zip (map float_of_Z vals) w_ints).
Proof.
  intros He Hlen. pose proof (exact_values_convert values vals He) as H2.
  clear He. revert w_ints Hlen. unfold convert_items.
  induction H2 as [|v f values fvals Hv _ IH]; intros [|wt w_ints];
    try discriminate; try reflexivity.
  intros [= Hlen]. cbn [zip zip_with traverse fst snd].
  rewrite Hv. cbn [bind]. now rewrite (IH w_ints Hlen).
Qed.

(** The value bookkeeping of the reconstruction, on the table of
    integers. *)
Lemma recon_loop_value (vals w_ints : list Z) (capacity : Z) :
  Forall (fun z => (0 <= z)%Z) w_ints → length vals = length w_ints →
  (abs_sum vals <= 2 ^ 53)%Z →
  let items := zip (map float_of_Z vals) w_ints in
  let zitems := zip vals w_ints in
  ∀ (k : nat) (st st' : recon_state) (total : Q), k ≤ length vals →
    recon_inv (length vals) w_ints capacity k st →
    (value_of (map inject_Z vals) (selected st)
     + inject_Z (nth (Z.to_nat (rem_w st)) (table_rowZ zitems capacity k) 0%Z)
     == total)%Q →
    for_each (recon_step w_ints (rows_from capacity (zero_row capacity) items))
      (rev (seq 1 k)) st = Ok st' →
    (value_of (map inject_Z vals) (selected st') == total)%Q.
Proof.
  intros Hpos Hlen Hsum items zitems.
  assert (Ei : items = zip (map float_of_Z vals) w_ints) by reflexivity.
  assert (Ez : zitems = zip vals w_ints) by reflexivity.
  clearbody items zitems.
  assert (Hli : length items = length vals).
  { rewrite Ei, length_zip_with, length_map. lia. }
  assert (Hws : map snd items = w_ints).
  { rewrite Ei. clear -Hlen. revert w_ints Hlen.
    induction vals as [|v vals IH]; intros [|wt w_ints]; try discriminate;
      [reflexivity|].
    intros [= H]. cbn [map zip zip_with snd]. now rewrite (IH w_ints H). }
  induction k as [|k IH]; intros st st' total Hk Hinv Hval.
  - cbn [seq rev for_each]. intros [= <-].
    assert (Hz : nth (Z.to_nat (rem_w st)) (table_rowZ zitems capacity 0) 0%Z = 0%Z).
    { destruct Hinv as (Hw & _). unfold table_rowZ. rewrite take_0.
      cbn [fold_left]. apply nth_lookup_Some, lookup_replicate_2. lia. }
    rewrite Hz in Hval. rewrite <- Hval. change (inject_Z 0) with 0%Q. lra.
  - rewrite rev_seq_S. cbn [for_each].
    rewrite <- Hli in Hinv.
    assert (Hk' : k < length items) by lia.
    destruct (recon_step_spec items w_ints capacity k st Hpos Hws Hk' Hinv)
      as (st1 & -> & Hinv1 & Hcase).
    cbn [bind]. unfold fitem in *. rewrite Hli in Hinv1.
    apply IH; [lia|exact Hinv1|].
    destruct Hinv as (Hw & _).
    destruct (table_exact vals w_ints capacity Hpos Hlen Hsum k ltac:(lia))
      as [Hk1 _].
    destruct (table_exact vals w_ints capacity Hpos Hlen Hsum (S k) ltac:(lia))
      as [Hk2 _].
    rewrite <- Ei, <- Ez in Hk1, Hk2.
    rewrite Hk1, Hk2, !nth_float_of_Z in Hcase. unfold float_of_Z in Hcase.
    rewrite fne_int in Hcase.
    destruct Hcase as [[Hne ->]|(Hne & v & wt & Hit & Hfit & ->)].
    + apply negb_false_iff, Z.eqb_eq in Hne. now rewrite <- Hne.
    + apply negb_true_iff, Z.eqb_neq in Hne. cbn [selected rem_w].
      rewrite Ei in Hit.
      apply lookup_zip_with_Some in Hit as (f & wt' & [= <- <-] & Hf & Hwt).
      rewrite lookup_map in Hf.
      destruct (vals !! k) as [z|] eqn:Hz; [|discriminate].
      injection Hf as <-.
      assert (Hzi : zitems !! k = Some (z, wt)).
      { rewrite Ez. apply lookup_zip_with_Some. eauto. }
      rewrite (table_rowZ_S _ _ _ _ Hzi) in Hne, Hval.
      rewrite nth_next_rowZ in Hne, Hval by lia. cbn [fst snd] in Hne, Hval.
      destruct (cellZ_cases (table_rowZ zitems capacity k) z wt (rem_w st))
        as [[Hc _]|(Hc & _ & _)]; rewrite Hc in Hne, Hval; [congruence|].
      rewrite value_of_app. cbn [value_of fold_right].
      rewrite nth_inject_Z, (nth_lookup_Some _ _ _ _ Hz).
      rewrite inject_Z_plus in Hval. rewrite <- Hval. ring.
Qed.

(** An exact instance past the shortcut: the objective is the last cell
    of the table of integers, which is optimal, and the value of the
    selection. *)
Lemma solve_knapsack_01_exact (values weights : list pynum)
    (capacity : pynum) (w_ints : list Z) (cap : Z) (vals : list Z) :
  valid_instance values weights capacity w_ints cap →
  exact_values values vals →
  values ≠ [] → cap ≠ 0%Z →
  ∃ best sel,
    solve_knapsack_01 values weights capacity = Ok (float_of_Z best, sel)
    ∧ optimal_row cap (exact_items vals w_ints)
        (map inject_Z (table_rowZ (zip vals w_ints) cap (length vals)))
    ∧ best = nth (Z.to_nat cap) (table_rowZ (zip vals w_ints) cap (length vals)) 0%Z
    ∧ (value_of (map inject_Z vals) sel == inject_Z best)%Q.
Proof.
  intros Hvalid Hexact Hne Hnz.
  rewrite (solve_knapsack_01_valid values weights capacity w_ints cap Hvalid Hne Hnz).
  destruct Hvalid as (Hlen & _ & Hws & Hcap & Hcap0).
  destruct (normalize_weights_valid weights w_ints Hws) as (_ & _ & Hpos & Hlw).
  assert (Hlen' : length values = length w_ints) by congruence.
  assert (Hlv : length vals = length values).
  { destruct Hexact as [H2 _]. symmetry. eapply Forall2_length, H2. }
  assert (Hlen'' : length vals = length w_ints) by congruence.
  pose proof (dp_and_reconstruct_run values w_ints cap Hpos Hlen' Hcap0) as H.
  rewrite (convert_items_exact values vals w_ints Hexact Hlen') in H.
  destruct H as (_ & _ & st & Hrun & Hinv & ->).
  destruct Hexact as [_ Hsum].
  destruct (table_exact vals w_ints cap Hpos Hlen'' Hsum (length vals) (le_n _))
    as [Hrow Hopt].
  rewrite <- Hlv, Hrow, nth_float_of_Z.
  eexists _, _. split; [reflexivity|].
  split.
  { rewrite take_ge in Hopt; [exact Hopt|].
    unfold exact_items. rewrite length_zip_with, length_map. lia. }
  split; [reflexivity|].
  rewrite value_of_rev.
  apply (recon_loop_value vals w_ints cap Hpos Hlen'' Hsum (length vals)
           {| selected := []; rem_w := cap |} st); auto.
  - unfold recon_inv. cbn [selected rem_w]. repeat split; try lia.
    + constructor.
    + constructor.
  - cbn [selected rem_w value_of fold_right]. lra.
  - now rewrite Hlv.
Qed.

(** Whenever the table is built (at least one item, capacity not zero) on
    integer values whose absolute values sum to at most [2^53], the
    returned objective is the brute-force maximum, and it is the total
    value of the returned selection. *)
Theorem knapsack_table_value_is_brute_force (values weights : list pynum)
    (capacity : pynum) (w_ints : list Z) (cap : Z) (vals : list Z) :
  valid_instance values weights capacity w_ints cap →
  exact_values values vals →
  values ≠ [] → cap ≠ 0%Z →
  ∃ best sel m,
    solve_knapsack_01 values weights capacity = Ok (Fin best, sel)
    ∧ brute_force (exact_items vals w_ints) cap = Some m
    ∧ (best == m)%Q
    ∧ (value_of (map inject_Z vals) sel == best)%Q.
Proof.
  intros Hvalid Hexact Hne Hnz.
  destruct (solve_knapsack_01_exact values weights capacity w_ints cap vals
              Hvalid Hexact Hne Hnz) as (best & sel & Hsolve & Hopt & Hbest & Hval).
  destruct Hvalid as (_ & _ & _ & _ & Hcap0).
  destruct (optimal_row_brute_force cap _ _ Hcap0 Hopt) as (m & Hm & Hbm).
  exists (inject_Z best), sel, m. split; [exact Hsolve|]. split; [exact Hm|].
  split; [|exact Hval].
  rewrite nth_inject_Z in Hbm. now rewrite Hbest.
Qed.

(** On every valid instance with such values, the shortcut included, the
    returned objective is the total value of the returned selection, and
    it is not negative. *)
Theorem knapsack_objective_is_value_of_selection (values weights : list pynum)
    (capacity : pynum) (w_ints : list Z) (cap : Z) (vals : list Z) :
  valid_instance values weights capacity w_ints cap →
  exact_values values vals →
  ∃ best sel,
    solve_knapsack_01 values weights capacity = Ok (Fin best, sel)
    ∧ (value_of (map inject_Z vals) sel == best)%Q
    ∧ (0 <= best)%Q.
Proof.
  intros Hvalid Hexact.
  destruct (decide (values = [] ∨ cap = 0%Z)) as [Hearly|Hlate].
  - destruct Hvalid as (Hlen & _ & Hws & Hcap & Hcap0).
    exists 0%Q, []. unfold solve_knapsack_01.
    rewrite <- Hlen, Nat.eqb_refl. cbn [negb].
    rewrite (num_ltb0_valid capacity cap Hcap Hcap0).
    rewrite (num_eqb0_valid capacity cap Hcap).
    replace ((length values =? 0)%nat || (cap =? 0)%Z) with true.
    + repeat split; simpl; lra.
    + symmetry. apply orb_true_iff. destruct Hearly as [->| ->]; auto.
  - destruct (solve_knapsack_01_exact values weights capacity w_ints cap vals
                Hvalid Hexact) as (best & sel & Hsolve & Hopt & Hbest & Hval).
    + intros ->. apply Hlate. now left.
    + intros ->. apply Hlate. now right.
    + exists (inject_Z best), sel. split; [exact Hsolve|]. split; [exact Hval|].
      destruct Hvalid as (_ & _ & _ & _ & Hcap0).
      destruct Hopt as [_ Hopt].
      destruct (Hopt cap ltac:(lia)) as [_ Hub].
      specialize (Hub [] (subsets_nil_in _) ltac:(simpl; lia)).
      rewrite nth_inject_Z, <- Hbest in Hub. exact Hub.
Qed.

(** ** Items that do not fit *)





End KnapsackMore.

Section KnapsackWitnesses.
Import Py knapsack_utils knapsack_ref.

Lemma toy_instance_is_valid (capacity : pynum) :
  int_value capacity = Some 5%Z →
  valid_instance [PyInt 3; PyFloat (Fin 4); PyInt 5; PyInt 6]
    [PyInt 2; PyInt 3; PyInt 4; PyInt 5] capacity [2; 3; 4; 5]%Z 5.
Proof.
  intros Hc. unfold valid_instance. split; [reflexivity|]. split.
  - repeat constructor; eexists; vm_compute; reflexivity.
  - split; [repeat constructor; simpl; lia|]. split; [exact Hc|lia].
Qed.

Lemma toy_instance_is_exact :
  exact_values [PyInt 3; PyFloat (Fin 4); PyInt 5; PyInt 6] [3; 4; 5; 6]%Z.
Proof.
  split.
  - repeat constructor; first [left; reflexivity|right; reflexivity].
  - vm_compute. discriminate.
Qed.

Lemma knapsack_objective_is_value_of_selection_witness :
  valid_instance [PyInt 3; PyFloat (Fin 4); PyInt 5; PyInt 6]
    [PyInt 2; PyInt 3; PyInt 4; PyInt 5] (PyFloat (Fin 5)) [2; 3; 4; 5]%Z 5
  ∧ exact_values [PyInt 3; PyFloat (Fin 4); PyInt 5; PyInt 6] [3; 4; 5; 6]%Z
  ∧ ∃ best sel,
      solve_knapsack_01 [PyInt 3; PyFloat (Fin 4); PyInt 5; PyInt 6]
        [PyInt 2; PyInt 3; PyInt 4; PyInt 5] (PyFloat (Fin 5)) = Ok (Fin best, sel)
      ∧ (value_of (map inject_Z [3; 4; 5; 6]%Z) sel == best)%Q
      ∧ (0 <= best)%Q.
Proof.
  split; [exact (toy_instance_is_valid (PyFloat (Fin 5)) eq_refl)|].
  split; [exact toy_instance_is_exact|].
  exact (knapsack_objective_is_value_of_selection _ _ _ _ _ _
           (toy_instance_is_valid (PyFloat (Fin 5)) eq_refl) toy_instance_is_exact).
Defined.

Lemma knapsack_table_value_is_brute_force_witness :
  valid_instance [PyInt 3; PyFloat (Fin 4); PyInt 5; PyInt 6]
    [PyInt 2; PyInt 3; PyInt 4; PyInt 5] (PyInt 5) [2; 3; 4; 5]%Z 5
  ∧ exact_values [PyInt 3; PyFloat (Fin 4); PyInt 5; PyInt 6] [3; 4; 5; 6]%Z
  ∧ [PyInt 3; PyFloat (Fin 4); PyInt 5; PyInt 6] ≠ [] ∧ 5%Z ≠ 0%Z
  ∧ ∃ best sel m,
      solve_knapsack_01 [PyInt 3; PyFloat (Fin 4); PyInt 5; PyInt 6]
        [PyInt 2; PyInt 3; PyInt 4; PyInt 5] (PyInt 5) = Ok (Fin best, sel)
      ∧ brute_force (exact_items [3; 4; 5; 6]%Z [2; 3; 4; 5]%Z) 5 = Some m
      ∧ (best == m)%Q
      ∧ (value_of (map inject_Z [3; 4; 5; 6]%Z) sel == best)%Q.
Proof.
  split; [exact (toy_instance_is_valid (PyInt 5) eq_refl)|].
  split; [exact toy_instance_is_exact|].
  split; [discriminate|]. split; [lia|].
  apply (knapsack_table_value_is_brute_force _ _ _ _ _ _
           (toy_instance_is_valid (PyInt 5) eq_refl) toy_instance_is_exact);
    [discriminate|lia].
Defined.


Lemma knapsack_invalid_raises_past_shortcut_witness :
  [PyInt 5] ≠ [] ∧ num_eqb0 (PyInt 10) = false
  ∧ (existsb num_ltb0 [PyInt (-1)] = true ∨ int_value (PyInt 10) = None)
  ∧ raises (solve_knapsack_01 [PyInt 5] [PyInt (-1)] (PyInt 10)).
Proof.
  split; [discriminate|]. split; [reflexivity|]. split; [left; reflexivity|].
  apply knapsack_invalid_raises_past_shortcut;
    [discriminate|reflexivity|left; reflexivity].
Defined.

End KnapsackWitnesses.
(* ===================================================================== *)
(** * Properties of knapsack_burkardt_adapter.py                          *)
(* ===================================================================== *)

Section BurkardtProofs.
Import Py knapsack_utils knapsack_ref knapsack_burkardt_adapter burkardt_ref.

Variable float_of_str : string → option pyfloat.
Variable fs : gmap string (list string).

Lemma otraverse_Forall2 {A B : Type} (f : A → outcome B) (l : list A) :
  ∀ l', otraverse f l = Return l' → Forall2 (fun x y => f x = Return y) l l'.
Proof.
  induction l as [|x l IH]; intros l'; cbn [otraverse].
  - intros [= <-]. constructor.
  - destruct (f x) as [y|] eqn:E; cbn [obind]; [|discriminate].
    destruct (otraverse f l) as [ys|]; cbn [obind]; [|discriminate].
    intros [= <-]. constructor; auto.
Qed.

Lemma py_round_nonneg (q : Q) : (0 <= q)%Q → (0 <= py_round q)%Z.
Proof.
  intros H. pose proof (Qfloor_resp_le 0 q H) as Hf.
  change (Qfloor 0) with 0%Z in Hf.
  destruct (py_round_cases q) as [[-> _]|[-> _]]; lia.
Qed.

Lemma round_near_inv (v : pyfloat) (z : Z) :
  far_from_int v = Return false → round_float v = Return z → near_int v z.
Proof.
  destruct v as [q| | |]; cbn [far_from_int round_float obind]; try discriminate.
  intros [= Hfar] [= <-]. exists q. split; [reflexivity|].
  apply Qle_bool_iff. now apply negb_false_iff in Hfar.
Qed.

Lemma cast_weight_inv (w : pyfloat) (z : Z) :
  cast_weight w = Return z → near_int w z ∧ (0 <= z)%Z.
Proof.
  unfold cast_weight. destruct (float_ltb0 w) eqn:Eneg; [discriminate|].
  destruct (far_from_int w) as [[|]|] eqn:Efar; cbn [obind]; try discriminate.
  intros Hr. split; [now apply round_near_inv|].
  destruct w as [q| | |]; try discriminate. injection Hr as <-.
  apply py_round_nonneg, Qle_bool_iff. now apply negb_false_iff in Eneg.
Qed.

Lemma _read_single_int_inv (path : string) (z : Z) :
  _read_single_int float_of_str fs path = Return z →
  ∃ v, _read_numbers float_of_str fs path = Return [v] ∧ near_int v z.
Proof.
  unfold _read_single_int.
  destruct (_read_numbers float_of_str fs path) as [[|v [|v' vals]]|];
    cbn [obind]; try discriminate.
  destruct (far_from_int v) as [[|]|] eqn:Efar; cbn [obind]; try discriminate.
  intros Hr. exists v. split; [reflexivity|]. now apply round_near_inv.
Qed.

(** The facts a returned instance carries. *)
Lemma load_knapsack_burkardt_inv (dir_path instance : string)
    (d : knapsack_data) :
  load_knapsack_burkardt float_of_str fs dir_path instance = Return d →
  (∃ v, _read_numbers float_of_str fs (file_of dir_path instance "_c.txt")
        = Return [v] ∧ near_int v (capacity d))
  ∧ (∃ weights_f,
       _read_numbers float_of_str fs (file_of dir_path instance "_w.txt")
       = Return weights_f
       ∧ Forall2 near_int weights_f (weights d))
  ∧ _read_numbers float_of_str fs (file_of dir_path instance "_p.txt")
    = Return (values d)
  ∧ length (weights d) = length (values d)
  ∧ Forall (fun z => (0 <= z)%Z) (weights d)
  ∧ match opt_selection d with
    | Some sel => is_Some (fs !! file_of dir_path instance "_s.txt")
                  ∧ length sel = length (values d)
    | None => fs !! file_of dir_path instance "_s.txt" = None
    end
  ∧ metadata d = ("burkardt"%string, lower instance).
Proof.
  unfold load_knapsack_burkardt. fold (file_of dir_path instance "_c.txt").
  fold (file_of dir_path instance "_w.txt").
  fold (file_of dir_path instance "_p.txt").
  fold (file_of dir_path instance "_s.txt").
  destruct (_read_single_int _ _ _) as [cap|] eqn:Ec; cbn [obind]; [|discriminate].
  destruct (_read_numbers _ _ (file_of dir_path instance "_w.txt"))
    as [weights_f|] eqn:Ew; cbn [obind]; [|discriminate].
  destruct (_read_numbers _ _ (file_of dir_path instance "_p.txt"))
    as [values_f|] eqn:Ep; cbn [obind]; [|discriminate].
  destruct (length weights_f =? length values_f)%nat eqn:El; cbn [negb];
    [|discriminate].
  apply Nat.eqb_eq in El.
  destruct (otraverse cast_weight weights_f) as [ws|] eqn:Et; cbn [obind];
    [|discriminate].
  apply otraverse_Forall2 in Et.
  assert (Hws : Forall2 near_int weights_f ws ∧ Forall (fun z => (0 <= z)%Z) ws).
  { clear El Ew. induction Et as [|w z wf zs Hw _ [IH1 IH2]]; [split; constructor|].
    apply cast_weight_inv in Hw as [Hn Hz]. split; constructor; auto. }
  destruct Hws as [Hnear Hpos].
  assert (Hlen : length ws = length values_f).
  { rewrite <- El. symmetry. eapply Forall2_length, Et. }
  destruct (fs !! file_of dir_path instance "_s.txt") as [slines|] eqn:Es.
  - destruct (_read_numbers _ _ (file_of dir_path instance "_s.txt")) as [sv|];
      cbn [obind]; [|discriminate].
    destruct (length sv =? length values_f)%nat eqn:Els; cbn [negb]; [|discriminate].
    destruct (otraverse round_float sv) as [sel|] eqn:Esel; cbn [obind];
      [|discriminate].
    intros [= <-]. cbn.
    split; [now apply _read_single_int_inv|]. split; [eauto|].
    split; [reflexivity|]. split; [exact Hlen|]. split; [exact Hpos|].
    split; [|reflexivity]. split; [eauto|].
    apply otraverse_Forall2, Forall2_length in Esel. apply Nat.eqb_eq in Els. lia.
  - cbn [obind]. intros [= <-]. cbn.
    split; [now apply _read_single_int_inv|]. split; [eauto|].
    repeat split; auto.
Qed.

(** What a successful load guarantees: the capacity file holds one number,
    within 1e-9 of the returned capacity; the weights are the numbers of
    the weights file, each non-negative and within 1e-9 of it; the values
    are the numbers of the values file, as many as the weights; the
    selection is present exactly when its file exists, and is as long as
    the values; the instance name is recorded in lower case. *)
Theorem burkardt_loaded_instance_is_well_formed (dir_path instance : string)
    (d : knapsack_data) :
  load_knapsack_burkardt float_of_str fs dir_path instance = Return d →
  (∃ v, _read_numbers float_of_str fs (file_of dir_path instance "_c.txt")
        = Return [v] ∧ near_int v (capacity d))
  ∧ (∃ weights_f,
       _read_numbers float_of_str fs (file_of dir_path instance "_w.txt")
       = Return weights_f
       ∧ Forall2 near_int weights_f (weights d))
  ∧ _read_numbers float_of_str fs (file_of dir_path instance "_p.txt")
    = Return (values d)
  ∧ length (weights d) = length (values d)
  ∧ Forall (fun z => (0 <= z)%Z) (weights d)
  ∧ match opt_selection d with
    | Some sel => is_Some (fs !! file_of dir_path instance "_s.txt")
                  ∧ length sel = length (values d)
    | None => fs !! file_of dir_path instance "_s.txt" = None
    end
  ∧ metadata d = ("burkardt"%string, lower instance).
Proof. apply load_knapsack_burkardt_inv. Qed.

End BurkardtProofs.

Section BurkardtMore.
Import Py knapsack_utils knapsack_ref knapsack_burkardt_adapter burkardt_ref.

Lemma burkardt_loaded_instance_is_well_formed_witness :
  ∃ d,
    load_knapsack_burkardt miplib_ref.decimal_float toy_files "data" "Toy"
    = Return d
    ∧ (∃ v, _read_numbers miplib_ref.decimal_float toy_files
              (file_of "data" "Toy" "_c.txt") = Return [v]
            ∧ near_int v (capacity d))
    ∧ (∃ weights_f,
         _read_numbers miplib_ref.decimal_float toy_files
           (file_of "data" "Toy" "_w.txt") = Return weights_f
         ∧ Forall2 near_int weights_f (weights d))
    ∧ _read_numbers miplib_ref.decimal_float toy_files
        (file_of "data" "Toy" "_p.txt") = Return (values d)
    ∧ length (weights d) = length (values d)
    ∧ Forall (fun z => (0 <= z)%Z) (weights d)
    ∧ match opt_selection d with
      | Some sel => is_Some (toy_files !! file_of "data" "Toy" "_s.txt")
                    ∧ length sel = length (values d)
      | None => toy_files !! file_of "data" "Toy" "_s.txt" = None
      end
    ∧ metadata d = ("burkardt"%string, lower "Toy").
Proof.
  eexists. split; [vm_compute; reflexivity|].
  apply burkardt_loaded_instance_is_well_formed. vm_compute. reflexivity.
Defined.

(** The toy instance as loaded. *)
Example burkardt_toy_instance :
  load_knapsack_burkardt miplib_ref.decimal_float toy_files "data" "Toy"
  = Return {| values := [Fin (inject_Z 40); Fin (inject_Z 60); Fin (inject_Z 55)];
              weights := [4; 7; 5]%Z; capacity := 10;
              opt_selection := Some [1; 0; 1]%Z;
              metadata := ("burkardt", "toy")%string |}.
Proof. vm_compute. reflexivity. Qed.

Lemma lower_ascii_idempotent (a : ascii) :
  lower_ascii (lower_ascii a) = lower_ascii a.
Proof. destruct a as [[] [] [] [] [] [] [] []]; reflexivity. Qed.

Lemma lower_idempotent (s : string) : lower (lower s) = lower s.
Proof.
  induction s as [|a s IH]; [reflexivity|].
  cbn [lower]. now rewrite lower_ascii_idempotent, IH.
Qed.

(** The instance name is case-insensitive: a name and its lower-case form
    load the same files and give the same result. *)
Theorem burkardt_instance_name_is_case_insensitive
    (float_of_str : string → option pyfloat) (fs : gmap string (list string))
    (dir_path instance : string) :
  load_knapsack_burkardt float_of_str fs dir_path instance
  = load_knapsack_burkardt float_of_str fs dir_path (lower instance).
Proof.
  unfold load_knapsack_burkardt. now rewrite lower_idempotent.
Qed.

(** A capacity file holding [1e-9] is accepted: the difference from 0 is
    the tolerance itself, and the capacity is 0. *)
Example burkardt_capacity_at_tolerance :
  ∃ d, load_knapsack_burkardt float_with_1e_9 tiny_capacity_files "data" "tiny"
       = Return d
       ∧ capacity d = 0%Z.
Proof. eexists. split; [vm_compute; reflexivity|reflexivity]. Qed.




End BurkardtMore.
(* ===================================================================== *)
(** * Further properties of milp_utils.py                                 *)
(* ===================================================================== *)

Section MilpMore.
Import Py milp_utils milp_ref milp_more_ref.

(** The integer-valued check converts its argument to a float; it accepts
    exactly the numbers whose float is finite and within 1e-9 (the double)
    of an integer, rejects the other finite ones, and raises when the float
    is infinite or NaN or the conversion overflows. *)
Theorem is_int_like_within_tolerance (x : pynum) :
  (_is_int_like x = Ok true
   ↔ ∃ q k, to_float x = Ok (Fin q)
            ∧ (Qabs (q - inject_Z k)
               <= 4835703278458517 # 4835703278458516698824704)%Q)
  ∧ (_is_int_like x = Ok false
     ↔ ∃ q, to_float x = Ok (Fin q)
            ∧ ∀ k, ¬ (Qabs (q - inject_Z k)
                      <= 4835703278458517 # 4835703278458516698824704)%Q)
  ∧ (raises (_is_int_like x) ↔ ¬ ∃ q, to_float x = Ok (Fin q)).
Proof.
  split; [apply _is_int_like_true|]. split; [|apply _is_int_like_raises].
  rewrite _is_int_like_false. unfold finite, int_valued. split.
  - intros [[q Hq] Hn]. exists q. split; [exact Hq|]. intros k Hk.
    apply Hn. exists q, k. auto.
  - intros (q & Hq & Hn). split; [eauto|]. intros (q' & k & Hq' & Hk).
    assert (q' = q) by congruence. subst q'. exact (Hn k Hk).
Qed.

(** [_as_int] returns the integer within 1e-9 of the float of its argument,
    which is unique, and raises exactly when there is none. *)
Theorem _as_int_returns_the_near_integer (x : pynum) (name : string) :
  (∀ k, _as_int x name = Ok k
        ↔ ∃ q, to_float x = Ok (Fin q) ∧ (Qabs (q - inject_Z k) <= tol)%Q)
  ∧ (raises (_as_int x name) ↔ ¬ int_valued x).
Proof.
  unfold _as_int, int_valued.
  destruct (to_float x) as [[q| | |]|e]; cbn [bind round_float raises].
  - destruct (Qle_bool (Qabs (q - inject_Z (py_round q))) tol) eqn:E;
      cbn [negb raises].
    + pose proof (proj1 (Qle_bool_iff _ _) E) as Hr. split.
      * intros k. split.
        -- intros [= <-]. eauto.
        -- intros (q' & [= <-] & Hk). f_equal. apply py_round_unique.
           eapply Qle_lt_trans; [exact Hk|apply tol_lt_half].
      * split; [contradiction|]. intros H. apply H. eauto.
    + split.
      * intros k. split; [discriminate|]. intros (q' & [= <-] & Hk).
        assert (Qle_bool (Qabs (q - inject_Z (py_round q))) tol = true);
          [|congruence].
        apply near_round_iff. eauto.
      * split; [|intros _; exact I]. intros _ (q' & k & [= <-] & Hk).
        assert (Qle_bool (Qabs (q - inject_Z (py_round q))) tol = true);
          [|congruence].
        apply near_round_iff. eauto.
  - split; [intros k; split; [discriminate|intros (q & [=] & _)]|].
    split; [intros _ (q & k & [=] & _)|intros _; exact I].
  - split; [intros k; split; [discriminate|intros (q & [=] & _)]|].
    split; [intros _ (q & k & [=] & _)|intros _; exact I].
  - split; [intros k; split; [discriminate|intros (q & [=] & _)]|].
    split; [intros _ (q & k & [=] & _)|intros _; exact I].
  - split; [intros k; split; [discriminate|intros (q & [=] & _)]|].
    split; [intros _ (q & k & [=] & _)|intros _; exact I].
Qed.

(** An [int] is rounded to a double first: [2^53 + 1] becomes [2^53]. *)
Example _as_int_rounds_large_int (name : string) :
  _as_int (PyInt (2 ^ 53 + 1)) name = Ok (2 ^ 53)%Z
  ∧ _as_int (PyFloat PosInf) name = Raise OverflowError
  ∧ _as_int (PyInt (10 ^ 400)) name = Raise OverflowError.
Proof. repeat split; vm_compute; reflexivity. Qed.

(** ** Default names *)

(** The default variable names [x0 .. x(n-1)] are [n] distinct names. *)
Theorem default_names_are_distinct (n : nat) :
  length (default_names n) = n ∧ NoDup (default_names n).
Proof.
  unfold default_names. split; [now rewrite length_map, length_seq|].
  apply NoDup_fmap_2_strong with (f := fun i => ("x" ++ str_of_nat i)%string) (l := seq 0 n).
  - intros i j _ _ H. injection H as H. now apply str_of_nat_inj.
  - apply NoDup_seq.
Qed.

(** ** Normalisation, completely *)

Lemma normalize_token_Ok (t t' : option string) :
  normalize_token t = Ok t' → known_token t ∧ t' = canon_token t.
Proof.
  unfold known_token. destruct t as [s|]; cbn [normalize_token canon_token].
  - destruct (String.eqb s "B") eqn:EB.
    { apply String.eqb_eq in EB. subst s. intros [= <-]. auto. }
    destruct (String.eqb s "I") eqn:EI; cbn [orb].
    { apply String.eqb_eq in EI. subst s. intros [= <-]. auto. }
    destruct (String.eqb s "C") eqn:EC; [|discriminate].
    apply String.eqb_eq in EC. subst s. intros [= <-]. auto 6.
  - intros [= <-]. auto.
Qed.

Lemma normalize_token_known (t : option string) :
  known_token t → normalize_token t = Ok (canon_token t).
Proof.
  intros [->|[->|[->| ->]]]; reflexivity.
Qed.

Lemma traverse_normalize_token_Ok (l l' : list (option string)) :
  traverse normalize_token l = Ok l' →
  Forall known_token l ∧ l' = map canon_token l.
Proof.
  revert l'. induction l as [|t l IH]; intros l'; cbn [traverse].
  - intros [= <-]. split; [constructor|reflexivity].
  - destruct (normalize_token t) as [t'|] eqn:Et; cbn [bind]; [|discriminate].
    destruct (traverse normalize_token l) as [l0|]; cbn [bind]; [|discriminate].
    intros [= <-]. destruct (IH l0 eq_refl) as [Hk ->].
    apply normalize_token_Ok in Et as [Ht ->]. split; [now constructor|reflexivity].
Qed.

Lemma traverse_normalize_token_known (l : list (option string)) :
  Forall known_token l → traverse normalize_token l = Ok (map canon_token l).
Proof.
  induction 1 as [|t l Ht _ IH]; [reflexivity|].
  cbn [traverse]. now rewrite (normalize_token_known t Ht), IH.
Qed.

Lemma offset_is_given (problem : raw_problem) (off : pyfloat) :
  offset_is problem off → given_offset problem = off.
Proof.
  unfold offset_is, given_offset. intros [[-> ->]|(z & -> & ->)]; reflexivity.
Qed.

(** On success normalisation only fills the defaults, lowercases the sense,
    rewrites the marker ["C"] to [None] and converts the objective constant
    to a float: the result is determined field by field, and it satisfies
    the invariant of a canonical problem. *)
Theorem _normalize_fills_defaults_only (problem : raw_problem)
    (P : CanonicalProblem) :
  _normalize problem = Ok P →
  P = {| sense := lower (given_sense problem); c := raw_c problem;
         n := length (raw_c problem);
         integrality := map canon_token (given_integrality problem);
         bounds := given_bounds problem;
         var_names := given_names problem;
         A_eq := raw_A_eq problem; b_eq := raw_b_eq problem;
         A_ub := raw_A_ub problem; b_ub := raw_b_ub problem;
         obj_offset := given_offset problem |}
  ∧ normalized P.
Proof.
  intros H. split; [|now apply _normalize_normalized in H].
  apply _normalize_Ok_inv in H
    as (_ & _ & _ & _ & _ & _ & _ & integ & off & Ht & Hoff & ->).
  apply traverse_normalize_token_Ok in Ht as [_ ->].
  now rewrite (offset_is_given _ _ Hoff).
Qed.

Lemma _normalize_fills_defaults_only_witness :
  ∃ P, _normalize (raw (ints [1; 2]%Z)) = Ok P
       ∧ P = {| sense := lower (given_sense (raw (ints [1; 2]%Z)));
                c := ints [1; 2]%Z;
                n := 2;
                integrality := map canon_token
                                 (given_integrality (raw (ints [1; 2]%Z)));
                bounds := given_bounds (raw (ints [1; 2]%Z));
                var_names := given_names (raw (ints [1; 2]%Z));
                A_eq := None; b_eq := None; A_ub := None; b_ub := None;
                obj_offset := given_offset (raw (ints [1; 2]%Z)) |}
       ∧ normalized P.
Proof.
  eexists. split; [vm_compute; reflexivity|].
  apply (_normalize_fills_defaults_only (raw (ints [1; 2]%Z))).
  vm_compute. reflexivity.
Defined.

Lemma known_token_dec (t : option string) : {known_token t} + {¬ known_token t}.
Proof.
  unfold known_token. destruct t as [s|]; [|left; auto].
  destruct (string_dec s "B") as [->|HB]; [left; auto|].
  destruct (string_dec s "I") as [->|HI]; [left; auto|].
  destruct (string_dec s "C") as [->|HC]; [left; auto 6|].
  right. intros [H|[H|[H|H]]]; congruence.
Qed.

(** The checks that are enough for normalisation to return. *)
Lemma _normalize_Ok_if (problem : raw_problem) :
  (lower (given_sense problem) = "min"%string
   ∨ lower (given_sense problem) = "max"%string) →
  raw_integrality problem ≠ IsNone →
  length (given_integrality problem) = length (raw_c problem) →
  Forall known_token (given_integrality problem) →
  length (given_bounds problem) = length (raw_c problem) →
  length (given_names problem) = length (raw_c problem) →
  is_None (raw_A_eq problem) = is_None (raw_b_eq problem) →
  is_None (raw_A_ub problem) = is_None (raw_b_ub problem) →
  ¬ bad_offset problem →
  ∃ P, _normalize problem = Ok P.
Proof.
  intros Hs Hin Hi Ht Hb Hn He Hu Hoff. rewrite _normalize_unfold.
  replace (String.eqb (lower (given_sense problem)) "min"
           || String.eqb (lower (given_sense problem)) "max") with true
    by (symmetry; apply orb_true_iff; destruct Hs as [Hs|Hs];
        [left|right]; now apply String.eqb_eq).
  cbn [negb].
  assert (Hunit : match raw_integrality problem with
                  | IsNone => Raise TypeError
                  | _ => Ok tt
                  end = Ok tt).
  { destruct (raw_integrality problem); [reflexivity|contradiction|reflexivity]. }
  rewrite Hunit. cbn [bind].
  rewrite Hi, Hb, Hn, Nat.eqb_refl, (traverse_normalize_token_known _ Ht), He, Hu,
    !xorb_nilpotent.
  cbn [negb bind].
  assert (Ho : ∃ off, match raw_obj_offset problem with
                      | Absent => Ok (Fin 0)
                      | IsNone => Raise TypeError
                      | Given z => to_float z
                      end = Ok off).
  { unfold bad_offset, has_float in Hoff.
    destruct (raw_obj_offset problem) as [| |z]; [eauto|exfalso; auto|].
    destruct (to_float z) as [f|e] eqn:Ez; [eauto|].
    exfalso. apply Hoff. right. exists z. split; [reflexivity|].
    intros [f Hf]. congruence. }
  destruct Ho as [off ->]. cbn [bind]. eauto.
Qed.

(** Whether the objective constant converts is decidable. *)
Lemma classic_bad_offset (problem : raw_problem) :
  bad_offset problem ∨ ¬ bad_offset problem.
Proof.
  unfold bad_offset, has_float.
  destruct (raw_obj_offset problem) as [| |z] eqn:Eo.
  - right. intros [H|(z & H & _)]; discriminate.
  - left. now left.
  - destruct (to_float z) as [f|e] eqn:Ez.
    + right. intros [H|(z' & [= <-] & Hz)]; [discriminate|]. apply Hz. eauto.
    + left. right. exists z. split; [reflexivity|]. intros [f Hf]. congruence.
Qed.

(** Normalisation raises for the defects of [rejected], for an unknown
    integrality token, for [integrality] given as [None] and for an
    objective constant that [float] does not convert, and for nothing
    else. *)
Theorem _normalize_raises_iff (problem : raw_problem) :
  raises (_normalize problem)
  ↔ rejected problem ∨ has_unknown_token problem
    ∨ raw_integrality problem = IsNone ∨ bad_offset problem.
Proof.
  split.
  - intros Hr. unfold rejected, has_unknown_token.
    destruct (string_dec (lower (given_sense problem)) "min") as [Hmin|Hmin];
      [|destruct (string_dec (lower (given_sense problem)) "max") as [Hmax|Hmax]].
    3:{ left. left. auto. }
    all: assert (Hs : lower (given_sense problem) = "min"%string
                      ∨ lower (given_sense problem) = "max"%string) by auto.
    all: destruct (raw_integrality problem) as [| |li] eqn:Eraw;
      [|right; right; left; reflexivity|].
    all: assert (Hin : raw_integrality problem ≠ IsNone) by (rewrite Eraw; discriminate).
    all: destruct (Nat.eq_dec (length (given_integrality problem))
                     (length (raw_c problem))) as [Hi|Hi];
      [|left; right; left; unfold given_integrality in Hi; rewrite Eraw in Hi;
        first [rewrite length_replicate in Hi; contradiction | eauto]].
    all: destruct (@List.Forall_Exists_dec _ known_token known_token_dec
                     (given_integrality problem)) as [Ht|Ht];
      [|right; left; apply List.Exists_exists in Ht as (t & Hint & Hnk);
        unfold given_integrality in Hint; rewrite Eraw in Hint;
        first [ apply list_elem_of_In, elem_of_replicate in Hint as [-> _];
                exfalso; apply Hnk; left; reflexivity
              | eauto ]].
    all: destruct (Nat.eq_dec (length (given_bounds problem))
                     (length (raw_c problem))) as [Hb|Hb];
      [|left; right; right; left; unfold given_bounds in Hb;
        destruct (raw_bounds problem) as [l|];
        [eauto|rewrite length_replicate in Hb; contradiction]].
    all: destruct (Nat.eq_dec (length (given_names problem))
                     (length (raw_c problem))) as [Hn|Hn];
      [|left; right; right; right; left; unfold given_names in Hn;
        destruct (raw_var_names problem) as [[|nm nms]|];
        [exfalso; apply Hn, default_names_length
        |exists (nm :: nms); split; [reflexivity|]; split; [discriminate|exact Hn]
        |exfalso; apply Hn, default_names_length]].
    all: destruct (bool_decide (is_None (raw_A_eq problem) = is_None (raw_b_eq problem)))
           eqn:He;
      [apply bool_decide_eq_true in He
      |apply bool_decide_eq_false in He; left; do 4 right; left; exact He].
    all: destruct (bool_decide (is_None (raw_A_ub problem) = is_None (raw_b_ub problem)))
           eqn:Hu;
      [apply bool_decide_eq_true in Hu
      |apply bool_decide_eq_false in Hu; left; do 5 right; exact Hu].
    all: right; right; right.
    all: destruct (classic_bad_offset problem) as [Hbad|Hgood]; [exact Hbad|].
    all: exfalso.
    all: destruct (_normalize_Ok_if problem Hs Hin Hi Ht Hb Hn He Hu Hgood) as [P HP].
    all: rewrite HP in Hr; exact Hr.
  - intros [H|[(l & t & Hl & Hin & Hnk)|[Hnone|Hoff]]]; [now apply rejected_raises| | |].
    + destruct (_normalize problem) as [P|e] eqn:E; [|exact I]. exfalso.
      apply _normalize_Ok_inv in E
        as (_ & _ & _ & _ & _ & _ & _ & integ & off & Ht & _).
      apply traverse_normalize_token_Ok in Ht as [Hall _].
      unfold given_integrality in Hall. rewrite Hl in Hall.
      rewrite List.Forall_forall in Hall. apply Hnk, Hall, Hin.
    + destruct (_normalize problem) as [P|e] eqn:E; [|exact I]. exfalso.
      apply _normalize_Ok_inv in E as (_ & Hne & _). contradiction.
    + destruct (_normalize problem) as [P|e] eqn:E; [|exact I]. exfalso.
      apply _normalize_Ok_inv in E
        as (_ & _ & _ & _ & _ & _ & _ & integ & off & _ & Ho & _).
      destruct Ho as [[Ho _]|(z & Ho & Hz)], Hoff as [Hb|(z' & Hb & Hn)];
        try congruence.
      apply Hn. assert (z' = z) by congruence. subst. now exists off.
Qed.

(** [integrality] or [obj_offset] given as [None] is a [TypeError]. *)
Example _normalize_explicit_None :
  _normalize {| raw_sense := None; raw_c := [PyInt 1]; raw_integrality := IsNone;
                raw_bounds := None; raw_var_names := None;
                raw_A_eq := None; raw_b_eq := None;
                raw_A_ub := None; raw_b_ub := None;
                raw_obj_offset := Absent |} = Raise TypeError
  ∧ _normalize {| raw_sense := None; raw_c := [PyInt 1]; raw_integrality := Absent;
                  raw_bounds := None; raw_var_names := None;
                  raw_A_eq := None; raw_b_eq := None;
                  raw_A_ub := None; raw_b_ub := None;
                  raw_obj_offset := IsNone |} = Raise TypeError.
Proof. split; reflexivity. Qed.

(** ** The assignment dict *)

Lemma assign_app (l1 l2 : list (string * pyfloat)) (acc : gmap string pyfloat) :
  assign (l1 ++ l2) acc = assign l2 (assign l1 acc).
Proof. unfold assign. apply fold_left_app. Qed.

Lemma assign_lookup_other (kvs : list (string * pyfloat)) (k : string) :
  ∀ acc, Forall (fun kv => fst kv ≠ k) kvs → assign kvs acc !! k = acc !! k.
Proof.
  induction kvs as [|[k' v] kvs IH]; intros acc H; [reflexivity|].
  inversion H as [|? ? Hk Hrest]; subst. cbn [assign fold_left fst snd].
  change (assign kvs (<[k':=v]> acc) !! k = acc !! k).
  rewrite IH by exact Hrest. now apply lookup_insert_ne.
Qed.

Lemma assign_lookup_last (l1 l2 : list (string * pyfloat)) (k : string)
    (v : pyfloat) (acc : gmap string pyfloat) :
  Forall (fun kv => fst kv ≠ k) l2 →
  assign (l1 ++ (k, v) :: l2) acc !! k = Some v.
Proof.
  intros H. rewrite assign_app. cbn [assign fold_left fst snd].
  change (assign l2 (<[k:=v]> (assign l1 acc)) !! k = Some v).
  rewrite assign_lookup_other by exact H. apply lookup_insert_eq.
Qed.

(** A dict filled from the pairs (name of variable [j], value of variable
    [j]), in the order of the variables. *)
Lemma assign_indexed (names : list string) (value : nat → pyfloat)
    (kvs : list (string * pyfloat)) :
  length kvs = length names →
  (∀ j kv, kvs !! j = Some kv → names !! j = Some (fst kv) ∧ snd kv = value j) →
  (∀ i name, names !! i = Some name →
             (∀ j, i < j → names !! j ≠ Some name) →
             assign kvs ∅ !! name = Some (value i))
  ∧ (∀ name, ¬ In name names → assign kvs ∅ !! name = None).
Proof.
  intros Hlen Hkv. split.
  - intros i name Hi Hlast.
    destruct (lookup_lt_is_Some_2 kvs i) as [[k v] Hk].
    { rewrite Hlen. eapply lookup_lt_Some, Hi. }
    destruct (Hkv _ _ Hk) as [Hn Hv]. cbn [fst snd] in *.
    assert (k = name) by congruence. subst k v.
    rewrite <- (take_drop_middle _ _ _ Hk).
    apply assign_lookup_last. apply Forall_forall. intros [k' v'] Hin.
    apply list_elem_of_lookup in Hin as [m Hm]. rewrite lookup_drop in Hm.
    destruct (Hkv _ _ Hm) as [Hn' _]. cbn [fst] in *. intros ->.
    apply (Hlast (S i + m)%nat); [lia|exact Hn'].
  - intros name Hnot. rewrite assign_lookup_other; [apply lookup_empty|].
    apply Forall_forall. intros [k' v'] Hin.
    apply list_elem_of_lookup in Hin as [m Hm].
    destruct (Hkv _ _ Hm) as [Hn' _]. cbn [fst] in *. intros ->.
    apply Hnot. apply list_elem_of_In. eapply list_elem_of_lookup_2, Hn'.
Qed.

Lemma enumerate_lookup {A : Type} (l : list A) (j : nat) (ix : nat * A) :
  enumerate l !! j = Some ix → fst ix = j ∧ l !! j = Some (snd ix).
Proof.
  unfold enumerate. intros H.
  apply lookup_zip_with_Some in H as (i & x & -> & Hi & Hx).
  apply lookup_seq in Hi as [-> _]. auto.
Qed.

Lemma length_enumerate {A : Type} (l : list A) : length (enumerate l) = length l.
Proof. unfold enumerate. rewrite length_zip_with, length_seq. lia. Qed.

(** The loop of [_pack_result] fills the dict pair by pair. *)
Lemma cp_fill_is_assign (names : list string) (value : nat → pyfloat)
    (l : list (nat * cp_var)) :
  Forall (fun iv => fst iv < length names) l →
  ∀ acc : gmap string pyfloat,
    for_each (fun (x_dict : gmap string pyfloat) iv =>
                name ←! getitem names (Z.of_nat (fst iv));
                Ok (<[name := value (fst iv)]> x_dict)) l acc
    = Ok (assign (map (fun iv => (nth (fst iv) names "x"%string, value (fst iv))) l)
            acc).
Proof.
  induction 1 as [|iv l Hiv _ IH]; intros acc; [reflexivity|].
  cbn [for_each map assign fold_left fst snd].
  destruct (lookup_lt_is_Some_2 names (fst iv) Hiv) as [nm Hnm].
  rewrite (getitem_nat _ _ _ Hnm). cbn [bind].
  rewrite (nth_lookup_Some _ _ _ _ Hnm). apply IH.
Qed.

(** The assignment on the integer-only route: when CP-SAT reports an
    optimum, every variable name is mapped to the value of the (last)
    variable that carries it, as a float, and no other key is present;
    otherwise the objective is absent and the assignment is empty. *)
Theorem cp_sat_assignment_maps_names_to_values (solver : CpSolver)
    (status_code : Z) (xs : list cp_var) (P : CanonicalProblem) :
  length xs = length (var_names P) →
  ∃ r, _pack_result solver status_code xs P = Ok r
       ∧ (status_code = cp_OPTIMAL →
          (∀ i name, var_names P !! i = Some name →
                     (∀ j, i < j → var_names P !! j ≠ Some name) →
                     assignment r !! name
                     = Some (float_of_int64 (cp_Value solver i)))
          ∧ (∀ name, ¬ In name (var_names P) → assignment r !! name = None))
       ∧ (status_code ≠ cp_OPTIMAL →
          objective r = None ∧ assignment r = ∅).
Proof.
  intros Hlen. unfold _pack_result.
  rewrite (cp_fill_is_assign (var_names P)
             (fun i => float_of_int64 (cp_Value solver i)))
    by (eapply Forall_impl; [apply enumerate_fst_lt|]; simpl; intros; lia).
  destruct (cp_status_cases status_code) as [[Hs Hc]|[[Hs Hc]|[Hs [Hc1 Hc2]]]];
    rewrite Hs; cbn [String.eqb Ascii.eqb Bool.eqb bind fst snd].
  - eexists. split; [reflexivity|]. cbn [assignment objective].
    split; [|intros Hne; contradiction]. intros _.
    apply assign_indexed.
    + now rewrite length_map, length_enumerate.
    + intros j kv Hj. rewrite lookup_map in Hj.
      destruct (enumerate xs !! j) as [ix|] eqn:Ej; [|discriminate].
      injection Hj as <-. apply enumerate_lookup in Ej as [-> Hx]. cbn [fst snd].
      split; [|reflexivity].
      destruct (lookup_lt_is_Some_2 (var_names P) j) as [nm Hnm].
      { rewrite <- Hlen. eapply lookup_lt_Some, Hx. }
      now rewrite (nth_lookup_Some _ _ _ _ Hnm).
  - eexists. split; [reflexivity|]. cbn [assignment objective].
    split; [intros ->; discriminate|auto].
  - eexists. split; [reflexivity|]. cbn [assignment objective].
    split; [intros ->; contradiction|auto].
Qed.

Lemma cp_sat_assignment_maps_names_to_values_witness :
  length [NewBoolVar "x1"; NewBoolVar "x2"] = length (var_names two_binaries)
  ∧ ∃ r, _pack_result (cp_reports 4 {| cp_vars := []; cp_constraints := [];
                                       cp_minimize := true; cp_objective := [] |}
                         {| max_time_in_seconds := None; num_search_workers := 8 |})
           4 [NewBoolVar "x1"; NewBoolVar "x2"] two_binaries = Ok r
         ∧ (4%Z = cp_OPTIMAL →
            (∀ i name, var_names two_binaries !! i = Some name →
                       (∀ j, i < j → var_names two_binaries !! j ≠ Some name) →
                       assignment r !! name = Some (float_of_int64 zero64))
            ∧ (∀ name, ¬ In name (var_names two_binaries) →
                       assignment r !! name = None))
         ∧ (4%Z ≠ cp_OPTIMAL → objective r = None ∧ assignment r = ∅).
Proof.
  split; [reflexivity|].
  apply (cp_sat_assignment_maps_names_to_values
           (cp_reports 4 {| cp_vars := []; cp_constraints := [];
                            cp_minimize := true; cp_objective := [] |}
              {| max_time_in_seconds := None; num_search_workers := 8 |})).
  reflexivity.
Defined.

(** ** The continuous-capable route *)

Lemma traverse_Ok {A B : Type} (f : A → result B) (l : list A) :
  (∀ x, In x l → ∃ y, f x = Ok y) →
  ∃ ys, traverse f l = Ok ys ∧ length ys = length l.
Proof.
  induction l as [|x l IH]; intros H; cbn [traverse].
  - exists []. auto.
  - destruct (H x (or_introl eq_refl)) as [y ->]. cbn [bind].
    destruct IH as (ys & -> & Hlen); [intros z Hz; apply H; now right|].
    cbn [bind]. exists (y :: ys). split; [reflexivity|]. simpl. lia.
Qed.

Lemma in_take {A : Type} (k : nat) (l : list A) (x : A) :
  In x (take k l) → In x l.
Proof.
  intros H. apply list_elem_of_In in H. apply list_elem_of_In.
  apply list_elem_of_lookup in H as [i Hi].
  apply lookup_take_Some in Hi as [Hi _]. eapply list_elem_of_lookup_2, Hi.
Qed.

Lemma lp_linear_sum_Ok (coeffs : list pynum) (xs : list lp_var) :
  (∀ x, In x coeffs → has_float x) →
  ∃ fs, traverse to_float (take (length xs) coeffs) = Ok fs
        ∧ lp_linear_sum coeffs xs = Ok (zip fs (seq 0 (length xs))).
Proof.
  intros H. unfold lp_linear_sum.
  destruct (traverse_Ok to_float (take (length xs) coeffs)) as (fs & Hfs & _).
  { intros x Hx. apply H. eapply in_take, Hx. }
  exists fs. split; [exact Hfs|]. now rewrite Hfs.
Qed.

Lemma lp_block_Ok (xs : list lp_var) (A : option matrix)
    (b : option (list pynum)) (rel : relation) :
  (∀ rows row x, A = Some rows → In row rows → In x row → has_float x) →
  (∀ rhs x, b = Some rhs → In x rhs → has_float x) →
  ∃ cons, lp_block xs A b rel = Ok cons.
Proof.
  intros HA Hb. unfold lp_block. destruct A as [rows|], b as [rhs|]; eauto.
  destruct (traverse_Ok (lp_row xs rel) (zip rows rhs)) as (cons & -> & _); [|eauto].
  intros [row v] Hin. apply list_elem_of_In, list_elem_of_lookup in Hin as [k Hk].
  apply lookup_zip_with_Some in Hk as (row' & v' & [= <- <-] & Hrow & Hv).
  apply list_elem_of_lookup_2, list_elem_of_In in Hrow, Hv.
  unfold lp_row. cbn [fst snd].
  destruct (lp_linear_sum_Ok row xs) as (fs & _ & ->).
  { intros x Hx. eapply HA; eauto. }
  cbn [bind]. destruct (Hb rhs v eq_refl Hv) as [f ->]. cbn [bind]. eauto.
Qed.

Lemma lp_build_vars_Ok (P : CanonicalProblem)
    (l : list (nat * (option pynum * option pynum))) :
  Forall (fun e => fst e < length (integrality P)
                   ∧ fst e < length (var_names P)
                   ∧ (∀ x, fst (snd e) = Some x ∨ snd (snd e) = Some x →
                           has_float x)) l →
  ∀ acc, ∃ xs, for_each (lp_build_var P) l acc = Ok xs
               ∧ length xs = (length acc + length l)%nat.
Proof.
  induction 1 as [|[i [lb ub]] l (Hi & Hn & Hf) _ IH]; intros acc; cbn [for_each].
  - exists acc. split; [reflexivity|simpl; lia].
  - cbn [fst snd] in *. unfold lp_build_var at 1.
    assert (Hlb : ∃ f, match lb with None => Ok (Fin 0) | Some l0 => to_float l0 end
                       = Ok f).
    { destruct lb as [x|]; [apply (Hf x); now left|eauto]. }
    assert (Hub : ∃ f, match ub with None => Ok PosInf | Some u => to_float u end
                       = Ok f).
    { destruct ub as [x|]; [apply (Hf x); now right|eauto]. }
    destruct Hlb as [fl ->], Hub as [fu ->]. cbn [bind].
    destruct (lookup_lt_is_Some_2 _ _ Hi) as [integ Hinteg].
    destruct (lookup_lt_is_Some_2 _ _ Hn) as [name Hname].
    rewrite (getitem_nat _ _ _ Hinteg). cbn [bind].
    rewrite (getitem_nat _ _ _ Hname). cbn [bind].
    destruct (is_B_or_I integ); cbn [bind];
      match goal with |- context [for_each _ l ?a] => destruct (IH a) as (xs & -> & Hlen) end;
      exists xs; (split; [reflexivity|]); rewrite Hlen, length_app; simpl; lia.
Qed.

Lemma lp_fill_is_assign (xs : list lp_var) (value : nat → pyfloat)
    (l : list (nat * string)) :
  Forall (fun inm => fst inm < length xs) l →
  ∀ acc : gmap string pyfloat,
    for_each (fun (xdict : gmap string pyfloat) (inm : nat * string) =>
                _ ←! getitem xs (Z.of_nat (fst inm));
                Ok (<[snd inm := value (fst inm)]> xdict)) l acc
    = Ok (assign (map (fun inm => (snd inm, value (fst inm))) l) acc).
Proof.
  induction 1 as [|inm l Hx _ IH]; intros acc; [reflexivity|].
  cbn [for_each map assign fold_left fst snd].
  destruct (lookup_lt_is_Some_2 xs (fst inm) Hx) as [x Hxs].
  rewrite (getitem_nat _ _ _ Hxs). cbn [bind]. apply IH.
Qed.

Lemma lp_status_cases (res : Z) :
  (res = lp_OPTIMAL ∧ lp_status res = "Optimal"%string)
  ∨ (res ≠ lp_OPTIMAL ∧ lp_status res ≠ "Optimal"%string
     ∧ (lp_status res = "Infeasible"%string ∨ lp_status res = "Unbounded"%string
        ∨ lp_status res = "NotSolved"%string)).
Proof.
  unfold lp_status.
  destruct (res =? lp_OPTIMAL)%Z eqn:E1; [left; split; [lia|reflexivity]|].
  right. split; [lia|].
  destruct (res =? lp_INFEASIBLE)%Z; [split; [discriminate|auto]|].
  destruct (res =? lp_UNBOUNDED)%Z; split; try discriminate; auto.
Qed.

(** A time limit whose milliseconds fit is accepted. *)
Lemma time_limit_ms_Ok (time_limit : option pynum) :
  limit_in_ms time_limit → ∃ limit, time_limit_ms time_limit = Ok limit.
Proof.
  unfold limit_in_ms, time_limit_ms. destruct time_limit as [[z|f|q]|]; [| | |eauto].
  - intros H. destruct (negb (truthy (PyInt z))); [eauto|].
    cbn [bind]. rewrite H. cbn [negb]. eauto.
  - intros (q & Hq & H). destruct (negb (truthy (PyFloat f))); [eauto|].
    rewrite Hq. cbn [int_of_float bind]. rewrite H. cbn [negb]. eauto.
  - intros H. destruct (negb (truthy (PyFraction q))); [eauto|].
    cbn [bind]. rewrite H. cbn [negb]. eauto.
Qed.

(** [_solve_mip_cbc_mixed] on a normalised problem whose numbers convert,
    with CBC available. *)
Lemma _solve_mip_cbc_mixed_spec (solve : LpModel → LpSolver)
    (P : CanonicalProblem) (time_limit : option pynum) :
  normalized P → all_data has_float P → limit_in_ms time_limit →
  ∃ r model fs,
    _solve_mip_cbc_mixed (Some solve) P time_limit = Ok r
    ∧ length (lp_vars model) = n P
    ∧ traverse to_float (c P) = Ok fs
    ∧ lp_objective model = zip fs (seq 0 (n P))
    ∧ lp_minimize model = String.eqb (sense P) "min"
    ∧ status r = lp_status (lp_result_status (solve model))
    ∧ extras r = LpExtras (lp_result_status (solve model)) (lp_wall_time (solve model))
    ∧ (lp_result_status (solve model) = lp_OPTIMAL →
       objective r = Some (lp_objective_value (solve model))
       ∧ (∀ i name, var_names P !! i = Some name →
                    (∀ j, i < j → var_names P !! j ≠ Some name) →
                    assignment r !! name = Some (lp_solution_value (solve model) i))
       ∧ (∀ name, ¬ In name (var_names P) → assignment r !! name = None))
    ∧ (lp_result_status (solve model) ≠ lp_OPTIMAL →
       objective r = None ∧ assignment r = ∅).
Proof.
  intros (Hn & Hinteg & Hbounds & Hnames & _ & _ & _ & Hsense)
         (Fc & Fb & FA & Frhs) Hlimit.
  unfold _solve_mip_cbc_mixed.
  destruct (time_limit_ms_Ok time_limit Hlimit) as [limit ->]. cbn [bind].
  destruct (lp_build_vars_Ok P (enumerate (bounds P))) with (acc := @nil lp_var)
    as (xs & -> & Hxs).
  { apply Forall_forall. intros [i [lb ub]] Hin.
    apply list_elem_of_lookup in Hin as [k Hk].
    pose proof (lookup_lt_Some _ _ _ Hk) as Hlt. rewrite length_enumerate in Hlt.
    apply enumerate_lookup in Hk as [Hi Hk]. cbn [fst snd] in *. subst k.
    split; [lia|]. split; [lia|]. intros x Hx.
    eapply (Fb lb ub x); [|exact Hx].
    eapply list_elem_of_In, list_elem_of_lookup_2, Hk. }
  rewrite length_enumerate, Hbounds in Hxs. cbn [length Nat.add] in Hxs.
  cbn [bind].
  destruct (lp_block_Ok xs (A_eq P) (b_eq P) EQ) as [eqs ->].
  { intros rows row x HA. apply (FA rows row x). now left. }
  { intros rhs x Hb. apply (Frhs rhs x). now left. }
  cbn [bind].
  destruct (lp_block_Ok xs (A_ub P) (b_ub P) LE) as [ubs ->].
  { intros rows row x HA. apply (FA rows row x). now right. }
  { intros rhs x Hb. apply (Frhs rhs x). now right. }
  cbn [bind].
  destruct (lp_linear_sum_Ok (c P) xs Fc) as (fs & Hfs & ->).
  rewrite Hxs, Hn, firstn_all in Hfs. rewrite Hxs.
  cbn [bind].
  assert (Hlow : lower (sense P) = sense P).
  { destruct Hsense as [-> | ->]; reflexivity. }
  rewrite Hlow.
  match goal with |- context [solve ?m] => set (model := m) end.
  rewrite (lp_fill_is_assign xs (lp_solution_value (solve model)))
    by (eapply Forall_impl; [apply enumerate_fst_lt|]; simpl; intros; lia).
  destruct (lp_status_cases (lp_result_status (solve model)))
    as [[Hres Hs]|(Hres & Hs & _)].
  - rewrite Hs. cbn [String.eqb Ascii.eqb Bool.eqb bind fst snd].
    eexists _, model, fs. split; [reflexivity|]. cbn.
    split; [exact Hxs|]. split; [exact Hfs|]. split; [reflexivity|].
    split; [reflexivity|]. split; [symmetry; exact Hs|]. split; [reflexivity|].
    split; [|intros Hne; contradiction]. intros _. split; [reflexivity|].
    apply assign_indexed.
    + now rewrite length_map, length_enumerate.
    + intros j kv Hj. rewrite lookup_map in Hj.
      destruct (enumerate (var_names P) !! j) as [ix|] eqn:Ej; [|discriminate].
      injection Hj as <-. apply enumerate_lookup in Ej as [-> Hx]. cbn [fst snd].
      auto.
  - destruct (String.eqb (lp_status (lp_result_status (solve model))) "Optimal") eqn:E.
    { apply String.eqb_eq in E. contradiction. }
    cbn [bind fst snd].
    eexists _, model, fs. split; [reflexivity|]. cbn.
    split; [exact Hxs|]. split; [exact Hfs|]. split; [reflexivity|].
    split; [reflexivity|]. split; [reflexivity|]. split; [reflexivity|].
    split; [intros Heq; contradiction|auto].
Qed.

(** The problems of the continuous route pass the routing test. *)
Lemma continuous_route_needs_cbc (P : CanonicalProblem) :
  normalized P → continuous_route P → _needs_cbc P = Ok true.
Proof.
  intros Hnorm [Hm|[Hfin Hneeds]]; [now apply _needs_cbc_marker|].
  destruct (_needs_cbc_spec P Hnorm Hfin) as (v & Hv & Hiff).
  assert (v = true) by now apply Hiff. now subst v.
Qed.

(** On the continuous-capable route, with CBC available, numbers that
    [float] converts and a time limit whose milliseconds fit 64 bits,
    [solve_milp] does not raise: the call returns a result whose status is
    the four-way mapping of CBC's code; an optimum carries CBC's objective
    and maps every variable name to the value of the (last) variable
    carrying it; any other status carries no objective and an empty
    assignment. *)
Theorem solve_milp_cbc_route_returns (env : backends) (problem : raw_problem)
    (time_limit : option pynum) (P : CanonicalProblem)
    (solve : LpModel → LpSolver) :
  _normalize problem = Ok P → continuous_route P → cbc env = Some solve →
  all_data has_float P → limit_in_ms time_limit →
  ∃ r model fs,
    solve_milp env problem time_limit = ([CreateSolver_CBC], Ok r)
    ∧ length (lp_vars model) = n P
    ∧ traverse to_float (c P) = Ok fs
    ∧ lp_objective model = zip fs (seq 0 (n P))
    ∧ lp_minimize model = String.eqb (sense P) "min"
    ∧ status r = (let res := lp_result_status (solve model) in
                  if (res =? lp_OPTIMAL)%Z then "Optimal"
                  else if (res =? lp_INFEASIBLE)%Z then "Infeasible"
                  else if (res =? lp_UNBOUNDED)%Z then "Unbounded"
                  else "NotSolved")%string
    ∧ (lp_result_status (solve model) = lp_OPTIMAL →
       objective r = Some (lp_objective_value (solve model))
       ∧ (∀ i name, var_names P !! i = Some name →
                    (∀ j, i < j → var_names P !! j ≠ Some name) →
                    assignment r !! name = Some (lp_solution_value (solve model) i))
       ∧ (∀ name, ¬ In name (var_names P) → assignment r !! name = None))
    ∧ (lp_result_status (solve model) ≠ lp_OPTIMAL →
       objective r = None ∧ assignment r = ∅).
Proof.
  intros HP Hroute Hcbc Hdata Hlimit.
  pose proof (_normalize_normalized _ _ HP) as Hnorm.
  pose proof (continuous_route_needs_cbc P Hnorm Hroute) as Hv.
  destruct (_solve_mip_cbc_mixed_spec solve P time_limit Hnorm Hdata Hlimit)
    as (r & model & fs & Hr & Hvars & Hfs & Hobj & Hmin & Hs & _ & Hopt & Hnot).
  exists r, model, fs. unfold solve_milp. rewrite HP, Hv, Hcbc, Hr.
  repeat split; auto; try (now apply Hopt); now apply Hnot.
Qed.

(** The canonical form of [problem_with_offset]. *)
Lemma problem_with_offset_route :
  ∃ P, _normalize problem_with_offset = Ok P
       ∧ continuous_route P ∧ all_data has_float P.
Proof.
  eexists. split; [vm_compute; reflexivity|]. split.
  - left. exists None. split; [now left|]. split; discriminate.
  - split; [intros x [<-|[]]; eexists; reflexivity|].
    split.
    { intros lb ub x [[= <- <-]|[]] [[= <-]|[=]]. eexists. vm_compute. reflexivity. }
    split; [intros rows row x [H|H]; discriminate|].
    intros rhs x [H|H]; discriminate.
Qed.

Lemma solve_milp_cbc_route_returns_witness :
  ∃ P, _normalize problem_with_offset = Ok P
       ∧ continuous_route P
       ∧ cbc (env_reports (Fin 3) 4) = Some (lp_reports (Fin 3))
       ∧ all_data has_float P
       ∧ limit_in_ms (Some (PyFloat (Fin (1 # 2))))
       ∧ ∃ r model fs,
           solve_milp (env_reports (Fin 3) 4) problem_with_offset
             (Some (PyFloat (Fin (1 # 2))))
           = ([CreateSolver_CBC], Ok r)
           ∧ length (lp_vars model) = n P
           ∧ traverse to_float (c P) = Ok fs
           ∧ lp_objective model = zip fs (seq 0 (n P))
           ∧ lp_minimize model = String.eqb (sense P) "min"
           ∧ status r = (let res := lp_result_status (lp_reports (Fin 3) model) in
                         if (res =? lp_OPTIMAL)%Z then "Optimal"
                         else if (res =? lp_INFEASIBLE)%Z then "Infeasible"
                         else if (res =? lp_UNBOUNDED)%Z then "Unbounded"
                         else "NotSolved")%string
           ∧ (lp_result_status (lp_reports (Fin 3) model) = lp_OPTIMAL →
              objective r = Some (lp_objective_value (lp_reports (Fin 3) model))
              ∧ (∀ i name, var_names P !! i = Some name →
                           (∀ j, i < j → var_names P !! j ≠ Some name) →
                           assignment r !! name
                           = Some (lp_solution_value (lp_reports (Fin 3) model) i))
              ∧ (∀ name, ¬ In name (var_names P) → assignment r !! name = None))
           ∧ (lp_result_status (lp_reports (Fin 3) model) ≠ lp_OPTIMAL →
              objective r = None ∧ assignment r = ∅).
Proof.
  destruct problem_with_offset_route as (P & HP & Hroute & Hdata).
  assert (Hlimit : limit_in_ms (Some (PyFloat (Fin (1 # 2))))).
  { exists 500%Q. split; vm_compute; reflexivity. }
  exists P. split; [exact HP|]. split; [exact Hroute|]. split; [reflexivity|].
  split; [exact Hdata|]. split; [exact Hlimit|].
  exact (solve_milp_cbc_route_returns (env_reports (Fin 3) 4) problem_with_offset
           (Some (PyFloat (Fin (1 # 2)))) P (lp_reports (Fin 3))
           HP Hroute eq_refl Hdata Hlimit).
Defined.

(** The conversions of the route can raise: an infinite time limit, or a
    coefficient beyond the range of the floats. *)
Example solve_milp_cbc_route_overflow :
  solve_milp (env_reports (Fin 3) 4) problem_with_offset (Some (PyFloat PosInf))
  = ([CreateSolver_CBC], Raise OverflowError)
  ∧ solve_milp (env_reports (Fin 3) 4)
      {| raw_sense := None; raw_c := [PyInt (10 ^ 400)];
         raw_integrality := Absent; raw_bounds := None; raw_var_names := None;
         raw_A_eq := None; raw_b_eq := None; raw_A_ub := None; raw_b_ub := None;
         raw_obj_offset := Absent |} None
    = ([CreateSolver_CBC], Raise OverflowError).
Proof. split; vm_compute; reflexivity. Qed.

(** When CBC cannot be created, a problem on the continuous-capable route
    is answered with status "NotSolved", no objective, an empty assignment
    and an error note; nothing is raised. *)
Theorem solve_milp_without_cbc_is_not_solved (env : backends)
    (problem : raw_problem) (time_limit : option pynum) (P : CanonicalProblem) :
  _normalize problem = Ok P → continuous_route P → cbc env = None →
  solve_milp env problem time_limit
  = ([CreateSolver_CBC],
     Ok {| status := "NotSolved"; objective := None; assignment := ∅;
           extras := ErrorExtras "CBC solver not available" |}).
Proof.
  intros HP Hroute Hcbc.
  pose proof (continuous_route_needs_cbc P (_normalize_normalized _ _ HP) Hroute)
    as Hv.
  unfold solve_milp. now rewrite HP, Hv, Hcbc.
Qed.

Lemma solve_milp_without_cbc_is_not_solved_witness :
  ∃ P, _normalize problem_with_offset = Ok P
       ∧ continuous_route P
       ∧ cbc {| cbc := None; cp_sat := cp_reports 4 |} = None
       ∧ solve_milp {| cbc := None; cp_sat := cp_reports 4 |}
           problem_with_offset None
         = ([CreateSolver_CBC],
            Ok {| status := "NotSolved"; objective := None; assignment := ∅;
                  extras := ErrorExtras "CBC solver not available" |}).
Proof.
  destruct problem_with_offset_route as (P & HP & Hroute & _).
  exists P. split; [exact HP|]. split; [exact Hroute|]. split; [reflexivity|].
  exact (solve_milp_without_cbc_is_not_solved
           {| cbc := None; cp_sat := cp_reports 4 |} problem_with_offset None P
           HP Hroute eq_refl).
Defined.

(** ** The integer-only route *)






Lemma int_valued_small (z : Z) : (Z.abs z <= 2 ^ 53)%Z → int_valued (PyInt z).
Proof.
  intros Hz. exists (inject_Z z), z. split; [now apply float_of_int_exact|].
  assert (E : (inject_Z z - inject_Z z == 0)%Q) by ring.
  rewrite E. discriminate.
Qed.





(** A bound beyond 64 bits stops the translation. *)
Example solve_milp_cp_sat_wide_bound :
  solve_milp (env_reports (Fin 0) 4)
    {| raw_sense := None; raw_c := [PyInt 1];
       raw_integrality := Given [Some "I"%string];
       raw_bounds := Some [(Some (PyInt 0), Some (PyInt (2 ^ 63)))];
       raw_var_names := None;
       raw_A_eq := None; raw_b_eq := None; raw_A_ub := None; raw_b_ub := None;
       raw_obj_offset := Absent |} None
  = ([New_CpModel], Raise TypeError).
Proof. vm_compute. reflexivity. Qed.

End MilpMore.

Section MoreWitnesses.
Import Py milp_utils milp_ref milp_more_ref.



End MoreWitnesses.

(* ===================================================================== *)
(** * Further properties of lpnetlib_adapter.py                           *)
(* ===================================================================== *)

Section LpnetlibMore.
Import Py lpnetlib_adapter lpnetlib_ref lpnetlib_more_ref.

Variable float_of_str : string → option pyfloat.

Lemma length_select {A B : Type} (mask : list bool) :
  ∀ (l : list A) (l' : list B),
    length l = length l' → length (select mask l) = length (select mask l').
Proof.
  induction mask as [|b mask IH]; intros [|x l] [|y l']; try discriminate;
    try reflexivity.
  intros [= H]. rewrite !select_cons. destruct b; simpl; auto.
Qed.

(** The shape of what the partition returns. *)
Lemma partition_rows_shape (A : list (list pyfloat))
    (rl_vec ru_vec : list pyfloat) (eq_tol : Q) (rc : row_constraints) :
  length rl_vec = length A → length ru_vec = length A →
  partition_rows A rl_vec ru_vec eq_tol = Ok rc →
  paired (rc_A_eq rc) (rc_b_eq rc)
  ∧ length (concat (rc_A_ub_blocks rc)) = length (concat (rc_b_ub_blocks rc))
  ∧ (rc_A_ub_blocks rc = [] → rc_b_ub_blocks rc = []).
Proof.
  intros Hl Hu. unfold partition_rows.
  rewrite is_eq_mask_spec, le_mask_spec, ge_mask_spec by congruence.
  set (eqm := zip_with (eq_row eq_tol) rl_vec ru_vec).
  set (lem := zip_with (le_row eq_tol) rl_vec ru_vec).
  set (gem := zip_with (ge_row eq_tol) rl_vec ru_vec).
  assert (Hlen : ∀ f : pyfloat → pyfloat → bool,
             length (zip_with f rl_vec ru_vec) = length A).
  { intros f. rewrite length_zip_with. lia. }
  destruct (take_block A eqm (Hlen _)) as [HeA _].
  destruct (take_block ru_vec eqm ltac:(rewrite Hu; apply Hlen)) as [Heb _].
  destruct (take_block A lem (Hlen _)) as [HlA _].
  destruct (take_block ru_vec lem ltac:(rewrite Hu; apply Hlen)) as [Hlb _].
  destruct (take_block A gem (Hlen _)) as [HgA _].
  destruct (take_block rl_vec gem ltac:(rewrite Hl; apply Hlen)) as [Hgb _].
  rewrite HeA, Heb, HlA, Hlb, HgA, Hgb.
  pose proof (length_select eqm A ru_vec ltac:(congruence)) as H1.
  pose proof (length_select lem A ru_vec ltac:(congruence)) as H2.
  pose proof (length_select gem A rl_vec ltac:(congruence)) as H3.
  destruct (length (np_where eqm) =? 0)%nat,
           (length (np_where lem) =? 0)%nat,
           (length (np_where gem) =? 0)%nat;
    cbn [negb bind fst snd]; intros [= <-];
    cbn [rc_A_eq rc_b_eq rc_A_ub_blocks rc_b_ub_blocks paired app concat];
    rewrite ?app_nil_r, ?length_app, ?length_map;
    (split; [auto|]); (split; [simpl; lia|]); try discriminate; auto.
Qed.

Lemma build_rows_shape (A : list (list pyfloat)) (rl ru b : option matval)
    (eq_tol : Q) (rc : row_constraints) :
  build_rows float_of_str A rl ru b eq_tol = Ok rc →
  paired (rc_A_eq rc) (rc_b_eq rc)
  ∧ length (concat (rc_A_ub_blocks rc)) = length (concat (rc_b_ub_blocks rc))
  ∧ (rc_A_ub_blocks rc = [] → rc_b_ub_blocks rc = []).
Proof.
  unfold build_rows.
  assert (Hpart : ∀ (rlv ruv : result (list pyfloat)),
            (rl_vec ←! rlv; ru_vec ←! ruv;
             if negb (length rl_vec =? length A)%nat
                || negb (length ru_vec =? length A)%nat
             then Raise (ValueError "Inconsistent row bounds: len(rl/ru) != m (rows of A).")
             else partition_rows A rl_vec ru_vec eq_tol) = Ok rc →
            paired (rc_A_eq rc) (rc_b_eq rc)
            ∧ length (concat (rc_A_ub_blocks rc)) = length (concat (rc_b_ub_blocks rc))
            ∧ (rc_A_ub_blocks rc = [] → rc_b_ub_blocks rc = [])).
  { intros [rl_vec|] [ru_vec|]; cbn [bind]; try discriminate.
    destruct (length rl_vec =? length A)%nat eqn:E1; cbn [negb orb]; [|discriminate].
    destruct (length ru_vec =? length A)%nat eqn:E2; cbn [negb]; [|discriminate].
    apply Nat.eqb_eq in E1, E2. now apply partition_rows_shape. }
  destruct rl as [rlv|], ru as [ruv|]; try apply Hpart.
  destruct b as [bv|].
  - destruct (_ensure_1d_float float_of_str bv) as [bvec|]; cbn [bind]; [|discriminate].
    destruct (length bvec =? length A)%nat eqn:E; cbn [negb]; [|discriminate].
    apply Nat.eqb_eq in E. intros [= <-]. cbn. auto.
  - intros [= <-]. cbn. auto.
Qed.

(** What [build_problem] returns, field by field. *)
Lemma build_problem_inv (path : string) (mat : list (string * matval))
    (eq_tol : Q) (p : problem_dict) :
  build_problem float_of_str path mat eq_tol = Ok p →
  ∃ rows n lo hi rc,
    length (c p) = n ∧ length lo = n ∧ length hi = n
    ∧ (fetch mat lo_names = None → lo = replicate n (Fin 0))
    ∧ (fetch mat hi_names = None → hi = replicate n PosInf)
    ∧ bounds p = zip_with (fun L U => (finite_or_None L, finite_or_None U)) lo hi
    ∧ build_rows float_of_str rows (fetch mat rl_names) (fetch mat ru_names)
        (fetch mat b_names) eq_tol = Ok rc
    ∧ A_eq p = rc_A_eq rc
    ∧ b_eq p = match rc_A_eq rc with Some _ => rc_b_eq rc | None => None end
    ∧ A_ub p = match rc_A_ub_blocks rc with
               | [] => None
               | blocks => Some (concat blocks)
               end
    ∧ b_ub p = match rc_A_ub_blocks rc with
               | [] => None
               | _ => Some (concat (rc_b_ub_blocks rc))
               end
    ∧ var_names p = map (fun i => ("x" ++ str_of_nat i)%string) (seq 0 n)
    ∧ sense p = "min"%string
    ∧ metadata p = ("LPnetlib"%string, path)
    ∧ obj_offset p = None.
Proof.
  unfold build_problem.
  fold rl_names ru_names b_names lo_names hi_names.
  destruct (match fetch mat ["A"; "a"; "M"; "mat"]%string with
            | Some A => Some A
            | None => _
            end) as [A|]; [|discriminate].
  destruct (fetch mat ["c"; "f"; "cost"; "obj"; "objective"]%string) as [c0|];
    [|discriminate].
  destruct (_to_csr A) as [[rows n]|]; cbn [bind]; [|discriminate].
  destruct (_ensure_1d_float float_of_str c0) as [cvec|]; cbn [bind]; [|discriminate].
  destruct (length cvec =? n)%nat eqn:Ec; cbn [negb]; [|discriminate].
  apply Nat.eqb_eq in Ec.
  destruct (match fetch mat lo_names with
            | Some lo => _
            | None => _
            end) as [lo|] eqn:Elo; cbn [bind]; [|discriminate].
  destruct (match fetch mat hi_names with
            | Some hi => _
            | None => _
            end) as [hi|] eqn:Ehi; cbn [bind]; [|discriminate].
  destruct (length lo =? n)%nat eqn:El; cbn [negb orb]; [|discriminate].
  destruct (length hi =? n)%nat eqn:Eh; cbn [negb]; [|discriminate].
  apply Nat.eqb_eq in El, Eh.
  destruct (build_rows _ _ _ _ _ _) as [rc|] eqn:Er; cbn [bind]; [|discriminate].
  intros [= <-]. exists rows, n, lo, hi, rc. cbn.
  split; [exact Ec|]. split; [exact El|]. split; [exact Eh|].
  split. { intros H. rewrite H in Elo. now injection Elo as <-. }
  split. { intros H. rewrite H in Ehi. now injection Ehi as <-. }
  repeat split; auto.
Qed.

Lemma load_lpnetlib_mat_inv (path : string) (mat : list (string * matval))
    (eq_tol : Q) (p : problem_dict) :
  load_lpnetlib_mat float_of_str path mat eq_tol = Ok p →
  ∃ p0, build_problem float_of_str path mat eq_tol = Ok p0
        ∧ (sense p, c p, bounds p, var_names p, metadata p)
          = (sense p0, c p0, bounds p0, var_names p0, metadata p0)
        ∧ (A_eq p, b_eq p, A_ub p, b_ub p) = (A_eq p0, b_eq p0, A_ub p0, b_ub p0).
Proof.
  unfold load_lpnetlib_mat.
  destruct (build_problem float_of_str path mat eq_tol) as [p0|]; cbn [bind];
    [|discriminate].
  intros [= <-]. exists p0. split; [reflexivity|]. unfold store_obj_offset.
  destruct (fetch mat z0_names) as [z0|]; [|auto].
  destruct (z0_to_float float_of_str z0); auto.
Qed.

(** The problem returned by a successful load is well formed: it is a
    minimisation with one bound pair and one name per objective
    coefficient, the names [x0 .. x(n-1)] all distinct; every bound is
    absent or finite; [A_eq] and [b_eq] are both absent, or both present
    with as many rows as right-hand sides, and so are [A_ub] and [b_ub]. *)
Theorem loaded_lp_problem_is_well_formed (path : string)
    (mat : list (string * matval)) (eq_tol : Q) (p : problem_dict) :
  load_lpnetlib_mat float_of_str path mat eq_tol = Ok p →
  sense p = "min"%string
  ∧ metadata p = ("LPnetlib"%string, path)
  ∧ length (bounds p) = length (c p)
  ∧ length (var_names p) = length (c p)
  ∧ NoDup (var_names p)
  ∧ Forall (fun b => finite_bound (fst b) ∧ finite_bound (snd b)) (bounds p)
  ∧ paired (A_eq p) (b_eq p)
  ∧ paired (A_ub p) (b_ub p).
Proof.
  intros H. apply load_lpnetlib_mat_inv in H as (p0 & Hb & [= -> -> -> -> ->] & [= -> -> -> ->]).
  apply build_problem_inv in Hb
    as (rows & n & lo & hi & rc & Hc & Hlo & Hhi & _ & _ & -> & Hrows & -> & -> & -> & ->
        & -> & -> & -> & _).
  apply build_rows_shape in Hrows as (Heq & Hub & Hnil).
  split; [reflexivity|]. split; [reflexivity|].
  split; [rewrite length_zip_with; lia|].
  split; [rewrite length_map, length_seq; lia|].
  split.
  { apply NoDup_fmap_2_strong with (f := fun i => ("x" ++ str_of_nat i)%string)
                                   (l := seq 0 n).
    - intros i j _ _ E. injection E as E. now apply str_of_nat_inj.
    - apply NoDup_seq. }
  split.
  { apply Forall_forall. intros [bl bu] Hin.
    apply list_elem_of_lookup in Hin as [k Hk].
    apply lookup_zip_with_Some in Hk as (L & U & [= -> ->] & _ & _).
    unfold finite_or_None, finite_bound. cbn [fst snd].
    destruct (isfinite L) eqn:EL, (isfinite U) eqn:EU; cbn [negb]; auto. }
  split.
  { unfold paired in *. destruct (rc_A_eq rc), (rc_b_eq rc); auto. }
  unfold paired. destruct (rc_A_ub_blocks rc) as [|blk blks] eqn:E; [exact I|].
  rewrite <- E in *. exact Hub.
Qed.

Lemma is_nil_true {A : Type} (l : list A) : is_nil l = true → l = [].
Proof. now destruct l. Qed.

Lemma np_where_is_nil {A : Type} (mask : list bool) (l : list A) :
  length mask = length l →
  (length (np_where mask) =? 0)%nat = is_nil (select mask l).
Proof.
  intros H. rewrite (length_np_where mask l H). now destruct (select mask l).
Qed.

Lemma is_nil_select {A B : Type} (mask : list bool) (l : list A) (l' : list B) :
  length l = length l' → is_nil (select mask l) = is_nil (select mask l').
Proof.
  intros H. pose proof (length_select mask l l' H) as E.
  destruct (select mask l), (select mask l'); try discriminate; reflexivity.
Qed.

(** What the partition returns, by the three classes of rows. *)
Lemma partition_rows_exact (A : list (list pyfloat))
    (rl_vec ru_vec : list pyfloat) (eq_tol : Q) :
  length rl_vec = length A → length ru_vec = length A →
  let eqm := zip_with (eq_row eq_tol) rl_vec ru_vec in
  let lem := zip_with (le_row eq_tol) rl_vec ru_vec in
  let gem := zip_with (ge_row eq_tol) rl_vec ru_vec in
  partition_rows A rl_vec ru_vec eq_tol
  = Ok {| rc_A_eq := if is_nil (select eqm ru_vec) then None
                     else Some (select eqm A);
          rc_b_eq := if is_nil (select eqm ru_vec) then None
                     else Some (select eqm ru_vec);
          rc_A_ub_blocks :=
            (if is_nil (select lem ru_vec) then [] else [select lem A])
            ++ (if is_nil (select gem rl_vec) then []
                else [map (map fneg) (select gem A)]);
          rc_b_ub_blocks :=
            (if is_nil (select lem ru_vec) then [] else [select lem ru_vec])
            ++ (if is_nil (select gem rl_vec) then []
                else [map fneg (select gem rl_vec)]) |}.
Proof.
  intros Hl Hu eqm lem gem. unfold partition_rows.
  rewrite is_eq_mask_spec, le_mask_spec, ge_mask_spec by congruence.
  fold eqm lem gem.
  assert (Hlen : ∀ f : pyfloat → pyfloat → bool,
             length (zip_with f rl_vec ru_vec) = length A).
  { intros f. rewrite length_zip_with. lia. }
  rewrite (np_where_is_nil eqm ru_vec), (np_where_is_nil lem ru_vec),
    (np_where_is_nil gem rl_vec)
    by (unfold eqm, lem, gem; rewrite Hlen; congruence).
  rewrite !take_idx_where
    by (unfold eqm, lem, gem; rewrite Hlen; lia).
  destruct (is_nil (select eqm ru_vec)), (is_nil (select lem ru_vec)),
    (is_nil (select gem rl_vec)); reflexivity.
Qed.

Lemma rhs_of_opt (l : list pyfloat) :
  rhs_of (if is_nil l then None else Some l) = l.
Proof. now destruct l. Qed.

Lemma rows_of_opt {B : Type} (l : list B) (rows : list (list pyfloat)) :
  length rows = length l →
  rows_of (if is_nil l then None else Some rows) = rows.
Proof. destruct l, rows; try discriminate; reflexivity. Qed.

(** With no variable bounds in the file every variable is bounded below
    by zero and unbounded above: the bounds of the returned problem are
    [(0.0, None)] for each of the objective's coefficients. *)
Theorem missing_variable_bounds_default_to_nonnegative (path : string)
    (mat : list (string * matval)) (eq_tol : Q) (p : problem_dict) :
  load_lpnetlib_mat float_of_str path mat eq_tol = Ok p →
  fetch mat lo_names = None →
  fetch mat hi_names = None →
  bounds p = replicate (length (c p)) (Some (Fin 0), None).
Proof.
  intros H Hlo Hhi.
  apply load_lpnetlib_mat_inv in H as (p0 & Hb & [= _ -> -> _ _] & _).
  apply build_problem_inv in Hb
    as (rows & n & lo & hi & rc & Hc & _ & _ & Elo & Ehi & -> & _).
  rewrite (Elo Hlo), (Ehi Hhi), Hc. clear.
  induction n as [|n IH]; [reflexivity|].
  cbn [replicate zip_with]. now rewrite IH.
Qed.

(** With no row bounds in the file, a right-hand side makes every row of
    the matrix an equality: [b_eq] is the right-hand side as a vector,
    [A_eq] has one row for each of its entries, and there is no [A_ub] or
    [b_ub].  With no right-hand side either, the problem has no row
    constraints at all. *)
Theorem rhs_only_system_is_all_equalities (path : string)
    (mat : list (string * matval)) (eq_tol : Q) (p : problem_dict) :
  load_lpnetlib_mat float_of_str path mat eq_tol = Ok p →
  fetch mat rl_names = None →
  fetch mat ru_names = None →
  A_ub p = None ∧ b_ub p = None
  ∧ match fetch mat b_names with
    | Some bv =>
        ∃ rows rhs, _ensure_1d_float float_of_str bv = Ok rhs
                    ∧ A_eq p = Some rows ∧ b_eq p = Some rhs
                    ∧ length rows = length rhs
    | None => A_eq p = None ∧ b_eq p = None
    end.
Proof.
  intros H Hrl Hru.
  apply load_lpnetlib_mat_inv in H as (p0 & Hb & _ & [= -> -> -> ->]).
  apply build_problem_inv in Hb
    as (rows & n & lo & hi & rc & _ & _ & _ & _ & _ & _ & Hrows & -> & -> & -> & ->
        & _).
  rewrite Hrl, Hru in Hrows. unfold build_rows in Hrows.
  destruct (fetch mat b_names) as [bv|].
  - destruct (_ensure_1d_float float_of_str bv) as [rhs|]; cbn [bind] in Hrows;
      [|discriminate].
    destruct (length rhs =? length rows)%nat eqn:E; cbn [negb] in Hrows;
      [|discriminate].
    apply Nat.eqb_eq in E. injection Hrows as <-. cbn.
    repeat split. exists rows, rhs. auto.
  - injection Hrows as <-. cbn. auto.
Qed.


Lemma masks_without_lower_bounds (eq_tol : Q) (ru_vec : list pyfloat) :
  zip_with (eq_row eq_tol) (replicate (length ru_vec) NegInf) ru_vec
  = replicate (length ru_vec) false
  ∧ zip_with (le_row eq_tol) (replicate (length ru_vec) NegInf) ru_vec
    = map isfinite ru_vec
  ∧ zip_with (ge_row eq_tol) (replicate (length ru_vec) NegInf) ru_vec
    = replicate (length ru_vec) false.
Proof.
  induction ru_vec as [|u ru (IH1 & IH2 & IH3)]; [auto|].
  cbn [length replicate zip_with map]. rewrite IH1, IH2, IH3.
  unfold le_row, ge_row, eq_row. cbn [isfinite andb negb].
  now rewrite andb_true_r.
Qed.

Lemma select_none {A : Type} (l : list A) :
  select (replicate (length l) false) l = [].
Proof.
  induction l as [|x l IH]; [reflexivity|].
  cbn [length replicate]. now rewrite select_cons.
Qed.

Lemma select_none_le {A : Type} (n : nat) (l : list A) :
  length l = n → select (replicate n false) l = [].
Proof. intros <-. apply select_none. Qed.

Lemma select_map_filter {A : Type} (f : A → bool) (l : list A) :
  select (map f l) l = filter (fun x => f x = true) l.
Proof.
  induction l as [|x l IH]; [reflexivity|].
  cbn [map]. rewrite select_cons, IH. destruct (f x) eqn:E.
  - now rewrite filter_cons_True.
  - rewrite filter_cons_False; [reflexivity|]. now rewrite E.
Qed.

(** With upper row bounds only, no row is an equality and no row is
    negated: there is no [A_eq] or [b_eq], and [b_ub] lists the finite
    upper bounds in the order of the rows (and is absent when there is
    none). *)
Theorem upper_row_bounds_alone_give_only_upper_rows (path : string)
    (mat : list (string * matval)) (eq_tol : Q) (p : problem_dict)
    (vu : matval) :
  load_lpnetlib_mat float_of_str path mat eq_tol = Ok p →
  fetch mat rl_names = None →
  fetch mat ru_names = Some vu →
  A_eq p = None ∧ b_eq p = None
  ∧ ∃ ru_vec, _ensure_1d_float float_of_str vu = Ok ru_vec
      ∧ b_ub p = match filter (fun u => isfinite u = true) ru_vec with
                 | [] => None
                 | finite => Some finite
                 end.
Proof.
  intros H Hrl Hru.
  apply load_lpnetlib_mat_inv in H as (p0 & Hb & _ & [= -> -> _ ->]).
  apply build_problem_inv in Hb
    as (rows & n & lo & hi & rc & _ & _ & _ & _ & _ & _ & Hrows & -> & -> & _ & ->
        & _).
  rewrite Hrl, Hru in Hrows. unfold build_rows in Hrows. cbn [bind] in Hrows.
  destruct (_ensure_1d_float float_of_str vu) as [ru_vec|]; cbn [bind] in Hrows;
    [|discriminate].
  rewrite length_replicate, Nat.eqb_refl in Hrows. cbn [negb orb] in Hrows.
  destruct (length ru_vec =? length rows)%nat eqn:E2; cbn [negb] in Hrows;
    [|discriminate].
  apply Nat.eqb_eq in E2.
  rewrite partition_rows_exact in Hrows
    by (rewrite ?length_replicate; congruence).
  cbv zeta in Hrows. rewrite <- E2 in Hrows.
  destruct (masks_without_lower_bounds eq_tol ru_vec) as (M1 & M2 & M3).
  rewrite M1, M2, M3 in Hrows.
  rewrite !select_none, (select_none_le (length ru_vec) (replicate _ _)) in Hrows
    by now rewrite length_replicate.
  rewrite select_map_filter in Hrows. cbn [is_nil app] in Hrows.
  injection Hrows as <-. cbn [rc_A_eq rc_b_eq rc_A_ub_blocks rc_b_ub_blocks].
  split; [reflexivity|]. split; [reflexivity|].
  exists ru_vec. split; [reflexivity|].
  destruct (filter _ ru_vec); cbn [is_nil concat app]; [reflexivity|].
  now rewrite app_nil_r.
Qed.

End LpnetlibMore.

Section LpnetlibMoreWitnesses.
Import Py lpnetlib_adapter lpnetlib_ref lpnetlib_more_ref.

Lemma loaded_lp_problem_is_well_formed_witness :
  ∃ p,
    load_lpnetlib_mat no_float "lp.mat" mat_row_bounds eq_tol_default = Ok p
    ∧ sense p = "min"%string
    ∧ metadata p = ("LPnetlib"%string, "lp.mat"%string)
    ∧ length (bounds p) = length (c p)
    ∧ length (var_names p) = length (c p)
    ∧ NoDup (var_names p)
    ∧ Forall (fun b => finite_bound (fst b) ∧ finite_bound (snd b)) (bounds p)
    ∧ paired (A_eq p) (b_eq p)
    ∧ paired (A_ub p) (b_ub p).
Proof.
  eexists. split; [vm_compute; reflexivity|].
  apply (loaded_lp_problem_is_well_formed no_float "lp.mat" mat_row_bounds
           eq_tol_default).
  vm_compute. reflexivity.
Defined.

Lemma missing_variable_bounds_default_to_nonnegative_witness :
  ∃ p,
    load_lpnetlib_mat no_float "lp.mat" mat_row_bounds eq_tol_default = Ok p
    ∧ fetch mat_row_bounds lo_names = None
    ∧ fetch mat_row_bounds hi_names = None
    ∧ bounds p = replicate (length (c p)) (Some (Fin 0), None).
Proof.
  eexists. split; [vm_compute; reflexivity|].
  split; [reflexivity|]. split; [reflexivity|].
  apply (missing_variable_bounds_default_to_nonnegative no_float "lp.mat"
           mat_row_bounds eq_tol_default);
    [vm_compute; reflexivity|reflexivity|reflexivity].
Defined.

Lemma rhs_only_system_is_all_equalities_witness :
  ∃ p,
    load_lpnetlib_mat no_float "lp.mat" mat_rhs_only eq_tol_default = Ok p
    ∧ fetch mat_rhs_only rl_names = None
    ∧ fetch mat_rhs_only ru_names = None
    ∧ A_ub p = None ∧ b_ub p = None
    ∧ match fetch mat_rhs_only b_names with
      | Some bv =>
          ∃ rows rhs, _ensure_1d_float no_float bv = Ok rhs
                      ∧ A_eq p = Some rows ∧ b_eq p = Some rhs
                      ∧ length rows = length rhs
      | None => A_eq p = None ∧ b_eq p = None
      end.
Proof.
  eexists. split; [vm_compute; reflexivity|].
  split; [reflexivity|]. split; [reflexivity|].
  apply (rhs_only_system_is_all_equalities no_float "lp.mat" mat_rhs_only
           eq_tol_default);
    [vm_compute; reflexivity|reflexivity|reflexivity].
Defined.


(** The four rows of the example: the equality row gives [b_eq = [5]];
    the range row and the [<=] row give the upper bounds 3 and 7, the
    range row and the [>=] row the negated lower bounds -1 and -2. *)
Example row_bounds_example :
  ∃ p,
    load_lpnetlib_mat no_float "lp.mat" mat_row_bounds eq_tol_default = Ok p
    ∧ b_eq p = Some [Fin 5]
    ∧ A_eq p = Some [[Fin 4]]
    ∧ b_ub p = Some [Fin 3; Fin 7; Fin (-1); Fin (-2)]
    ∧ A_ub p = Some [[Fin 1]; [Fin 2]; [Fin (-1)]; [Fin (-3)]].
Proof.
  eexists. split; [vm_compute; reflexivity|]. repeat split.
Qed.

Lemma upper_row_bounds_alone_give_only_upper_rows_witness :
  ∃ p vu,
    load_lpnetlib_mat no_float "lp.mat" mat_upper_only eq_tol_default = Ok p
    ∧ fetch mat_upper_only rl_names = None
    ∧ fetch mat_upper_only ru_names = Some vu
    ∧ A_eq p = None ∧ b_eq p = None
    ∧ ∃ ru_vec, _ensure_1d_float no_float vu = Ok ru_vec
        ∧ b_ub p = match filter (fun u => isfinite u = true) ru_vec with
                   | [] => None
                   | finite => Some finite
                   end.
Proof.
  eexists. eexists. split; [vm_compute; reflexivity|].
  split; [reflexivity|]. split; [vm_compute; reflexivity|].
  apply (upper_row_bounds_alone_give_only_upper_rows no_float "lp.mat"
           mat_upper_only eq_tol_default);
    vm_compute; reflexivity.
Defined.

End LpnetlibMoreWitnesses.

(* ===================================================================== *)
(** * Further properties of miplib_solu.py                                *)
(* ===================================================================== *)

Section MiplibMore.
Import Py miplib_solu miplib_ref miplib_more_ref.

Variable float_of_str : string → option pyfloat.

(** ** Characters *)

Lemma letter_lowers_to_a_z (a : ascii) :
  is_letter a = true → code_in 97 122 (lower_ascii a) = true.
Proof. destruct a as [[] [] [] [] [] [] [] []]; vm_compute; auto. Qed.

Lemma letter_is_not_space (a : ascii) : is_letter a = true → is_space a = false.
Proof. destruct a as [[] [] [] [] [] [] [] []]; vm_compute; auto. Qed.

Lemma digit_is_not_space (a : ascii) : is_digit a = true → is_space a = false.
Proof. destruct a as [[] [] [] [] [] [] [] []]; vm_compute; auto. Qed.

Lemma digit_is_not_sign (a : ascii) : is_digit a = true → is_sign a = false.
Proof. destruct a as [[] [] [] [] [] [] [] []]; vm_compute; auto. Qed.

Lemma list_ascii_of_string_app (s t : string) :
  list_ascii_of_string (s ++ t) = list_ascii_of_string s ++ list_ascii_of_string t.
Proof. induction s as [|a s IH]; [reflexivity|]. simpl. now rewrite IH. Qed.

Lemma list_ascii_of_lower (s : string) :
  list_ascii_of_string (lower s) = map lower_ascii (list_ascii_of_string s).
Proof. induction s as [|a s IH]; [reflexivity|]. simpl. now rewrite IH. Qed.

Lemma string_of_list_nonempty (l : list ascii) :
  l ≠ [] → string_of_list_ascii l ≠ EmptyString.
Proof. destruct l; [congruence|discriminate]. Qed.

(** ** The greedy prefixes of the pattern *)

Lemma span_Forall (p : ascii → bool) (l : list ascii) :
  Forall (fun a => p a = true) (fst (span p l)).
Proof.
  induction l as [|a l IH]; cbn [span]; [constructor|].
  destruct (p a) eqn:E; [|constructor].
  destruct (span p l) as [pre rest]. cbn [fst] in *. now constructor.
Qed.

Lemma span_app (p : ascii → bool) (pre rest : list ascii) :
  Forall (fun a => p a = true) pre →
  match rest with [] => True | b :: _ => p b = false end →
  span p (pre ++ rest) = (pre, rest).
Proof.
  intros Hpre Hrest. induction Hpre as [|a pre Ha _ IH]; cbn [app span].
  - destruct rest as [|b rest]; [reflexivity|]. cbn [span]. now rewrite Hrest.
  - now rewrite Ha, IH.
Qed.

Lemma nonempty_true {A : Type} (l : list A) : nonempty l = true → l ≠ [].
Proof. destruct l; [discriminate|congruence]. Qed.

(** What the three groups of the tagged pattern hold. *)
Lemma match_v31_inv (line : list ascii) (key name : string) (obj : option string) :
  match_v31 line = Some (key, name, obj) →
  ∃ k n, key = string_of_list_ascii k ∧ name = string_of_list_ascii n
         ∧ k ≠ [] ∧ Forall (fun a => is_letter a = true) k
         ∧ n ≠ [] ∧ Forall (fun a => is_space a = false) n.
Proof.
  unfold match_v31. destruct line as [|a l1]; [discriminate|].
  destruct (Ascii.eqb a "="); cbn [negb]; [|discriminate].
  pose proof (span_Forall is_letter l1) as Hk.
  destruct (span is_letter l1) as [k l2]. cbn [fst] in Hk.
  destruct (nonempty k) eqn:Ek; cbn [negb]; [|discriminate].
  destruct l2 as [|b l3]; [discriminate|].
  destruct (Ascii.eqb b "="); cbn [negb]; [|discriminate].
  destruct (span is_space l3) as [ws l4].
  destruct (nonempty ws); cbn [negb]; [|discriminate].
  pose proof (span_Forall (fun x => negb (is_space x)) l4) as Hn.
  destruct (span (fun x => negb (is_space x)) l4) as [n l5]. cbn [fst] in Hn.
  destruct (nonempty n) eqn:En; cbn [negb]; [|discriminate].
  destruct (span is_space l5) as [ws2 l6].
  intros [= <- <- _]. exists k, n.
  split; [reflexivity|]. split; [reflexivity|].
  split; [now apply nonempty_true|]. split; [exact Hk|].
  split; [now apply nonempty_true|].
  eapply Forall_impl; [exact Hn|]. intros x Hx. now apply negb_true_iff in Hx.
Qed.

(** ** Names and statuses *)

Lemma split_go_no_space (l : list ascii) :
  ∀ cur t, Forall (fun a => is_space a = false) cur →
           In t (split_go cur l) →
           Forall (fun a => is_space a = false) (list_ascii_of_string t).
Proof.
  assert (Htok : ∀ cur, Forall (fun a => is_space a = false) cur →
            Forall (fun a => is_space a = false) (list_ascii_of_string (token cur))).
  { intros cur H. unfold token. rewrite list_ascii_of_string_of_list_ascii.
    now apply List.Forall_rev. }
  induction l as [|a l IH]; intros cur t Hcur; cbn [split_go].
  - destruct cur as [|c cur]; [intros []|]. intros [<-|[]]. now apply Htok.
  - destruct (is_space a) eqn:Ea.
    + destruct cur as [|c cur]; [now apply IH|].
      intros [<-|H]; [now apply Htok|]. eapply IH; [constructor|exact H].
    + apply IH. now constructor.
Qed.

Lemma token_is_good_name (l : list ascii) (t : string) :
  In t (split l) → good_name t.
Proof.
  intros H. split; [eapply split_nonempty, H|].
  eapply split_go_no_space; [constructor|exact H].
Qed.

Lemma status_key_is_good (st : string) : In st _STATUS_KEYS → good_status st.
Proof.
  unfold _STATUS_KEYS. cbn [In]. intros H.
  repeat (destruct H as [<-|H]; [split; [discriminate|repeat constructor]|]).
  destruct H.
Qed.

Lemma lowered_key_is_good (k : list ascii) :
  k ≠ [] → Forall (fun a => is_letter a = true) k →
  good_status (lower (string_of_list_ascii k)).
Proof.
  intros Hne Hk. split.
  - destruct k; [congruence|discriminate].
  - rewrite list_ascii_of_lower, list_ascii_of_string_of_list_ascii.
    apply List.Forall_map. eapply Forall_impl; [exact Hk|].
    intros a. apply letter_lowers_to_a_z.
Qed.

Lemma lookup_v31_is_good (key : string) :
  good_status key → good_status (lookup_v31 _V31_MAP key).
Proof.
  intros H. unfold _V31_MAP. cbn [lookup_v31].
  repeat (match goal with
          | |- context [String.eqb ?a key] => destruct (String.eqb a key)
          end; [split; [discriminate|repeat constructor]|]).
  exact H.
Qed.

(** ** One line *)

Lemma is_data_line_dec (raw : string) : {is_data_line raw} + {¬ is_data_line raw}.
Proof.
  unfold is_data_line.
  destruct (nonempty (stripped raw));
    destruct (match stripped raw with a :: _ => Ascii.eqb a "#" | [] => false end);
    (left; split; reflexivity) || (right; intros [? ?]; discriminate).
Qed.

Lemma skipped_line (out : gmap string (string * option pyfloat)) (raw : string) :
  ¬ is_data_line raw → parse_line float_of_str out raw = Ok out.
Proof.
  intros H. unfold parse_line. fold (stripped raw). unfold is_data_line in H.
  destruct (nonempty (stripped raw)); cbn [negb orb]; [|reflexivity].
  destruct (match stripped raw with a :: _ => Ascii.eqb a "#" | [] => false end);
    [reflexivity|]. exfalso. apply H. split; reflexivity.
Qed.

Lemma tagged_line_outcome (out : gmap string (string * option pyfloat))
    (raw key name : string) (obj : option string) :
  is_data_line raw → match_v31 (stripped raw) = Some (key, name, obj) →
  parse_line float_of_str out raw
  = (val ←! match obj with
            | Some o => match float_of_str o with
                        | Some v => Ok (Some v)
                        | None => Raise (ValueError "could not convert string to float")
                        end
            | None => Ok None
            end;
     Ok (<[name := (lookup_v31 _V31_MAP (lower key), val)]> out)).
Proof.
  intros [Hne Hhash] Hm. unfold parse_line. fold (stripped raw).
  now rewrite Hne, Hhash, Hm.
Qed.

(** The fallback never raises: it skips the line or records a token of
    the line under a status word. *)
Lemma fallback_line_outcome (out : gmap string (string * option pyfloat))
    (raw : string) :
  is_data_line raw → match_v31 (stripped raw) = None →
  parse_line float_of_str out raw = Ok out
  ∨ ∃ name tok, In name (tokens raw) ∧ status_word tok
                ∧ parse_line float_of_str out raw
                  = Ok (<[name := (lower tok, last_float float_of_str (tokens raw))]> out).
Proof.
  intros [Hne Hhash] Hv31. unfold parse_line.
  fold (stripped raw). rewrite Hne, Hhash, Hv31. cbn [negb orb].
  fold (tokens raw).
  destruct (find_status 0 (tokens raw)) as [idx|] eqn:Ef; [|now left].
  destruct (find_status_Some _ _ _ Ef) as (pre & tok & post & Hfs & ->).
  pose proof Hfs as (Hparts & Hpre & Htok).
  cbn [Nat.add].
  assert (Hlk : tokens raw !! length pre = Some tok).
  { rewrite Hparts. now apply list_lookup_middle. }
  rewrite (getitem_nat _ _ _ Hlk). cbn [bind].
  destruct pre as [|p0 pre0] using rev_ind.
  - cbn [length]. rewrite Nat.ltb_irrefl. change (0 + 1)%nat with 1%nat.
    destruct post as [|name post'].
    + left. rewrite Hparts. cbn [app length]. now rewrite Nat.ltb_irrefl.
    + assert (Hlen : (1 <? length (tokens raw))%nat = true).
      { rewrite Hparts. reflexivity. }
      rewrite Hlen.
      rewrite (getitem_in_range (tokens raw) (Z.of_nat 0 + 1) name);
        [|lia|now rewrite Hparts].
      cbn [bind]. destruct name as [|a name]; [now left|].
      right. exists (String a name), tok.
      split; [rewrite Hparts; simpl; auto|]. split; [exact Htok|reflexivity].
  - clear IHpre0. rewrite length_app. cbn [length].
    replace (length pre0 + 1)%nat with (S (length pre0)) by lia.
    replace (0 <? S (length pre0))%nat with true
      by (symmetry; apply Nat.ltb_lt; lia).
    assert (Hp0 : tokens raw !! length pre0 = Some p0).
    { rewrite Hparts, <- app_assoc. now apply list_lookup_middle. }
    rewrite (getitem_pred _ _ _ Hp0). cbn [bind].
    destruct p0 as [|a p0]; [now left|].
    right. exists (String a p0), tok.
    split; [|split; [exact Htok|reflexivity]].
    rewrite Hparts. apply in_or_app. left. apply in_or_app. right. now left.
Qed.

(** A line raises exactly when [float] rejects its tagged objective; a
    line that does not raise leaves the dict as it is or stores a
    well-formed entry. *)
Lemma parse_line_cases (out : gmap string (string * option pyfloat))
    (raw : string) :
  (rejected_objective float_of_str raw
   ∧ raises (parse_line float_of_str out raw))
  ∨ (¬ rejected_objective float_of_str raw
     ∧ (parse_line float_of_str out raw = Ok out
        ∨ ∃ name st v, good_name name ∧ good_status st
                       ∧ parse_line float_of_str out raw
                         = Ok (<[name := (st, v)]> out))).
Proof.
  destruct (is_data_line_dec raw) as [Hd|Hd].
  2:{ right. split; [intros [H _]; contradiction|]. left. now apply skipped_line. }
  destruct (match_v31 (stripped raw)) as [[[key name] obj]|] eqn:Em.
  - rewrite (tagged_line_outcome out raw key name obj Hd Em).
    destruct (match_v31_inv _ _ _ _ Em) as (k & n & -> & -> & Hk & Hkl & Hn & Hns).
    assert (Hgood : good_name (string_of_list_ascii n)
                    ∧ good_status (lookup_v31 _V31_MAP (lower (string_of_list_ascii k)))).
    { split.
      - split; [now apply string_of_list_nonempty|].
        now rewrite list_ascii_of_string_of_list_ascii.
      - now apply lookup_v31_is_good, lowered_key_is_good. }
    destruct Hgood as [Hgn Hgs].
    destruct obj as [o|].
    + destruct (float_of_str o) as [v|] eqn:Ef; cbn [bind].
      * right. split.
        { intros (_ & key' & name' & o' & Em' & Ef'). rewrite Em in Em'.
          injection Em' as _ _ <-. congruence. }
        right. eauto 6.
      * left. split; [|exact I]. split; [exact Hd|]. eauto.
    + cbn [bind]. right. split.
      { intros (_ & key' & name' & o' & Em' & _). rewrite Em in Em'.
        discriminate. }
      right. eauto 6.
  - right. split.
    { intros (_ & key' & name' & o' & Em' & _). rewrite Em in Em'. discriminate. }
    destruct (fallback_line_outcome out raw Hd Em) as [H|(name & tok & Hin & Ht & H)];
      [now left|].
    right. exists name, (lower tok), (last_float float_of_str (tokens raw)).
    split; [eapply token_is_good_name, Hin|]. split; [|exact H].
    apply status_key_is_good. exact Ht.
Qed.

(** ** Lines in the tagged format *)

Lemma strip_id (l : list ascii) :
  match l with a :: _ => is_space a = false | [] => True end →
  match rev l with b :: _ => is_space b = false | [] => True end →
  strip l = l.
Proof.
  intros H1 H2. unfold strip. destruct l as [|a l]; [reflexivity|].
  cbn [lstrip]. rewrite H1.
  destruct (rev (a :: l)) as [|b r] eqn:E.
  - cbn [lstrip rev]. apply (f_equal (@rev ascii)) in E.
    now rewrite rev_involutive in E.
  - cbn [lstrip]. rewrite H2, <- E. apply rev_involutive.
Qed.

Lemma rev_head (P : ascii → Prop) (pre X : list ascii) :
  X ≠ [] → Forall P X →
  match rev (pre ++ X) with b :: _ => P b | [] => True end.
Proof.
  intros Hne HX. rewrite rev_app_distr.
  apply List.Forall_rev in HX.
  destruct (rev X) as [|b r] eqn:E.
  - apply (f_equal (@rev ascii)) in E. rewrite rev_involutive in E.
    now subst.
  - cbn [app]. now inversion HX.
Qed.

Lemma nonempty_of {A : Type} (l : list A) : l ≠ [] → nonempty l = true.
Proof. destruct l; [congruence|reflexivity]. Qed.

Lemma match_number_digits (o : list ascii) :
  o ≠ [] → Forall (fun a => is_digit a = true) o → match_number o = Some o.
Proof.
  intros Hne Ho. unfold match_number. destruct o as [|a o']; [congruence|].
  rewrite (digit_is_not_sign a) by now inversion Ho.
  rewrite <- (app_nil_r (a :: o')) at 1.
  rewrite (span_app is_digit (a :: o') [] Ho I).
  cbn [nonempty negb]. now rewrite !app_nil_r.
Qed.

Lemma match_v31_tagged (k n : list ascii) (obj : option (list ascii)) :
  k ≠ [] → Forall (fun a => is_letter a = true) k →
  n ≠ [] → Forall (fun a => is_space a = false) n →
  match obj with
  | Some o => o ≠ [] ∧ Forall (fun a => is_digit a = true) o
  | None => True
  end →
  match_v31 ("="%char :: k ++ "="%char :: " "%char :: n
              ++ match obj with Some o => " "%char :: o | None => [] end)
  = Some (string_of_list_ascii k, string_of_list_ascii n,
          option_map string_of_list_ascii obj).
Proof.
  intros Hk Hkl Hn Hns Hobj. unfold match_v31.
  change (Ascii.eqb "=" "=") with true. cbn [negb].
  rewrite (span_app is_letter k _ Hkl) by reflexivity.
  rewrite (nonempty_of k Hk). cbn [negb].
  change (Ascii.eqb "=" "=") with true. cbn [negb].
  set (tail := match obj with Some o => " "%char :: o | None => [] end).
  assert (Hhead : match n ++ tail with
                  | b :: _ => is_space b = false
                  | [] => True
                  end).
  { destruct n as [|a n']; [congruence|]. now inversion Hns. }
  change (" "%char :: n ++ tail) with ([" "%char] ++ (n ++ tail)).
  rewrite (span_app is_space [" "%char] (n ++ tail))
    by (try exact Hhead; repeat constructor).
  cbn [nonempty negb].
  assert (Hns' : Forall (fun a => negb (is_space a) = true) n).
  { eapply Forall_impl; [exact Hns|]. intros a Ha. now rewrite Ha. }
  assert (Htail : match tail with
                  | b :: _ => negb (is_space b) = false
                  | [] => True
                  end).
  { unfold tail. destruct obj; [reflexivity|exact I]. }
  rewrite (span_app (fun x => negb (is_space x)) n tail Hns' Htail).
  rewrite (nonempty_of n Hn). cbn [negb].
  unfold tail. destruct obj as [o|].
  - destruct Hobj as [Ho Hol].
    change (" "%char :: o) with ([" "%char] ++ o).
    rewrite (span_app is_space [" "%char] o).
    + cbn [nonempty]. now rewrite (match_number_digits o Ho Hol).
    + repeat constructor.
    + destruct o as [|a o']; [congruence|].
      apply digit_is_not_space. now inversion Hol.
  - reflexivity.
Qed.

(** A line written in the tagged format is read back: [=key= name] and
    [=key= name digits], for a key of letters and a name without
    whitespace, store under [name] the status of the lowered key (through
    the table of the short keys) and the value of the digits. *)
Theorem tagged_line_is_read_back
    (out : gmap string (string * option pyfloat))
    (key name : string) (obj : option string) (val : option pyfloat) :
  letters_only key → good_name name →
  objective_reads float_of_str obj val →
  parse_line float_of_str out (tagged_line key name obj)
  = Ok (<[name := (lookup_v31 _V31_MAP (lower key), val)]> out).
Proof.
  intros [Hk Hkl] [Hn Hns] Hobj.
  set (k := list_ascii_of_string key) in *.
  set (n := list_ascii_of_string name) in *.
  set (ol := option_map list_ascii_of_string obj).
  assert (Hk' : k ≠ []).
  { unfold k. destruct key; [congruence|discriminate]. }
  assert (Hn' : n ≠ []).
  { unfold n. destruct name; [congruence|discriminate]. }
  assert (Hol : match ol with
                | Some o => o ≠ [] ∧ Forall (fun a => is_digit a = true) o
                | None => True
                end).
  { unfold ol. destruct obj as [o|], val as [v|]; try destruct Hobj; try exact I.
    destruct H as [Ho Hd]. cbn [option_map]. split; [|exact Hd].
    destruct o; [congruence|discriminate]. }
  assert (Hline : list_ascii_of_string (tagged_line key name obj)
                  = "="%char :: k ++ "="%char :: " "%char :: n
                    ++ match ol with Some o => " "%char :: o | None => [] end).
  { unfold tagged_line, ol.
    destruct obj as [o|]; cbn [option_map];
      rewrite !list_ascii_of_string_app; reflexivity. }
  assert (Hstrip : strip (list_ascii_of_string (tagged_line key name obj))
                   = list_ascii_of_string (tagged_line key name obj)).
  { apply strip_id; rewrite Hline; [reflexivity|].
    destruct ol as [o|].
    - destruct Hol as [Ho Hd].
      replace ("="%char :: k ++ "="%char :: " "%char :: n ++ " "%char :: o)
        with (("="%char :: k ++ "="%char :: " "%char :: n ++ [" "%char]) ++ o)
        by (repeat (progress cbn [app] || rewrite <- app_assoc); reflexivity).
      apply rev_head; [exact Ho|].
      eapply Forall_impl; [exact Hd|]. apply digit_is_not_space.
    - rewrite app_nil_r.
      replace ("="%char :: k ++ "="%char :: " "%char :: n)
        with (("="%char :: k ++ ["="%char; " "%char]) ++ n)
        by (repeat (progress cbn [app] || rewrite <- app_assoc); reflexivity).
      now apply rev_head. }
  unfold parse_line. rewrite Hstrip, Hline.
  cbn [nonempty negb orb]. change (Ascii.eqb "=" "#") with false. cbv iota.
  rewrite (match_v31_tagged k n ol Hk' Hkl Hn' Hns Hol).
  unfold k, n, ol. rewrite !string_of_list_ascii_of_string.
  destruct obj as [o|], val as [v|]; try destruct Hobj; cbn [option_map].
  - rewrite string_of_list_ascii_of_string, H0. reflexivity.
  - reflexivity.
Qed.

(** ** The whole file *)

(** Parsing raises exactly when [float] rejects the objective that the
    tagged pattern captured on some line: blank lines, comments and the
    lines of the fallback never raise. *)
Theorem parse_miplib_solu_raises_iff (lines : list string) :
  raises (parse_miplib_solu float_of_str lines)
  ↔ Exists (rejected_objective float_of_str) lines.
Proof.
  unfold parse_miplib_solu. generalize (∅ : gmap string (string * option pyfloat)).
  induction lines as [|raw lines IH]; intros out; cbn [for_each].
  - split; [intros []|]. intros H. inversion H.
  - destruct (parse_line_cases out raw) as [[Hrej Hraise]|[Hnot Hok]].
    + split; [intros _; now constructor|]. intros _.
      destruct (parse_line float_of_str out raw); [destruct Hraise|exact I].
    + assert (Hout : ∃ out', parse_line float_of_str out raw = Ok out').
      { destruct Hok as [H|(name & st & v & _ & _ & H)]; eauto. }
      destruct Hout as [out' ->]. cbn [bind]. rewrite IH.
      split; [intros H; now constructor|].
      intros H. inversion H; subst; [contradiction|assumption].
Qed.

(** Every entry of the returned dict is well formed: the name is not
    empty and holds no whitespace, and the status is a non-empty word of
    the letters [a-z]. *)
Theorem parsed_entries_are_well_formed (lines : list string)
    (out : gmap string (string * option pyfloat)) :
  parse_miplib_solu float_of_str lines = Ok out →
  ∀ name status obj, out !! name = Some (status, obj) →
                     good_name name ∧ good_status status.
Proof.
  unfold parse_miplib_solu.
  assert (Hgen : ∀ (s : gmap string (string * option pyfloat)),
            (∀ name status obj, s !! name = Some (status, obj) →
                                good_name name ∧ good_status status) →
            for_each (parse_line float_of_str) lines s = Ok out →
            ∀ name status obj, out !! name = Some (status, obj) →
                               good_name name ∧ good_status status).
  { induction lines as [|raw lines IH]; intros s Hs; cbn [for_each].
    - now intros [= <-].
    - destruct (parse_line_cases s raw) as [[_ Hraise]|[_ Hok]].
      + destruct (parse_line float_of_str s raw); [destruct Hraise|discriminate].
      + destruct Hok as [->|(nm & st & v & Hnm & Hst & ->)]; cbn [bind].
        * now apply IH.
        * apply IH. intros name status obj.
          destruct (decide (nm = name)) as [<-|Hne].
          -- rewrite lookup_insert_eq. now intros [= <- _].
          -- rewrite lookup_insert_ne by exact Hne. apply Hs. }
  apply Hgen. intros name status obj. now rewrite lookup_empty.
Qed.

End MiplibMore.

Section MiplibMoreWitnesses.
Import Py miplib_solu miplib_ref miplib_more_ref.

Lemma tagged_line_is_read_back_witness :
  letters_only "opt"
  ∧ good_name "air04"
  ∧ objective_reads decimal_float (Some "56137"%string)
      (Some (Fin (inject_Z 56137)))
  ∧ parse_line decimal_float ∅ (tagged_line "opt" "air04" (Some "56137"%string))
    = Ok (<["air04"%string :=
             (lookup_v31 _V31_MAP (lower "opt"), Some (Fin (inject_Z 56137)))]> ∅).
Proof.
  assert (H1 : letters_only "opt") by (split; [discriminate|repeat constructor]).
  assert (H2 : good_name "air04") by (split; [discriminate|repeat constructor]).
  assert (H3 : objective_reads decimal_float (Some "56137"%string)
                 (Some (Fin (inject_Z 56137)))).
  { split; [split; [discriminate|repeat constructor]|reflexivity]. }
  split; [exact H1|]. split; [exact H2|]. split; [exact H3|].
  exact (tagged_line_is_read_back decimal_float ∅ "opt" "air04"
           (Some "56137"%string) (Some (Fin (inject_Z 56137))) H1 H2 H3).
Defined.

Lemma parsed_entries_are_well_formed_witness :
  ∃ out,
    parse_miplib_solu decimal_float small_archive = Ok out
    ∧ ∀ name status obj, out !! name = Some (status, obj) →
                         good_name name ∧ good_status status.
Proof.
  eexists. split; [reflexivity|].
  apply (parsed_entries_are_well_formed decimal_float small_archive).
  reflexivity.
Defined.

(** The small archive: four instances; the comment and the blank line
    leave nothing, and a key is looked up in lower case. *)
Example small_archive_entries :
  ∃ out,
    parse_miplib_solu decimal_float small_archive = Ok out
    ∧ out !! "air04"%string = Some ("optimal"%string, Some (Fin (inject_Z 56137)))
    ∧ out !! "infeasible01"%string = Some ("infeasible"%string, None)
    ∧ out !! "markshare1"%string = Some ("best"%string, Some (Fin (inject_Z 1)))
    ∧ out !! "ds"%string = Some ("unknown"%string, None)
    ∧ size out = 4%nat.
Proof.
  eexists. split; [reflexivity|]. vm_compute. repeat split.
Qed.

(** An objective that [float] rejects on a tagged line makes the whole
    parse raise. *)
Example rejected_objective_raises :
  raises (parse_miplib_solu (fun _ => None)
            ["=opt= air04 56137"; "markshare1 best 1"]%string).
Proof. vm_compute. exact I. Qed.

End MiplibMoreWitnesses.

